(** * The hierarchy parser and chunk merger of [ingestion_scripts/chunking.py]

    A shallow embedding of [parse_legal_document_to_dict] and
    [create_chunks_from_tree], with the properties the specification states
    about them.

    Python strings are sequences of Unicode code points; they are modelled as
    [list N].  String literals of the source are written as UTF-8 text and
    decoded by [u]. *)

From Stdlib Require Import NArith ZArith Lia Bool String Ascii Sorted.
From stdpp Require Import base decidable option list numbers gmap.
From Equations Require Import Equations.

Local Open Scope N_scope.

Abbreviation str := (list N) (only parsing).

(** ** String literals *)

Module Utf8.

(** [decode bs need acc]: [need] continuation bytes are still expected for
    the code point accumulated in [acc]. *)
Fixpoint decode (bs : list N) (need : nat) (acc : N) : list N :=
  match bs with
  | [] => []
  | b :: bs' =>
      match need with
      | O =>
          if b <? 128 then b :: decode bs' O 0
          else if b <? 224 then decode bs' 1%nat (N.land b 31)
          else if b <? 240 then decode bs' 2%nat (N.land b 15)
          else decode bs' 3%nat (N.land b 7)
      | S O => (N.shiftl acc 6 + N.land b 63) :: decode bs' O 0
      | S n => decode bs' n (N.shiftl acc 6 + N.land b 63)
      end
  end.

Fixpoint bytes (s : string) : list N :=
  match s with
  | EmptyString => []
  | String a s' => N_of_ascii a :: bytes s'
  end.

End Utf8.

Definition u (s : string) : str := Utf8.decode (Utf8.bytes s) O 0.

(** ** The Unicode properties the program consults

    The tables behind [str.strip], [str.lower] and the classes [\s], [\w]
    and the case folding of [re.IGNORECASE], complete for the code points
    0 to 1114111 as CPython 3.11 has them (Unicode 14.0.0): white space,
    the simple lower-case mapping, the Cased and Case_Ignorable properties
    that decide the lower case of a capital sigma, the alphanumeric code
    points, and the lower-case letters that case-insensitive matching
    identifies although neither is the lower case of the other. *)

Module Unicode.

Definition between (lo hi c : N) : bool := (lo <=? c) && (c <=? hi).

Definition isspace (c : N) : bool :=
  between 9 13 c || between 28 32 c || (c =? 133) || (c =? 160)
  || (c =? 5760) || between 8192 8202 c || (c =? 8232) || (c =? 8233)
  || (c =? 8239) || (c =? 8287) || (c =? 12288).

(** Membership in a table of inclusive ranges. *)
Definition in_ranges (table : list (N * N)) (c : N) : bool :=
  existsb (fun r => between r.1 r.2 c) table.

(** [str.isalnum], and the underscore. *)
Definition word_table : list (N * N) :=
  [(48, 57); (65, 90); (95, 95); (97, 122); (170, 170); (178, 179);
   (181, 181); (185, 186); (188, 190); (192, 214); (216, 246); (248, 705);
   (710, 721); (736, 740); (748, 748); (750, 750); (880, 884); (886, 887);
   (890, 893); (895, 895); (902, 902); (904, 906); (908, 908); (910, 929);
   (931, 1013); (1015, 1153); (1162, 1327); (1329, 1366); (1369, 1369); (1376, 1416);
   (1488, 1514); (1519, 1522); (1568, 1610); (1632, 1641); (1646, 1647); (1649, 1747);
   (1749, 1749); (1765, 1766); (1774, 1788); (1791, 1791); (1808, 1808); (1810, 1839);
   (1869, 1957); (1969, 1969); (1984, 2026); (2036, 2037); (2042, 2042); (2048, 2069);
   (2074, 2074); (2084, 2084); (2088, 2088); (2112, 2136); (2144, 2154); (2160, 2183);
   (2185, 2190); (2208, 2249); (2308, 2361); (2365, 2365); (2384, 2384); (2392, 2401);
   (2406, 2415); (2417, 2432); (2437, 2444); (2447, 2448); (2451, 2472); (2474, 2480);
   (2482, 2482); (2486, 2489); (2493, 2493); (2510, 2510); (2524, 2525); (2527, 2529);
   (2534, 2545); (2548, 2553); (2556, 2556); (2565, 2570); (2575, 2576); (2579, 2600);
   (2602, 2608); (2610, 2611); (2613, 2614); (2616, 2617); (2649, 2652); (2654, 2654);
   (2662, 2671); (2674, 2676); (2693, 2701); (2703, 2705); (2707, 2728); (2730, 2736);
   (2738, 2739); (2741, 2745); (2749, 2749); (2768, 2768); (2784, 2785); (2790, 2799);
   (2809, 2809); (2821, 2828); (2831, 2832); (2835, 2856); (2858, 2864); (2866, 2867);
   (2869, 2873); (2877, 2877); (2908, 2909); (2911, 2913); (2918, 2927); (2929, 2935);
   (2947, 2947); (2949, 2954); (2958, 2960); (2962, 2965); (2969, 2970); (2972, 2972);
   (2974, 2975); (2979, 2980); (2984, 2986); (2990, 3001); (3024, 3024); (3046, 3058);
   (3077, 3084); (3086, 3088); (3090, 3112); (3114, 3129); (3133, 3133); (3160, 3162);
   (3165, 3165); (3168, 3169); (3174, 3183); (3192, 3198); (3200, 3200); (3205, 3212);
   (3214, 3216); (3218, 3240); (3242, 3251); (3253, 3257); (3261, 3261); (3293, 3294);
   (3296, 3297); (3302, 3311); (3313, 3314); (3332, 3340); (3342, 3344); (3346, 3386);
   (3389, 3389); (3406, 3406); (3412, 3414); (3416, 3425); (3430, 3448); (3450, 3455);
   (3461, 3478); (3482, 3505); (3507, 3515); (3517, 3517); (3520, 3526); (3558, 3567);
   (3585, 3632); (3634, 3635); (3648, 3654); (3664, 3673); (3713, 3714); (3716, 3716);
   (3718, 3722); (3724, 3747); (3749, 3749); (3751, 3760); (3762, 3763); (3773, 3773);
   (3776, 3780); (3782, 3782); (3792, 3801); (3804, 3807); (3840, 3840); (3872, 3891);
   (3904, 3911); (3913, 3948); (3976, 3980); (4096, 4138); (4159, 4169); (4176, 4181);
   (4186, 4189); (4193, 4193); (4197, 4198); (4206, 4208); (4213, 4225); (4238, 4238);
   (4240, 4249); (4256, 4293); (4295, 4295); (4301, 4301); (4304, 4346); (4348, 4680);
   (4682, 4685); (4688, 4694); (4696, 4696); (4698, 4701); (4704, 4744); (4746, 4749);
   (4752, 4784); (4786, 4789); (4792, 4798); (4800, 4800); (4802, 4805); (4808, 4822);
   (4824, 4880); (4882, 4885); (4888, 4954); (4969, 4988); (4992, 5007); (5024, 5109);
   (5112, 5117); (5121, 5740); (5743, 5759); (5761, 5786); (5792, 5866); (5870, 5880);
   (5888, 5905); (5919, 5937); (5952, 5969); (5984, 5996); (5998, 6000); (6016, 6067);
   (6103, 6103); (6108, 6108); (6112, 6121); (6128, 6137); (6160, 6169); (6176, 6264);
   (6272, 6276); (6279, 6312); (6314, 6314); (6320, 6389); (6400, 6430); (6470, 6509);
   (6512, 6516); (6528, 6571); (6576, 6601); (6608, 6618); (6656, 6678); (6688, 6740);
   (6784, 6793); (6800, 6809); (6823, 6823); (6917, 6963); (6981, 6988); (6992, 7001);
   (7043, 7072); (7086, 7141); (7168, 7203); (7232, 7241); (7245, 7293); (7296, 7304);
   (7312, 7354); (7357, 7359); (7401, 7404); (7406, 7411); (7413, 7414); (7418, 7418);
   (7424, 7615); (7680, 7957); (7960, 7965); (7968, 8005); (8008, 8013); (8016, 8023);
   (8025, 8025); (8027, 8027); (8029, 8029); (8031, 8061); (8064, 8116); (8118, 8124);
   (8126, 8126); (8130, 8132); (8134, 8140); (8144, 8147); (8150, 8155); (8160, 8172);
   (8178, 8180); (8182, 8188); (8304, 8305); (8308, 8313); (8319, 8329); (8336, 8348);
   (8450, 8450); (8455, 8455); (8458, 8467); (8469, 8469); (8473, 8477); (8484, 8484);
   (8486, 8486); (8488, 8488); (8490, 8493); (8495, 8505); (8508, 8511); (8517, 8521);
   (8526, 8526); (8528, 8585); (9312, 9371); (9450, 9471); (10102, 10131); (11264, 11492);
   (11499, 11502); (11506, 11507); (11517, 11517); (11520, 11557); (11559, 11559); (11565, 11565);
   (11568, 11623); (11631, 11631); (11648, 11670); (11680, 11686); (11688, 11694); (11696, 11702);
   (11704, 11710); (11712, 11718); (11720, 11726); (11728, 11734); (11736, 11742); (11823, 11823);
   (12293, 12295); (12321, 12329); (12337, 12341); (12344, 12348); (12353, 12438); (12445, 12447);
   (12449, 12538); (12540, 12543); (12549, 12591); (12593, 12686); (12690, 12693); (12704, 12735);
   (12784, 12799); (12832, 12841); (12872, 12879); (12881, 12895); (12928, 12937); (12977, 12991);
   (13312, 19903); (19968, 42124); (42192, 42237); (42240, 42508); (42512, 42539); (42560, 42606);
   (42623, 42653); (42656, 42735); (42775, 42783); (42786, 42888); (42891, 42954); (42960, 42961);
   (42963, 42963); (42965, 42969); (42994, 43009); (43011, 43013); (43015, 43018); (43020, 43042);
   (43056, 43061); (43072, 43123); (43138, 43187); (43216, 43225); (43250, 43255); (43259, 43259);
   (43261, 43262); (43264, 43301); (43312, 43334); (43360, 43388); (43396, 43442); (43471, 43481);
   (43488, 43492); (43494, 43518); (43520, 43560); (43584, 43586); (43588, 43595); (43600, 43609);
   (43616, 43638); (43642, 43642); (43646, 43695); (43697, 43697); (43701, 43702); (43705, 43709);
   (43712, 43712); (43714, 43714); (43739, 43741); (43744, 43754); (43762, 43764); (43777, 43782);
   (43785, 43790); (43793, 43798); (43808, 43814); (43816, 43822); (43824, 43866); (43868, 43881);
   (43888, 44002); (44016, 44025); (44032, 55203); (55216, 55238); (55243, 55291); (63744, 64109);
   (64112, 64217); (64256, 64262); (64275, 64279); (64285, 64285); (64287, 64296); (64298, 64310);
   (64312, 64316); (64318, 64318); (64320, 64321); (64323, 64324); (64326, 64433); (64467, 64829);
   (64848, 64911); (64914, 64967); (65008, 65019); (65136, 65140); (65142, 65276); (65296, 65305);
   (65313, 65338); (65345, 65370); (65382, 65470); (65474, 65479); (65482, 65487); (65490, 65495);
   (65498, 65500); (65536, 65547); (65549, 65574); (65576, 65594); (65596, 65597); (65599, 65613);
   (65616, 65629); (65664, 65786); (65799, 65843); (65856, 65912); (65930, 65931); (66176, 66204);
   (66208, 66256); (66273, 66299); (66304, 66339); (66349, 66378); (66384, 66421); (66432, 66461);
   (66464, 66499); (66504, 66511); (66513, 66517); (66560, 66717); (66720, 66729); (66736, 66771);
   (66776, 66811); (66816, 66855); (66864, 66915); (66928, 66938); (66940, 66954); (66956, 66962);
   (66964, 66965); (66967, 66977); (66979, 66993); (66995, 67001); (67003, 67004); (67072, 67382);
   (67392, 67413); (67424, 67431); (67456, 67461); (67463, 67504); (67506, 67514); (67584, 67589);
   (67592, 67592); (67594, 67637); (67639, 67640); (67644, 67644); (67647, 67669); (67672, 67702);
   (67705, 67742); (67751, 67759); (67808, 67826); (67828, 67829); (67835, 67867); (67872, 67897);
   (67968, 68023); (68028, 68047); (68050, 68096); (68112, 68115); (68117, 68119); (68121, 68149);
   (68160, 68168); (68192, 68222); (68224, 68255); (68288, 68295); (68297, 68324); (68331, 68335);
   (68352, 68405); (68416, 68437); (68440, 68466); (68472, 68497); (68521, 68527); (68608, 68680);
   (68736, 68786); (68800, 68850); (68858, 68899); (68912, 68921); (69216, 69246); (69248, 69289);
   (69296, 69297); (69376, 69415); (69424, 69445); (69457, 69460); (69488, 69505); (69552, 69579);
   (69600, 69622); (69635, 69687); (69714, 69743); (69745, 69746); (69749, 69749); (69763, 69807);
   (69840, 69864); (69872, 69881); (69891, 69926); (69942, 69951); (69956, 69956); (69959, 69959);
   (69968, 70002); (70006, 70006); (70019, 70066); (70081, 70084); (70096, 70106); (70108, 70108);
   (70113, 70132); (70144, 70161); (70163, 70187); (70272, 70278); (70280, 70280); (70282, 70285);
   (70287, 70301); (70303, 70312); (70320, 70366); (70384, 70393); (70405, 70412); (70415, 70416);
   (70419, 70440); (70442, 70448); (70450, 70451); (70453, 70457); (70461, 70461); (70480, 70480);
   (70493, 70497); (70656, 70708); (70727, 70730); (70736, 70745); (70751, 70753); (70784, 70831);
   (70852, 70853); (70855, 70855); (70864, 70873); (71040, 71086); (71128, 71131); (71168, 71215);
   (71236, 71236); (71248, 71257); (71296, 71338); (71352, 71352); (71360, 71369); (71424, 71450);
   (71472, 71483); (71488, 71494); (71680, 71723); (71840, 71922); (71935, 71942); (71945, 71945);
   (71948, 71955); (71957, 71958); (71960, 71983); (71999, 71999); (72001, 72001); (72016, 72025);
   (72096, 72103); (72106, 72144); (72161, 72161); (72163, 72163); (72192, 72192); (72203, 72242);
   (72250, 72250); (72272, 72272); (72284, 72329); (72349, 72349); (72368, 72440); (72704, 72712);
   (72714, 72750); (72768, 72768); (72784, 72812); (72818, 72847); (72960, 72966); (72968, 72969);
   (72971, 73008); (73030, 73030); (73040, 73049); (73056, 73061); (73063, 73064); (73066, 73097);
   (73112, 73112); (73120, 73129); (73440, 73458); (73648, 73648); (73664, 73684); (73728, 74649);
   (74752, 74862); (74880, 75075); (77712, 77808); (77824, 78894); (82944, 83526); (92160, 92728);
   (92736, 92766); (92768, 92777); (92784, 92862); (92864, 92873); (92880, 92909); (92928, 92975);
   (92992, 92995); (93008, 93017); (93019, 93025); (93027, 93047); (93053, 93071); (93760, 93846);
   (93952, 94026); (94032, 94032); (94099, 94111); (94176, 94177); (94179, 94179); (94208, 100343);
   (100352, 101589); (101632, 101640); (110576, 110579); (110581, 110587); (110589, 110590); (110592, 110882);
   (110928, 110930); (110948, 110951); (110960, 111355); (113664, 113770); (113776, 113788); (113792, 113800);
   (113808, 113817); (119520, 119539); (119648, 119672); (119808, 119892); (119894, 119964); (119966, 119967);
   (119970, 119970); (119973, 119974); (119977, 119980); (119982, 119993); (119995, 119995); (119997, 120003);
   (120005, 120069); (120071, 120074); (120077, 120084); (120086, 120092); (120094, 120121); (120123, 120126);
   (120128, 120132); (120134, 120134); (120138, 120144); (120146, 120485); (120488, 120512); (120514, 120538);
   (120540, 120570); (120572, 120596); (120598, 120628); (120630, 120654); (120656, 120686); (120688, 120712);
   (120714, 120744); (120746, 120770); (120772, 120779); (120782, 120831); (122624, 122654); (123136, 123180);
   (123191, 123197); (123200, 123209); (123214, 123214); (123536, 123565); (123584, 123627); (123632, 123641);
   (124896, 124902); (124904, 124907); (124909, 124910); (124912, 124926); (124928, 125124); (125127, 125135);
   (125184, 125251); (125259, 125259); (125264, 125273); (126065, 126123); (126125, 126127); (126129, 126132);
   (126209, 126253); (126255, 126269); (126464, 126467); (126469, 126495); (126497, 126498); (126500, 126500);
   (126503, 126503); (126505, 126514); (126516, 126519); (126521, 126521); (126523, 126523); (126530, 126530);
   (126535, 126535); (126537, 126537); (126539, 126539); (126541, 126543); (126545, 126546); (126548, 126548);
   (126551, 126551); (126553, 126553); (126555, 126555); (126557, 126557); (126559, 126559); (126561, 126562);
   (126564, 126564); (126567, 126570); (126572, 126578); (126580, 126583); (126585, 126588); (126590, 126590);
   (126592, 126601); (126603, 126619); (126625, 126627); (126629, 126633); (126635, 126651); (127232, 127244);
   (130032, 130041); (131072, 173791); (173824, 177976); (177984, 178205); (178208, 183969); (183984, 191456);
   (194560, 195101); (196608, 201546)].

(** The property Cased. *)
Definition cased_table : list (N * N) :=
  [(65, 90); (97, 122); (170, 170); (181, 181); (186, 186); (192, 214);
   (216, 246); (248, 442); (444, 447); (452, 659); (661, 696); (704, 705);
   (736, 740); (837, 837); (880, 883); (886, 887); (890, 893); (895, 895);
   (902, 902); (904, 906); (908, 908); (910, 929); (931, 1013); (1015, 1153);
   (1162, 1327); (1329, 1366); (1376, 1416); (4256, 4293); (4295, 4295); (4301, 4301);
   (4304, 4346); (4349, 4351); (5024, 5109); (5112, 5117); (7296, 7304); (7312, 7354);
   (7357, 7359); (7424, 7615); (7680, 7957); (7960, 7965); (7968, 8005); (8008, 8013);
   (8016, 8023); (8025, 8025); (8027, 8027); (8029, 8029); (8031, 8061); (8064, 8116);
   (8118, 8124); (8126, 8126); (8130, 8132); (8134, 8140); (8144, 8147); (8150, 8155);
   (8160, 8172); (8178, 8180); (8182, 8188); (8305, 8305); (8319, 8319); (8336, 8348);
   (8450, 8450); (8455, 8455); (8458, 8467); (8469, 8469); (8473, 8477); (8484, 8484);
   (8486, 8486); (8488, 8488); (8490, 8493); (8495, 8500); (8505, 8505); (8508, 8511);
   (8517, 8521); (8526, 8526); (8544, 8575); (8579, 8580); (9398, 9449); (11264, 11492);
   (11499, 11502); (11506, 11507); (11520, 11557); (11559, 11559); (11565, 11565); (42560, 42605);
   (42624, 42653); (42786, 42887); (42891, 42894); (42896, 42954); (42960, 42961); (42963, 42963);
   (42965, 42969); (42997, 42998); (43000, 43002); (43824, 43866); (43868, 43880); (43888, 43967);
   (64256, 64262); (64275, 64279); (65313, 65338); (65345, 65370); (66560, 66639); (66736, 66771);
   (66776, 66811); (66928, 66938); (66940, 66954); (66956, 66962); (66964, 66965); (66967, 66977);
   (66979, 66993); (66995, 67001); (67003, 67004); (67456, 67456); (67459, 67461); (67463, 67504);
   (67506, 67514); (68736, 68786); (68800, 68850); (71840, 71903); (93760, 93823); (119808, 119892);
   (119894, 119964); (119966, 119967); (119970, 119970); (119973, 119974); (119977, 119980); (119982, 119993);
   (119995, 119995); (119997, 120003); (120005, 120069); (120071, 120074); (120077, 120084); (120086, 120092);
   (120094, 120121); (120123, 120126); (120128, 120132); (120134, 120134); (120138, 120144); (120146, 120485);
   (120488, 120512); (120514, 120538); (120540, 120570); (120572, 120596); (120598, 120628); (120630, 120654);
   (120656, 120686); (120688, 120712); (120714, 120744); (120746, 120770); (120772, 120779); (122624, 122633);
   (122635, 122654); (125184, 125251); (127280, 127305); (127312, 127337); (127344, 127369)].

(** The property Case_Ignorable. *)
Definition case_ignorable_table : list (N * N) :=
  [(39, 39); (46, 46); (58, 58); (94, 94); (96, 96); (168, 168);
   (173, 173); (175, 175); (180, 180); (183, 184); (688, 879); (884, 885);
   (890, 890); (900, 901); (903, 903); (1155, 1161); (1369, 1369); (1375, 1375);
   (1425, 1469); (1471, 1471); (1473, 1474); (1476, 1477); (1479, 1479); (1524, 1524);
   (1536, 1541); (1552, 1562); (1564, 1564); (1600, 1600); (1611, 1631); (1648, 1648);
   (1750, 1757); (1759, 1768); (1770, 1773); (1807, 1807); (1809, 1809); (1840, 1866);
   (1958, 1968); (2027, 2037); (2042, 2042); (2045, 2045); (2070, 2093); (2137, 2139);
   (2184, 2184); (2192, 2193); (2200, 2207); (2249, 2306); (2362, 2362); (2364, 2364);
   (2369, 2376); (2381, 2381); (2385, 2391); (2402, 2403); (2417, 2417); (2433, 2433);
   (2492, 2492); (2497, 2500); (2509, 2509); (2530, 2531); (2558, 2558); (2561, 2562);
   (2620, 2620); (2625, 2626); (2631, 2632); (2635, 2637); (2641, 2641); (2672, 2673);
   (2677, 2677); (2689, 2690); (2748, 2748); (2753, 2757); (2759, 2760); (2765, 2765);
   (2786, 2787); (2810, 2815); (2817, 2817); (2876, 2876); (2879, 2879); (2881, 2884);
   (2893, 2893); (2901, 2902); (2914, 2915); (2946, 2946); (3008, 3008); (3021, 3021);
   (3072, 3072); (3076, 3076); (3132, 3132); (3134, 3136); (3142, 3144); (3146, 3149);
   (3157, 3158); (3170, 3171); (3201, 3201); (3260, 3260); (3263, 3263); (3270, 3270);
   (3276, 3277); (3298, 3299); (3328, 3329); (3387, 3388); (3393, 3396); (3405, 3405);
   (3426, 3427); (3457, 3457); (3530, 3530); (3538, 3540); (3542, 3542); (3633, 3633);
   (3636, 3642); (3654, 3662); (3761, 3761); (3764, 3772); (3782, 3782); (3784, 3789);
   (3864, 3865); (3893, 3893); (3895, 3895); (3897, 3897); (3953, 3966); (3968, 3972);
   (3974, 3975); (3981, 3991); (3993, 4028); (4038, 4038); (4141, 4144); (4146, 4151);
   (4153, 4154); (4157, 4158); (4184, 4185); (4190, 4192); (4209, 4212); (4226, 4226);
   (4229, 4230); (4237, 4237); (4253, 4253); (4348, 4348); (4957, 4959); (5906, 5908);
   (5938, 5939); (5970, 5971); (6002, 6003); (6068, 6069); (6071, 6077); (6086, 6086);
   (6089, 6099); (6103, 6103); (6109, 6109); (6155, 6159); (6211, 6211); (6277, 6278);
   (6313, 6313); (6432, 6434); (6439, 6440); (6450, 6450); (6457, 6459); (6679, 6680);
   (6683, 6683); (6742, 6742); (6744, 6750); (6752, 6752); (6754, 6754); (6757, 6764);
   (6771, 6780); (6783, 6783); (6823, 6823); (6832, 6862); (6912, 6915); (6964, 6964);
   (6966, 6970); (6972, 6972); (6978, 6978); (7019, 7027); (7040, 7041); (7074, 7077);
   (7080, 7081); (7083, 7085); (7142, 7142); (7144, 7145); (7149, 7149); (7151, 7153);
   (7212, 7219); (7222, 7223); (7288, 7293); (7376, 7378); (7380, 7392); (7394, 7400);
   (7405, 7405); (7412, 7412); (7416, 7417); (7468, 7530); (7544, 7544); (7579, 7679);
   (8125, 8125); (8127, 8129); (8141, 8143); (8157, 8159); (8173, 8175); (8189, 8190);
   (8203, 8207); (8216, 8217); (8228, 8228); (8231, 8231); (8234, 8238); (8288, 8292);
   (8294, 8303); (8305, 8305); (8319, 8319); (8336, 8348); (8400, 8432); (11388, 11389);
   (11503, 11505); (11631, 11631); (11647, 11647); (11744, 11775); (11823, 11823); (12293, 12293);
   (12330, 12333); (12337, 12341); (12347, 12347); (12441, 12446); (12540, 12542); (40981, 40981);
   (42232, 42237); (42508, 42508); (42607, 42610); (42612, 42621); (42623, 42623); (42652, 42655);
   (42736, 42737); (42752, 42785); (42864, 42864); (42888, 42890); (42994, 42996); (43000, 43001);
   (43010, 43010); (43014, 43014); (43019, 43019); (43045, 43046); (43052, 43052); (43204, 43205);
   (43232, 43249); (43263, 43263); (43302, 43309); (43335, 43345); (43392, 43394); (43443, 43443);
   (43446, 43449); (43452, 43453); (43471, 43471); (43493, 43494); (43561, 43566); (43569, 43570);
   (43573, 43574); (43587, 43587); (43596, 43596); (43632, 43632); (43644, 43644); (43696, 43696);
   (43698, 43700); (43703, 43704); (43710, 43711); (43713, 43713); (43741, 43741); (43756, 43757);
   (43763, 43764); (43766, 43766); (43867, 43871); (43881, 43883); (44005, 44005); (44008, 44008);
   (44013, 44013); (64286, 64286); (64434, 64450); (65024, 65039); (65043, 65043); (65056, 65071);
   (65106, 65106); (65109, 65109); (65279, 65279); (65287, 65287); (65294, 65294); (65306, 65306);
   (65342, 65342); (65344, 65344); (65392, 65392); (65438, 65439); (65507, 65507); (65529, 65531);
   (66045, 66045); (66272, 66272); (66422, 66426); (67456, 67461); (67463, 67504); (67506, 67514);
   (68097, 68099); (68101, 68102); (68108, 68111); (68152, 68154); (68159, 68159); (68325, 68326);
   (68900, 68903); (69291, 69292); (69446, 69456); (69506, 69509); (69633, 69633); (69688, 69702);
   (69744, 69744); (69747, 69748); (69759, 69761); (69811, 69814); (69817, 69818); (69821, 69821);
   (69826, 69826); (69837, 69837); (69888, 69890); (69927, 69931); (69933, 69940); (70003, 70003);
   (70016, 70017); (70070, 70078); (70089, 70092); (70095, 70095); (70191, 70193); (70196, 70196);
   (70198, 70199); (70206, 70206); (70367, 70367); (70371, 70378); (70400, 70401); (70459, 70460);
   (70464, 70464); (70502, 70508); (70512, 70516); (70712, 70719); (70722, 70724); (70726, 70726);
   (70750, 70750); (70835, 70840); (70842, 70842); (70847, 70848); (70850, 70851); (71090, 71093);
   (71100, 71101); (71103, 71104); (71132, 71133); (71219, 71226); (71229, 71229); (71231, 71232);
   (71339, 71339); (71341, 71341); (71344, 71349); (71351, 71351); (71453, 71455); (71458, 71461);
   (71463, 71467); (71727, 71735); (71737, 71738); (71995, 71996); (71998, 71998); (72003, 72003);
   (72148, 72151); (72154, 72155); (72160, 72160); (72193, 72202); (72243, 72248); (72251, 72254);
   (72263, 72263); (72273, 72278); (72281, 72283); (72330, 72342); (72344, 72345); (72752, 72758);
   (72760, 72765); (72767, 72767); (72850, 72871); (72874, 72880); (72882, 72883); (72885, 72886);
   (73009, 73014); (73018, 73018); (73020, 73021); (73023, 73029); (73031, 73031); (73104, 73105);
   (73109, 73109); (73111, 73111); (73459, 73460); (78896, 78904); (92912, 92916); (92976, 92982);
   (92992, 92995); (94031, 94031); (94095, 94111); (94176, 94177); (94179, 94180); (110576, 110579);
   (110581, 110587); (110589, 110590); (113821, 113822); (113824, 113827); (118528, 118573); (118576, 118598);
   (119143, 119145); (119155, 119170); (119173, 119179); (119210, 119213); (119362, 119364); (121344, 121398);
   (121403, 121452); (121461, 121461); (121476, 121476); (121499, 121503); (121505, 121519); (122880, 122886);
   (122888, 122904); (122907, 122913); (122915, 122916); (122918, 122922); (123184, 123197); (123566, 123566);
   (123628, 123631); (125136, 125142); (125252, 125259); (127995, 127999); (917505, 917505); (917536, 917631);
   (917760, 917999)].

(** The simple lower-case mapping by runs [(first, last, step, target)]:
    the code points [first], [first + step], ... up to [last] map to
    [target], [target + step], ... *)
Definition lower_table : list (N * N * N * N) :=
  [(65, 90, 1, 97); (192, 214, 1, 224); (216, 222, 1, 248); (256, 302, 2, 257);
   (304, 304, 1, 105); (306, 310, 2, 307); (313, 327, 2, 314); (330, 374, 2, 331);
   (376, 376, 1, 255); (377, 381, 2, 378); (385, 385, 1, 595); (386, 388, 2, 387);
   (390, 390, 1, 596); (391, 391, 1, 392); (393, 394, 1, 598); (395, 395, 1, 396);
   (398, 398, 1, 477); (399, 399, 1, 601); (400, 400, 1, 603); (401, 401, 1, 402);
   (403, 403, 1, 608); (404, 404, 1, 611); (406, 406, 1, 617); (407, 407, 1, 616);
   (408, 408, 1, 409); (412, 412, 1, 623); (413, 413, 1, 626); (415, 415, 1, 629);
   (416, 420, 2, 417); (422, 422, 1, 640); (423, 423, 1, 424); (425, 425, 1, 643);
   (428, 428, 1, 429); (430, 430, 1, 648); (431, 431, 1, 432); (433, 434, 1, 650);
   (435, 437, 2, 436); (439, 439, 1, 658); (440, 440, 1, 441); (444, 444, 1, 445);
   (452, 452, 1, 454); (453, 453, 1, 454); (455, 455, 1, 457); (456, 456, 1, 457);
   (458, 458, 1, 460); (459, 475, 2, 460); (478, 494, 2, 479); (497, 497, 1, 499);
   (498, 500, 2, 499); (502, 502, 1, 405); (503, 503, 1, 447); (504, 542, 2, 505);
   (544, 544, 1, 414); (546, 562, 2, 547); (570, 570, 1, 11365); (571, 571, 1, 572);
   (573, 573, 1, 410); (574, 574, 1, 11366); (577, 577, 1, 578); (579, 579, 1, 384);
   (580, 580, 1, 649); (581, 581, 1, 652); (582, 590, 2, 583); (880, 882, 2, 881);
   (886, 886, 1, 887); (895, 895, 1, 1011); (902, 902, 1, 940); (904, 906, 1, 941);
   (908, 908, 1, 972); (910, 911, 1, 973); (913, 929, 1, 945); (931, 939, 1, 963);
   (975, 975, 1, 983); (984, 1006, 2, 985); (1012, 1012, 1, 952); (1015, 1015, 1, 1016);
   (1017, 1017, 1, 1010); (1018, 1018, 1, 1019); (1021, 1023, 1, 891); (1024, 1039, 1, 1104);
   (1040, 1071, 1, 1072); (1120, 1152, 2, 1121); (1162, 1214, 2, 1163); (1216, 1216, 1, 1231);
   (1217, 1229, 2, 1218); (1232, 1326, 2, 1233); (1329, 1366, 1, 1377); (4256, 4293, 1, 11520);
   (4295, 4295, 1, 11559); (4301, 4301, 1, 11565); (5024, 5103, 1, 43888); (5104, 5109, 1, 5112);
   (7312, 7354, 1, 4304); (7357, 7359, 1, 4349); (7680, 7828, 2, 7681); (7838, 7838, 1, 223);
   (7840, 7934, 2, 7841); (7944, 7951, 1, 7936); (7960, 7965, 1, 7952); (7976, 7983, 1, 7968);
   (7992, 7999, 1, 7984); (8008, 8013, 1, 8000); (8025, 8031, 2, 8017); (8040, 8047, 1, 8032);
   (8072, 8079, 1, 8064); (8088, 8095, 1, 8080); (8104, 8111, 1, 8096); (8120, 8121, 1, 8112);
   (8122, 8123, 1, 8048); (8124, 8124, 1, 8115); (8136, 8139, 1, 8050); (8140, 8140, 1, 8131);
   (8152, 8153, 1, 8144); (8154, 8155, 1, 8054); (8168, 8169, 1, 8160); (8170, 8171, 1, 8058);
   (8172, 8172, 1, 8165); (8184, 8185, 1, 8056); (8186, 8187, 1, 8060); (8188, 8188, 1, 8179);
   (8486, 8486, 1, 969); (8490, 8490, 1, 107); (8491, 8491, 1, 229); (8498, 8498, 1, 8526);
   (8544, 8559, 1, 8560); (8579, 8579, 1, 8580); (9398, 9423, 1, 9424); (11264, 11311, 1, 11312);
   (11360, 11360, 1, 11361); (11362, 11362, 1, 619); (11363, 11363, 1, 7549); (11364, 11364, 1, 637);
   (11367, 11371, 2, 11368); (11373, 11373, 1, 593); (11374, 11374, 1, 625); (11375, 11375, 1, 592);
   (11376, 11376, 1, 594); (11378, 11378, 1, 11379); (11381, 11381, 1, 11382); (11390, 11391, 1, 575);
   (11392, 11490, 2, 11393); (11499, 11501, 2, 11500); (11506, 11506, 1, 11507); (42560, 42604, 2, 42561);
   (42624, 42650, 2, 42625); (42786, 42798, 2, 42787); (42802, 42862, 2, 42803); (42873, 42875, 2, 42874);
   (42877, 42877, 1, 7545); (42878, 42886, 2, 42879); (42891, 42891, 1, 42892); (42893, 42893, 1, 613);
   (42896, 42898, 2, 42897); (42902, 42920, 2, 42903); (42922, 42922, 1, 614); (42923, 42923, 1, 604);
   (42924, 42924, 1, 609); (42925, 42925, 1, 620); (42926, 42926, 1, 618); (42928, 42928, 1, 670);
   (42929, 42929, 1, 647); (42930, 42930, 1, 669); (42931, 42931, 1, 43859); (42932, 42946, 2, 42933);
   (42948, 42948, 1, 42900); (42949, 42949, 1, 642); (42950, 42950, 1, 7566); (42951, 42953, 2, 42952);
   (42960, 42960, 1, 42961); (42966, 42968, 2, 42967); (42997, 42997, 1, 42998); (65313, 65338, 1, 65345);
   (66560, 66599, 1, 66600); (66736, 66771, 1, 66776); (66928, 66938, 1, 66967); (66940, 66954, 1, 66979);
   (66956, 66962, 1, 66995); (66964, 66965, 1, 67003); (68736, 68786, 1, 68800); (71840, 71871, 1, 71872);
   (93760, 93791, 1, 93792); (125184, 125217, 1, 125218)].

(** [re._casefix._EXTRA_CASES] *)
Definition casefix_table : list (N * list N) :=
  [(105, [305]); (115, [383]); (181, [956]); (305, [105]);
   (383, [115]); (837, [953; 8126]); (912, [8147]); (944, [8163]);
   (946, [976]); (949, [1013]); (952, [977]); (953, [837; 8126]);
   (954, [1008]); (956, [181]); (960, [982]); (961, [1009]);
   (962, [963]); (963, [962]); (966, [981]); (976, [946]);
   (977, [952]); (981, [966]); (982, [960]); (1008, [954]);
   (1009, [961]); (1013, [949]); (1074, [7296]); (1076, [7297]);
   (1086, [7298]); (1089, [7299]); (1090, [7300; 7301]); (1098, [7302]);
   (1123, [7303]); (7296, [1074]); (7297, [1076]); (7298, [1086]);
   (7299, [1089]); (7300, [1090; 7301]); (7301, [1090; 7300]); (7302, [1098]);
   (7303, [1123]); (7304, [42571]); (7777, [7835]); (7835, [7777]);
   (8126, [837; 953]); (8147, [912]); (8163, [944]); (42571, [7304]);
   (64261, [64262]); (64262, [64261])].

(** The simple lower-case mapping (one code point to one code point). *)
Definition tolower (c : N) : N :=
  match List.find (fun '(first, last, step, _) =>
                     between first last c && ((c - first) mod step =? 0))
                  lower_table with
  | Some (first, _, _, target) => target + (c - first)
  | None => c
  end.

Definition cased (c : N) : bool := in_ranges cased_table c.
Definition case_ignorable (c : N) : bool := in_ranges case_ignorable_table c.

(** The full mapping differs from [tolower] at U+0130, which becomes two
    code points, and at the capital sigma, which depends on its context. *)
Definition lower_cp (c : N) : list N :=
  if c =? 304 then [105; 775] else [tolower c].

(** Whether a cased letter follows, case-ignorable code points apart. *)
Fixpoint cased_ahead (s : str) : bool :=
  match s with
  | [] => false
  | c :: s' => if case_ignorable c then cased_ahead s' else cased c
  end.

(** [str.lower] from a position on; [after_cased] tells whether a cased
    letter precedes it, case-ignorable code points apart.  A capital sigma
    (931) becomes the final sigma (962) after a cased letter when no cased
    letter follows, and the small sigma (963) otherwise. *)
Fixpoint lower_from (after_cased : bool) (s : str) : str :=
  match s with
  | [] => []
  | c :: s' =>
      (if c =? 931
       then [if after_cased && negb (cased_ahead s') then 962 else 963]
       else lower_cp c)
      ++ lower_from (if case_ignorable c then after_cased else cased c) s'
  end.

(** [str.lower] *)
Definition lower (s : str) : str := lower_from false s.

(** [\w] on a [str] pattern: alphanumeric or underscore. *)
Definition isword (c : N) : bool := in_ranges word_table c.

Fixpoint lstrip (s : str) : str :=
  match s with
  | c :: s' => if isspace c then lstrip s' else s
  | [] => []
  end.

Definition rstrip (s : str) : str := rev (lstrip (rev s)).

(** [str.strip()] *)
Definition strip (s : str) : str := rstrip (lstrip s).

End Unicode.

(** ** The fragment of Python's [re] the patterns are written in *)

Module Re.

Inductive item :=
| IChr (c : N)
| IRange (lo hi : N).

Inductive regex :=
| Bos                              (* ^ *)
| Eos                              (* $ *)
| WordB                            (* \b *)
| Lit (c : N)
| Cls (items : list item)          (* [...] *)
| Space                            (* \s *)
| Seq (r1 r2 : regex)
| Alt (r1 r2 : regex)              (* r1|r2 *)
| Opt (r : regex)                  (* r? *)
| Plus (r : regex)                 (* r+ *)
| Rep (lo hi : nat) (r : regex)    (* r{lo,hi} *)
| NotAhead (r : regex).            (* (?!r) *)

(** The lower-case letters that [re.IGNORECASE] identifies although
    neither is the lower case of the other. *)
Definition fixes (c : N) : list N :=
  match List.find (fun e => e.1 =? c) Unicode.casefix_table with
  | Some e => e.2
  | None => []
  end.

Definition chr_match (ic : bool) (c x : N) : bool :=
  if ic then
    let lx := Unicode.tolower x in
    let lc := Unicode.tolower c in
    (lx =? lc) || existsb (N.eqb lx) (fixes lc)
  else x =? c.

Definition range (lo hi : N) : list N :=
  map (fun i => lo + N.of_nat i) (seq 0 (N.to_nat (hi + 1 - lo))).

Definition item_match (ic : bool) (x : N) (it : item) : bool :=
  match it with
  | IChr c => chr_match ic c x
  | IRange lo hi =>
      if ic then existsb (fun c => chr_match true c x) (range lo hi)
      else Unicode.between lo hi x
  end.

Definition isword_opt (c : option N) : bool :=
  match c with Some c => Unicode.isword c | None => false end.

(** [accept ic r prev s k]: some match of [r] at the position whose
    previous character is [prev] and whose rest is [s] leaves a position
    that [k] accepts.  The matcher answers whether a match exists, which is
    all the program asks of [re.match] and [re.search]. *)
Fixpoint accept (ic : bool) (r : regex) (prev : option N) (s : str)
    (k : option N -> str -> bool) {struct r} : bool :=
  match r with
  | Bos => match prev with None => k prev s | Some _ => false end
  | Eos => match s with [] => k prev s | [10] => k prev s | _ => false end
  | WordB =>
      if xorb (isword_opt prev) (isword_opt (head s)) then k prev s
      else false
  | Lit c =>
      match s with
      | x :: s' => if chr_match ic c x then k (Some x) s' else false
      | [] => false
      end
  | Cls items =>
      match s with
      | x :: s' => if existsb (item_match ic x) items then k (Some x) s' else false
      | [] => false
      end
  | Space =>
      match s with
      | x :: s' => if Unicode.isspace x then k (Some x) s' else false
      | [] => false
      end
  | Seq r1 r2 => accept ic r1 prev s (fun p s' => accept ic r2 p s' k)
  | Alt r1 r2 => accept ic r1 prev s k || accept ic r2 prev s k
  | Opt r1 => accept ic r1 prev s k || k prev s
  | Plus r1 =>
      (fix loop (n : nat) (p : option N) (t : str) : bool :=
         match n with
         | O => false
         | S n' => accept ic r1 p t (fun p' t' => k p' t' || loop n' p' t')
         end) (S (length s)) prev s
  | Rep lo hi r1 =>
      (fix req (n : nat) (p : option N) (t : str) : bool :=
         match n with
         | S n' => accept ic r1 p t (req n')
         | O =>
             (fix more (m : nat) (p : option N) (t : str) : bool :=
                k p t ||
                match m with
                | O => false
                | S m' => accept ic r1 p t (more m')
                end) (hi - lo)%nat p t
         end) lo prev s
  | NotAhead r1 =>
      if accept ic r1 prev s (fun _ _ => true) then false else k prev s
  end.

(** A compiled pattern: the expression and whether [re.IGNORECASE] is set. *)
Record pattern := Pattern { expr : regex; ignorecase : bool }.

(** [pattern.match(s)]: a match starting at the first position. *)
Definition matches (p : pattern) (s : str) : bool :=
  accept (ignorecase p) (expr p) None s (fun _ _ => true).

(** [re.search(r, s)]: a match starting at some position. *)
Fixpoint search_from (ic : bool) (r : regex) (prev : option N) (s : str) : bool :=
  accept ic r prev s (fun _ _ => true) ||
  match s with
  | x :: s' => search_from ic r (Some x) s'
  | [] => false
  end.

Definition search (p : pattern) (s : str) : bool :=
  search_from (ignorecase p) (expr p) None s.

(** Pattern text: a sequence, a literal string, an alternative.  The empty
    sequence matches the empty string and the empty alternative nothing;
    the table uses neither. *)
Fixpoint seq_of (rs : list regex) : regex :=
  match rs with
  | [] => Rep 0 0 Bos
  | [r] => r
  | r :: rs' => Seq r (seq_of rs')
  end.

Definition lit (s : string) : regex := seq_of (map Lit (u s)).

Fixpoint alt_of (rs : list regex) : regex :=
  match rs with
  | [] => NotAhead (Rep 0 0 Bos)
  | [r] => r
  | r :: rs' => Alt r (alt_of rs')
  end.

Definition chars (s : string) : list item := map IChr (u s).

End Re.

(** ** Part 1 of the source: lines to tree *)

Local Open Scope string_scope.
Local Open Scope list_scope.

(** [REGEX_LEVEL_MAP], in the order of the source; a flag of 0 compiles the
    pattern without [re.IGNORECASE]. *)
Module Patterns.
Import Re.

Definition rng (a b : string) : item :=
  IRange (default 0%N (head (u a))) (default 0%N (head (u b))).
Definition ws : regex := Plus Space.                     (* \s+ *)
Definition digits : regex := Plus (Cls [rng "0" "9"]).   (* [0-9]+ *)
Definition delim : regex := Cls (chars ".)").            (* [\.\)] *)

(** ((?:[IVXLCDM]+)|(?:[0-9]{1,2})) *)
Definition roman_or_number : regex :=
  Alt (Plus (Cls (chars "IVXLCDM"))) (Rep 1 2 (Cls [rng "0" "9"])).

(** (thứ\s+)? *)
Definition thu_opt : regex := Opt (Seq (lit "thứ") ws).

Definition ordinals : list string :=
  ["nhất"; "một"; "hai"; "ba"; "bốn"; "năm"; "sáu"; "bảy"; "tám"; "chín";
   "mười"; "mười một"; "mười hai"; "mười ba"; "mười bốn"; "mười lăm";
   "mười sáu"; "mười bảy"; "mười tám"; "mười chín"; "hai mươi"; "ba mươi";
   "bốn mươi"; "năm mươi"; "sáu mươi"; "bảy mươi"; "tám mươi"; "chín mươi";
   "trăm"].

Definition phan : regex :=
  seq_of [Bos; lit "phần"; ws; thu_opt; roman_or_number; WordB].
Definition phan_thu : regex :=
  seq_of [Bos; lit "phần"; ws; lit "thứ"; ws; alt_of (map lit ordinals); WordB].
Definition chuong : regex :=
  seq_of [Bos; lit "chương"; ws; Plus (Cls (chars "IVXLCDM" ++ [rng "0" "9"]))].
Definition muc : regex :=
  seq_of [Bos; lit "mục"; ws; thu_opt; roman_or_number; WordB].
Definition tieu_muc : regex :=
  seq_of [Bos; seq_of [lit "tiểu"; ws; lit "mục"]; ws; thu_opt; roman_or_number; WordB].
Definition dieu : regex := seq_of [Bos; lit "điều"; ws; digits].
Definition khoan : regex := seq_of [Bos; lit "khoản"; ws; digits].
Definition tieu_khoan : regex := seq_of [Bos; lit "tiểu khoản"; ws; digits].
Definition upper_letter : regex :=
  seq_of [Bos; NotAhead (Seq (alt_of (map lit ["I"; "II"; "III"])) delim);
          Cls (rng "A" "Z" :: chars "ĐÊÔÔÁÀẢẠÃẦẤẬ"); delim].
Definition upper_roman : regex :=
  seq_of [Bos;
          alt_of (Rep 1 3 (Lit 73)
                  :: map lit ["IV"; "V"; "VI"; "VII"; "VIII"; "IX"; "X"]);
          delim].
Definition number : regex := seq_of [Bos; digits; delim].
Definition lower_letter : regex :=
  seq_of [Bos; NotAhead (Seq (alt_of (map lit ["ii"; "iii"])) delim);
          Cls (rng "a" "z" :: chars "đêôêáàảạãầấậ"); delim].
Definition lower_roman : regex :=
  seq_of [Bos;
          alt_of (map lit ["ii"; "iii"; "iv"; "v"; "vi"; "vii"; "viii"; "ix"; "x"]);
          delim].

Definition REGEX_LEVEL_MAP : list (regex * Z * bool) :=
  [(phan, 1%Z, true); (phan_thu, 1%Z, true); (chuong, 2%Z, true);
   (muc, 3%Z, true); (tieu_muc, 4%Z, true); (dieu, 5%Z, true);
   (khoan, 6%Z, true); (tieu_khoan, 7%Z, true);
   (upper_letter, 10%Z, false); (upper_roman, 11%Z, false);
   (number, 12%Z, true); (lower_letter, 13%Z, false);
   (lower_roman, 14%Z, false)].

Definition compiled_regex_levels : list (pattern * Z) :=
  map (fun '(r, level, flag) => (Pattern r flag, level)) REGEX_LEVEL_MAP.

(** ^(phụ lục), re.IGNORECASE *)
Definition appendix_regex : pattern :=
  Pattern (seq_of [Bos; lit "phụ lục"]) true.

Definition doc_keywords : list str :=
  map u ["bộ luật"; "chỉ thị"; "hiến pháp"; "lệnh"; "luật"; "nghị định";
         "nghị quyết liên tịch"; "nghị quyết"; "pháp lệnh"; "quyết định";
         "thông tư liên tịch"; "thông tư"].

End Patterns.

(** The first pattern of the table that matches decides the level (the inner
    [for] of the tree-building loop, up to its [break]). *)
Definition classify (line : str) : option Z :=
  snd <$> List.find (fun '(regex, _) => Re.matches regex line)
                    Patterns.compiled_regex_levels.

Fixpoint startswith (prefix s : str) : bool :=
  match prefix, s with
  | [], _ => true
  | p :: prefix', c :: s' => (p =? c)%N && startswith prefix' s'
  | _ :: _, [] => false
  end.

(** [needle in hay] on strings. *)
Fixpoint contains (needle hay : str) : bool :=
  startswith needle hay ||
  match hay with
  | _ :: hay' => contains needle hay'
  | [] => false
  end.

(** any(kw in line.lower() for kw in doc_keywords) *)
Definition has_keyword (line : str) : bool :=
  existsb (fun kw => contains kw (Unicode.lower line)) Patterns.doc_keywords.

(** The title scan: [rest] is what is left of [lines[:20]] from index [i]. *)
Fixpoint find_title_from (lines : list str) (i : nat) (rest : list str) : option str :=
  match rest with
  | [] => None
  | line :: rest' =>
      if has_keyword line then
        match lines !! S i with
        | Some next => Some (line ++ u " " ++ next)
        | None => Some line
        end
      else find_title_from lines (S i) rest'
  end.

Definition find_title (lines : list str) : option str :=
  find_title_from lines 0 (take 20 lines).

Definition is_appendix (line : str) : bool :=
  Re.matches Patterns.appendix_regex (Unicode.strip (Unicode.lower line)).

Fixpoint find_index {A} (p : A -> bool) (l : list A) : option nat :=
  match l with
  | [] => None
  | x :: l' => if p x then Some O else S <$> find_index p l'
  end.

Definition appendix_start_index (lines : list str) : option nat :=
  find_index is_appendix lines.

(** *** The tree under construction

    The nodes are Python dicts that the stack and the parents' [children]
    lists share; [heap] holds them in allocation order and a reference is an
    index into it.  The head of [stack] is the source's [stack[-1]]. *)

Record obj := Obj { o_level : Z; o_content : str; o_children : list nat }.

Record builder := Builder {
  heap : list obj;
  stack : list nat;
  non_saved_lines : list str
}.

Definition root : nat := 0.

Definition init : builder :=
  Builder [Obj (-1) [] []] [] [].

(** while stack and stack[-1]["level"] >= current_level: stack.pop()
    (a reference on the stack always resolves: [ok_stack] below). *)
Fixpoint pop_closed (h : list obj) (current_level : Z) (stack : list nat) : list nat :=
  match stack with
  | [] => []
  | top :: below =>
      match h !! top with
      | Some o =>
          if (current_level <=? o_level o)%Z then pop_closed h current_level below
          else stack
      | None => stack
      end
  end.

Definition add_child (child : nat) (o : obj) : obj :=
  Obj (o_level o) (o_content o) (o_children o ++ [child]).

Definition add_text (line : str) (o : obj) : obj :=
  match o_content o with
  | [] => Obj (o_level o) line (o_children o)
  | _ => Obj (o_level o) (o_content o ++ u " " ++ line) (o_children o)
  end.

(** One iteration of [for line in lines]. *)
Definition step (b : builder) (line : str) : builder :=
  match classify line with
  | Some current_level =>
      let new_node := length (heap b) in
      let stack' := pop_closed (heap b) current_level (stack b) in
      let parent := match stack' with top :: _ => top | [] => root end in
      Builder (alter (add_child new_node) parent
                     (heap b ++ [Obj current_level line []]))
              (new_node :: stack')
              (non_saved_lines b)
  | None =>
      match stack b with
      | [] => Builder (heap b) (stack b) (non_saved_lines b ++ [line])
      | top :: _ => Builder (alter (add_text line) top (heap b)) (stack b)
                            (non_saved_lines b)
      end
  end.

Definition build (lines : list str) : builder := fold_left step lines init.

(** The tree as the chunker reads it. *)
#[local] Unset Elimination Schemes.
Inductive node := Node { level : Z; content : str; children : list node }.
#[local] Set Elimination Schemes.

(** Following the references from [ref]; [None] when [fuel] runs out or a
    reference dangles, neither of which happens on a built heap
    ([reify_build] below). *)
Fixpoint reify (fuel : nat) (h : list obj) (ref : nat) : option node :=
  match fuel with
  | O => None
  | S fuel' =>
      o ← h !! ref;
      cs ← mapM (reify fuel' h) (o_children o);
      Some (Node (o_level o) (o_content o) cs)
  end.

(** The returned dict; the file name and the time stamp of the metadata are
    left out. *)
Record tree_data := TreeData {
  ten_van_ban : str;                 (* "tên văn bản" *)
  co_phu_luc : bool;                 (* "có phụ lục không?" *)
  noi_dung_khong_luu : list str;     (* "nội dung không lưu" *)
  tree_content : list node           (* "content" *)
}.

Definition unknown_title : str := u "Không xác định".

(** [parse_legal_document_to_dict], from the list [lines] that the
    comprehension over the file's text leaves. *)
Definition parse_legal_document_to_dict (lines : list str) : option tree_data :=
  let title_found := find_title lines in
  let appendix := appendix_start_index lines in
  let lines' := match appendix with Some k => take k lines | None => lines end in
  let b := build lines' in
  r ← reify (length (heap b)) (heap b) root;
  Some (TreeData
          (match title_found with
           | Some ((_ :: _) as t) => t
           | _ => unknown_title
           end)
          (bool_decide (is_Some appendix))
          (non_saved_lines b)
          (children r)).

(** ** Part 2 of the source: tree to chunks *)

(** [.!?。:：]$ *)
Definition terminal_punctuation : Re.pattern :=
  Re.Pattern (Re.Seq (Re.Cls (Re.chars ".!?。:：")) Re.Eos) false.

Definition ensure_punctuation (text : str) : str :=
  if Re.search terminal_punctuation (Unicode.strip text) then text
  else text ++ u ".".

(** [collector] is the list the source appends to. *)
Fixpoint extract_all_node_texts (n : node) (collector : list str) : list str :=
  fold_left (fun c child => extract_all_node_texts child c) (children n)
            (collector ++ [content n]).

(** [' '.join] and [''.join]. *)
Fixpoint join (sep : str) (parts : list str) : str :=
  match parts with
  | [] => []
  | [p] => p
  | p :: parts' => p ++ sep ++ join sep parts'
  end.

Record chunk := Chunk { chunk_content : list str; token_length : nat }.

Record output_chunk := OutputChunk {
  source_file : str;
  url : str;
  out_token_length : nat;
  out_chunk_content : str
}.

(** One record of [output_chunks]; the [url] is the empty placeholder. *)
Definition to_output (source_file_path : str) (c : chunk) : output_chunk :=
  OutputChunk source_file_path [] (token_length c)
              (join (u " ") (chunk_content c)).

Inductive result :=
| Return (output_chunks : list output_chunk)
| ValueError (n : nat) (missing : gset (list N)).

Section Chunking.

(** [count_tokens(text, model_name)]: the length of [tiktoken]'s encoding
    of [text], taken as a total function of the text and the model name. *)
Variable count_tokens : str -> str -> nat.
Variable model_name : str.
Variable max_token : Z.

(** [dfs_build] on the state [(current_path, all_chunks)]. *)
Fixpoint dfs_build (n : node) (st : list str * list chunk) : list str * list chunk :=
  let text := ensure_punctuation (content n) in
  let current_path := st.1 ++ [text] in
  let st' :=
    match children n with
    | [] =>
        let chunk_lines := current_path in
        let chunk_text := join [] chunk_lines in
        let token_length := count_tokens chunk_text model_name in
        (current_path, st.2 ++ [Chunk chunk_lines token_length])
    | cs => fold_left (fun s child => dfs_build child s) cs (current_path, st.2)
    end in
  (removelast st'.1, st'.2).

(** The index of the first line of [lines_nxt] that is not in [lines_cur]. *)
Definition first_new_line (lines_cur lines_nxt : list str) : option nat :=
  find_index (fun line => negb (bool_decide (line ∈ lines_cur))) lines_nxt.

Definition merge_lines (lines_cur lines_nxt : list str) : list str :=
  match first_new_line lines_cur lines_nxt with
  | Some found => lines_cur ++ drop found lines_nxt
  | None => lines_cur ++ lines_nxt
  end.

(** The inner [while]: [rest] is [all_chunks[j:]]; the result is [current]
    and [all_chunks[j:]] at the [break] or at the end of the list. *)
Fixpoint absorb (current : chunk) (rest : list chunk) : chunk * list chunk :=
  match rest with
  | [] => (current, [])
  | nxt :: rest' =>
      let merged_lines :=
        map ensure_punctuation
            (merge_lines (chunk_content current) (chunk_content nxt)) in
      let merged_text := join [] merged_lines in
      let merged_tokens := count_tokens merged_text model_name in
      if (Z.of_nat merged_tokens <=? max_token)%Z
      then absorb (Chunk merged_lines merged_tokens) rest'
      else (current, rest)
  end.

Lemma absorb_length current rest :
  (length (absorb current rest).2 <= length rest)%nat.
Proof.
  revert current; induction rest as [|nxt rest IH]; intros current; simpl.
  - lia.
  - destruct (_ <=? _)%Z; simpl; [specialize (IH (Chunk
      (map ensure_punctuation (merge_lines (chunk_content current) (chunk_content nxt)))
      (count_tokens (join [] (map ensure_punctuation
         (merge_lines (chunk_content current) (chunk_content nxt)))) model_name))) |]; lia.
Qed.

(** The outer [while]: the argument is [all_chunks[i:]]. *)
Equations? merge_chunks (all_chunks : list chunk) : list chunk
  by wf (length all_chunks) lt :=
  merge_chunks [] := [];
  merge_chunks (first :: rest) :=
    (absorb first rest).1 :: merge_chunks (absorb first rest).2.
Proof. pose proof (absorb_length first rest). simpl. lia. Qed.

(** The path-chunks that [dfs_build(root_node)] leaves in [all_chunks].
    The source's [root_node] has no level; it is given the parser's -1. *)
Definition all_chunks (root_title : str) (content : list node) : list chunk :=
  let root_node := Node (-1) root_title content in
  (dfs_build root_node ([], [])).2.

Definition final_chunks (root_title : str) (content : list node) : list chunk :=
  merge_chunks (all_chunks root_title content).

Definition create_chunks_from_tree (tree : tree_data) (source_file_path : str) : result :=
  let root_title := ten_van_ban tree in
  let root_node := Node (-1) root_title (tree_content tree) in
  let all_node_texts_raw := extract_all_node_texts root_node [] in
  let all_node_texts := map ensure_punctuation all_node_texts_raw in
  let set_all_node_texts : gset (list N) := list_to_set all_node_texts in
  let final := final_chunks root_title (tree_content tree) in
  let used_texts : gset (list N) := list_to_set (flat_map chunk_content final) in
  let missing := set_all_node_texts ∖ used_texts in
  if bool_decide (missing = ∅) then
    Return (map (to_output source_file_path) final)
  else ValueError (size missing) missing.

End Chunking.

(** The body of the [try] block of [process_folder_to_unified_json] for one
    document. *)
Definition process_document (count_tokens : str -> str -> nat) (model_name : str)
    (max_token : Z) (lines : list str) (source_file_path : str) : option result :=
  tree ← parse_legal_document_to_dict lines;
  Some (create_chunks_from_tree count_tokens model_name max_token tree source_file_path).

Definition MODEL_NAME : str := u "gpt-4o".
Definition MAX_TOKEN : Z := 800.

(** A tokenizer to run the examples with: one token per code point. *)
Definition code_points (text model_name : str) : nat := length text.

(** * Notions the statements are written in *)

(** [subnode m n]: [m] is a node of the tree rooted at [n]. *)
Inductive subnode : node -> node -> Prop :=
| subnode_here n : subnode n n
| subnode_below m c n : c ∈ children n -> subnode m c -> subnode m n.

(** Induction on a tree with the hypothesis for every child. *)
Section NodeInduction.
Variable P : node -> Prop.
Hypothesis Hnode : forall l c cs, Forall P cs -> P (Node l c cs).

Fixpoint node_ind (n : node) : P n :=
  match n with
  | Node l c cs =>
      Hnode l c cs
        ((fix all (cs : list node) : Forall P cs :=
            match cs with
            | [] => List.Forall_nil P
            | x :: xs => List.Forall_cons P x xs (node_ind x) (all xs)
            end) cs)
  end.
End NodeInduction.

(** What [extract_all_node_texts] appends. *)
Fixpoint texts (n : node) : list str :=
  content n :: flat_map texts (children n).

(** A line that [ensure_punctuation] leaves as it is. *)
Definition normalized (line : str) : Prop := ensure_punctuation line = line.

Definition wf_chunk (c : chunk) : Prop := Forall normalized (chunk_content c).

Section PathChunks.

Variable count_tokens : str -> str -> nat.
Variable model_name : str.

(** The path-chunks of the leaves below [n], reached along [path]. *)
Fixpoint path_chunks (path : list str) (n : node) : list chunk :=
  let path' := path ++ [ensure_punctuation (content n)] in
  match children n with
  | [] => [Chunk path' (count_tokens (join [] path') model_name)]
  | cs => flat_map (path_chunks path') cs
  end.

(** The stored count is the tokenizer's count of the lines joined by
    [''.join]. *)
Definition counted (c : chunk) : Prop :=
  token_length c = count_tokens (join [] (chunk_content c)) model_name.

End PathChunks.

Definition level_of (h : list obj) (ref : nat) : Z :=
  from_option o_level 0%Z (h !! ref).

(** Every child sits strictly deeper than its parent. *)
Fixpoint ordered (n : node) : bool :=
  forallb (fun child => (level n <? level child)%Z && ordered child) (children n).

(** Levels strictly decrease from the top of the stack to its bottom. *)
Definition decreasing (levels : list Z) : Prop :=
  StronglySorted (fun a b => (b < a)%Z) levels.

Record builder_ok (b : builder) : Prop := BuilderOk {
  ok_root : exists o, heap b !! root = Some o /\ o_level o = (-1)%Z;
  ok_levels : forall r o, heap b !! r = Some o -> r <> root -> (1 <= o_level o)%Z;
  ok_stack : forall r, r ∈ stack b -> r <> root /\ (r < length (heap b))%nat;
  ok_sorted : decreasing (map (level_of (heap b)) (stack b));
  ok_children : forall p P c,
    heap b !! p = Some P -> c ∈ o_children P ->
    (p < c)%nat /\ exists N, heap b !! c = Some N /\ (o_level P < o_level N)%Z
}.

(** * Further notions *)

(** The code points of [.!?。:：]. *)
Definition marks : list N := u ".!?。:：".

(** The last code point is one of the marks. *)
Definition ends_with_mark (s : list N) : bool :=
  match last s with
  | Some c => bool_decide (c ∈ marks)
  | None => false
  end.

(** The character class of [terminal_punctuation] on one code point. *)
Definition is_mark (c : N) : bool :=
  existsb (Re.item_match false c) (Re.chars ".!?。:：").


(** The number of leaves of a tree. *)
Fixpoint leaves (n : node) : nat :=
  match children n with
  | [] => 1
  | cs => sum_list (map leaves cs)
  end.

Section Greedy.

Variable count_tokens : str -> str -> nat.
Variable model_name : str.
Variable max_token : Z.

(** The trial of the inner loop: the accumulator with the candidate merged
    in, re-normalized and counted. *)
Definition trial (current nxt : chunk) : chunk :=
  let merged_lines :=
    map ensure_punctuation
        (merge_lines (chunk_content current) (chunk_content nxt)) in
  Chunk merged_lines (count_tokens (join [] merged_lines) model_name).

(** [absorbs current group result]: every chunk of [group], in turn, gives
    a trial within the budget, and [result] is the last trial. *)
Inductive absorbs : chunk -> list chunk -> chunk -> Prop :=
| absorbs_nil current : absorbs current [] current
| absorbs_cons current nxt group result :
    (Z.of_nat (token_length (trial current nxt)) <= max_token)%Z ->
    absorbs (trial current nxt) group result ->
    absorbs current (nxt :: group) result.

(** [grouping all_chunks finals]: the path-chunks are cut into consecutive
    groups, each merged into one final chunk, and a group ends only at the
    end of the list or where the next path-chunk gives a trial over the
    budget. *)
Inductive grouping : list chunk -> list chunk -> Prop :=
| grouping_nil : grouping [] []
| grouping_cons first group rest current finals :
    absorbs first group current ->
    (forall nxt, head rest = Some nxt ->
       (max_token < Z.of_nat (token_length (trial current nxt)))%Z) ->
    grouping rest finals ->
    grouping (first :: group ++ rest) (current :: finals).

End Greedy.

(** ** Reading a file

    [str.splitlines()]: the line boundaries of a [str] are \n, \r, \r\n,
    \v, \f, \x1c, \x1d, \x1e, \x85, U+2028 and U+2029. *)

Definition is_linebreak (c : N) : bool :=
  (((10 <=? c) && (c <=? 13)) || ((28 <=? c) && (c <=? 30)) || (c =? 133)
   || (c =? 8232) || (c =? 8233))%N.

(** [line] is the line read so far. *)
Fixpoint splitlines_from (line : str) (s : str) : list str :=
  match s with
  | [] => match line with [] => [] | _ => [line] end
  | c :: s' =>
      if is_linebreak c then
        line :: match s' with
                | d :: s'' =>
                    if ((c =? 13) && (d =? 10))%N then splitlines_from [] s''
                    else splitlines_from [] s'
                | [] => []
                end
      else splitlines_from (line ++ [c]) s'
  end.

Definition splitlines (s : str) : list str := splitlines_from [] s.

(** [line.strip() for line in original_text.splitlines() if line.strip()],
    the first statement of [parse_legal_document_to_dict] after the file is
    read. *)
Definition read_lines (original_text : str) : list str :=
  flat_map (fun line => match Unicode.strip line with
                        | [] => []
                        | stripped => [stripped]
                        end)
           (splitlines original_text).

(** [docx_to_txt] of [convert_to_txt.py], from the texts of the paragraphs
    to the text of the file it writes. *)
Definition docx_to_txt (paragraphs : list str) : str :=
  flat_map (fun para => match Unicode.strip para with
                        | [] => []
                        | text => text ++ [10%N]
                        end)
           paragraphs.

(** ** Part 3 of the source: a folder to one JSON file

    [process_folder_to_unified_json] up to the point where it writes the
    output file; the prints and the statistics that follow are left out.  A
    chunk of the JSON file is a record; the two keys that the function reads
    with [.get] may be missing from a chunk that was loaded. *)

Record saved_chunk := SavedChunk {
  chunk_id : option Z;
  saved_source_file : option str;
  saved_url : str;
  saved_token_length : nat;
  saved_chunk_content : str
}.

(** chunk["chunk_id"] = next_chunk_id *)
Definition with_chunk_id (id : Z) (c : output_chunk) : saved_chunk :=
  SavedChunk (Some id) (Some (source_file c)) (url c)
             (out_token_length c) (out_chunk_content c).

(** The output file as the function finds it: absent, present but failing
    to load, or holding a list of chunks. *)
Inductive existing_file :=
| NoFile
| Unreadable
| Loaded (chunks : list saved_chunk).

(** max(chunk.get("chunk_id", 0) for chunk in existing_chunks) *)
Definition max_chunk_id (first : saved_chunk) (others : list saved_chunk) : Z :=
  fold_left (fun m c => Z.max m (default 0%Z (chunk_id c))) others
            (default 0%Z (chunk_id first)).

(** [existing_chunks], [next_chunk_id] and [processed_files] after the
    loading block; [processed_files] is a set, kept here as the list of its
    members. *)
Definition load_existing (append_mode : bool) (output : existing_file)
    : list saved_chunk * Z * list (option str) :=
  match append_mode, output with
  | true, Loaded existing_chunks =>
      (existing_chunks,
       match existing_chunks with
       | [] => 1%Z
       | first :: others => (max_chunk_id first others + 1)%Z
       end,
       map saved_source_file existing_chunks)
  | _, _ => ([], 1%Z, [])
  end.

(** The loop that numbers the new chunks. *)
Fixpoint assign_ids (next_chunk_id : Z) (chunks : list output_chunk) : list saved_chunk :=
  match chunks with
  | [] => []
  | c :: chunks' => with_chunk_id next_chunk_id c :: assign_ids (next_chunk_id + 1) chunks'
  end.

(** An entry of [error_files]: {"file": filename, "error": str(e)}. *)
Record error_file := ErrorFile { file : str; error : str }.

(** [os.path.basename] on a POSIX system: what follows the last slash. *)
Definition posix_basename (path : str) : str :=
  fold_left (fun name c => if (c =? 47)%N then [] else name ++ [c]) path [].

Section Folder.

Variable count_tokens : str -> str -> nat.
Variable model_name : str.
Variable max_token : Z.

(** The text of a file, [None] when opening or decoding it raises. *)
Variable read_text : str -> option str.

(** [os.path.basename], which splits at the separators of the platform, and
    [str(e)] for the exception [e] that the [try] block raises on a file. *)
Variable basename : str -> str.
Variable error_text : str -> str.

(** The body of the [try] block for one file; [None] when it raises. *)
Definition process_file (txt_file : str) : option (list output_chunk) :=
  original_text ← read_text txt_file;
  tree_data ← parse_legal_document_to_dict (read_lines original_text);
  match create_chunks_from_tree count_tokens model_name max_token tree_data txt_file with
  | Return chunks => Some chunks
  | ValueError _ _ => None
  end.

(** One iteration of the loop over [new_txt_files], on the state
    [(all_new_chunks, error_files)]; a failure is recorded under the base
    name of the file. *)
Definition process_step (st : list output_chunk * list error_file) (txt_file : str)
    : list output_chunk * list error_file :=
  match process_file txt_file with
  | Some chunks => (st.1 ++ chunks, st.2)
  | None => (st.1, st.2 ++ [ErrorFile (basename txt_file) (error_text txt_file)])
  end.

(** What is written to the output file ([None] when the function returns
    before writing, there being no new file), and [error_files]. *)
Definition process_folder_to_unified_json (append_mode : bool)
    (output : existing_file) (txt_files : list str)
    : option (list saved_chunk) * list error_file :=
  let '(existing_chunks, next_chunk_id, processed_files) :=
    load_existing append_mode output in
  let new_txt_files := filter (fun f => Some f ∉ processed_files) txt_files in
  match new_txt_files with
  | [] => (None, [])
  | _ =>
      let '(all_new_chunks, error_files) :=
        fold_left process_step new_txt_files ([], []) in
      (Some (existing_chunks ++ assign_ids next_chunk_id all_new_chunks),
       error_files)
  end.

End Folder.

(** ** What the tree holds

    The reading of a document that the tree is compared with: [body lines]
    are the leading lines that match no pattern, and [headings lines] are the
    lines that match one, in order, each with its level and with the
    unmatched lines that follow it joined to it by single spaces. *)

Fixpoint body (lines : list str) : list str :=
  match lines with
  | [] => []
  | line :: rest =>
      match classify line with
      | None => line :: body rest
      | Some _ => []
      end
  end.

Fixpoint headings (lines : list str) : list (Z * str) :=
  match lines with
  | [] => []
  | line :: rest =>
      match classify line with
      | Some current_level =>
          (current_level, join (u " ") (line :: body rest)) :: headings rest
      | None => headings rest
      end
  end.

(** The nodes of a tree in depth-first order, parents before children. *)
Fixpoint preorder (n : node) : list (Z * str) :=
  (level n, content n) :: flat_map preorder (children n).

(** An open node of the builder with the subtrees of its children that are
    closed; a list of frames, root first, stands for the tree in which each
    frame's last child is the next frame. *)
Record frame := Frame { f_level : Z; f_content : str; f_closed : list node }.

Fixpoint plug (frames : list frame) : list node :=
  match frames with
  | [] => []
  | f :: frames' =>
      [Node (f_level f) (f_content f) (f_closed f ++ plug frames')]
  end.

(** [rep h lo hi t r]: the heap holds the tree [t] at the reference [r], in
    cells with indices from [lo] up to, not including, [hi]. *)
Fixpoint rep (h : list obj) (lo hi : nat) (t : node) (r : nat) {struct t} : Prop :=
  (lo <= r < hi)%nat /\
  exists o, h !! r = Some o /\ level t = o_level o /\ content t = o_content o /\
    (fix reps (ts : list node) (rs : list nat) {struct ts} : Prop :=
       match ts, rs with
       | [], [] => True
       | t' :: ts', r' :: rs' => rep h lo hi t' r' /\ reps ts' rs'
       | _, _ => False
       end) (children t) (o_children o).

(** [chain h r path frames]: the frames stand for the open nodes [r] and,
    below it, [path]; every open node but the last has the next one as its
    last child, after its closed children. *)
Fixpoint chain (h : list obj) (r : nat) (path : list nat) (frames : list frame)
    {struct frames} : Prop :=
  match frames with
  | [] => False
  | f :: frames' =>
      exists o, h !! r = Some o /\ f_level f = o_level o /\
        f_content f = o_content o /\
        match path with
        | [] =>
            frames' = [] /\
            Forall2 (rep h (S r) (length h)) (f_closed f) (o_children o)
        | s :: path' =>
            exists refs, o_children o = refs ++ [s] /\ (r < s)%nat /\
              Forall2 (rep h (S r) s) (f_closed f) refs /\
              chain h s path' frames'
        end
  end.

(** Levels that never increase from left to right. *)
Fixpoint non_increasing (levels : list Z) : bool :=
  match levels with
  | [] => true
  | a :: rest => forallb (fun b => (b <=? a)%Z) rest && non_increasing rest
  end.

(** In every node, no child is deeper than a child before it. *)
Fixpoint siblings_sorted (n : node) : bool :=
  non_increasing (map level (children n)) &&
  forallb (fun child => siblings_sorted child) (children n).

(** The same for the frames: the closed children of an open node are sorted
    and none is shallower than the open child after them. *)
Fixpoint frames_sorted (frames : list frame) : Prop :=
  match frames with
  | [] => True
  | f :: frames' =>
      non_increasing (map level (f_closed f)) = true /\
      Forall (fun t => siblings_sorted t = true) (f_closed f) /\
      match frames' with
      | [] => True
      | f' :: _ => Forall (fun t => (f_level f' <= level t)%Z) (f_closed f)
      end /\
      frames_sorted frames'
  end.

(** The content of the last heading grows by an unmatched line. *)
Definition extend_last (items : list (Z * list N)) (line : list N) : list (Z * list N) :=
  match reverse items with
  | [] => []
  | (l, c) :: before => reverse before ++ [(l, c ++ u " " ++ line)]
  end.

(** The innermost open node: the last of the path, or its start. *)
Definition innermost (r : nat) (path : list nat) : nat := default r (last path).

(** ** The embedder (embedding.py)

    A value read by [json.load]; numbers are integers, which is what the
    chunker writes.  A chunk of the JSON file is a dict from keys to
    values. *)
#[local] Unset Elimination Schemes.
Inductive json :=
| JNull
| JBool (b : bool)
| JNumber (n : Z)
| JString (s : str)
| JArray (items : list json)
| JObject (fields : list (str * json)).
#[local] Set Elimination Schemes.

Definition TEXT_KEYS : list str :=
  [u "chunk_content"; u "text"; u "content"; u "page_content"; u "body"].

(** The [for] loop of [extract_text] over the keys that are left. *)
Fixpoint first_text (chunk : gmap str json) (keys : list str) : option str :=
  match keys with
  | [] => None
  | key :: keys' =>
      match chunk !! key with
      | Some (JString s) => Some (Unicode.strip s)
      | _ => first_text chunk keys'
      end
  end.

Definition extract_text (chunk : gmap str json) : option str :=
  first_text chunk TEXT_KEYS.

(** The loop of [main] that fills [texts] and [metadata]. *)
Definition valid_chunks (chunks : list (gmap str json))
    : list str * list (gmap str json) :=
  fold_left (fun st c =>
               match extract_text c with
               | Some ((_ :: _) as t) => (st.1 ++ [t], st.2 ++ [c])
               | _ => st
               end)
            chunks ([], []).

(** The dict that the chunker's run dumps for a chunk it has numbered. *)
Definition record_of (c : saved_chunk) : gmap str json :=
  let fields : gmap str json :=
    {[ u "url" := JString (saved_url c);
       u "token_length" := JNumber (Z.of_nat (saved_token_length c));
       u "chunk_content" := JString (saved_chunk_content c) ]} in
  let fields :=
    match saved_source_file c with
    | Some f => <[ u "source_file" := JString f ]> fields
    | None => fields
    end in
  match chunk_id c with
  | Some id => <[ u "chunk_id" := JNumber id ]> fields
  | None => fields
  end.

Definition BATCH_SIZE : nat := 8.

(** range(0, stop, step), for a positive step *)
Definition range_step (stop step : nat) : list nat :=
  map (fun k => (k * step)%nat) (seq 0 ((stop + step - 1) / step)).

(** texts[i:i + BATCH_SIZE] for i in range(0, len(texts), BATCH_SIZE) *)
Definition batches {A} (texts : list A) : list (list A) :=
  map (fun i => take BATCH_SIZE (drop i texts)) (range_step (length texts) BATCH_SIZE).

Section Embedder.

(** A row of an embedding matrix; the tokenizer's truncation of a text
    ([decode] after [encode]) and the model's [encode] of a batch, which
    return or raise as the libraries decide. *)
Variable vector : Type.
Variable truncate : str -> str.
Variable encode : list str -> list vector.

Definition truncate_texts (texts : list str) : list str := map truncate texts.

(** [metadata] and the list [all_embeddings] before [np.vstack], when no
    call raises. *)
Definition embed (chunks : list (gmap str json))
    : list (gmap str json) * list (list vector) :=
  let '(texts, metadata) := valid_chunks chunks in
  let texts := truncate_texts texts in
  (metadata, map encode (batches texts)).

End Embedder.

(** ** The search engine (search.py) *)

(** Python's [l[idx]]: a negative index counts from the end; [None] stands
    for IndexError. *)
Definition getitem {A} (l : list A) (idx : Z) : option A :=
  if (0 <=? idx)%Z then l !! Z.to_nat idx
  else if (- Z.of_nat (length l) <=? idx)%Z
       then l !! Z.to_nat (Z.of_nat (length l) + idx)
       else None.

Section Search.

Variable distance_type : Type.
Variable metadata_type : Type.

Record search_result := SearchResult {
  rank : nat;
  distance : distance_type;
  result_metadata : metadata_type
}.

(** The loop of [search] over [enumerate(zip(distances[0], indices[0]))]
    from position [i] on. *)
Fixpoint collect_results (metadata : list metadata_type) (i : nat)
    (hits : list (distance_type * Z)) : option (list search_result) :=
  match hits with
  | [] => Some []
  | (dist, idx) :: hits' =>
      if (idx <? Z.of_nat (length metadata))%Z then
        m ← getitem metadata idx;
        results ← collect_results metadata (S i) hits';
        Some (SearchResult (i + 1) dist m :: results)
      else collect_results metadata (S i) hits'
  end.

(** [search], from what [self.index.search] returns. *)
Definition search (metadata : list metadata_type) (hits : list (distance_type * Z))
    : option (list search_result) :=
  collect_results metadata 0 hits.

End Search.

(** * Properties *)

(** ** Trees *)

Lemma elem_of_flat_map {A B} (f : A -> list B) (l : list A) (y : B) :
  y ∈ flat_map f l <-> exists x, x ∈ l /\ y ∈ f x.
Proof.
  rewrite list_elem_of_In, in_flat_map.
  split; intros (x & Hx & Hy); exists x; by rewrite ?list_elem_of_In in *.
Qed.

Lemma extract_all_node_texts_app n :
  forall collector, extract_all_node_texts n collector = collector ++ texts n.
Proof.
  induction n as [l c cs IH] using node_ind; intros collector; simpl.
  change (collector ++ c :: flat_map texts cs)
    with (collector ++ [c] ++ flat_map texts cs).
  rewrite app_assoc. generalize (collector ++ [c]).
  induction IH as [|x xs Hx _ IHxs]; intros acc; simpl.
  - by rewrite app_nil_r.
  - rewrite Hx, IHxs. by rewrite <- app_assoc.
Qed.

Lemma texts_subnode m n : subnode m n -> content m ∈ texts n.
Proof.
  induction 1 as [n|m c n Hc _ IH]; destruct n as [l t cs]; simpl in *.
  - left.
  - right. apply list_elem_of_In, in_flat_map. exists c.
    split; by apply list_elem_of_In.
Qed.

Lemma texts_inv n text :
  text ∈ texts n -> exists m, subnode m n /\ content m = text.
Proof.
  revert text. induction n as [l c cs IH] using node_ind; intros text Ht.
  simpl in Ht. apply elem_of_cons in Ht as [->|Ht].
  - eexists. split; [apply subnode_here|done].
  - apply elem_of_flat_map in Ht as (child & Hchild & Ht).
    rewrite Forall_forall in IH.
    destruct (IH child Hchild text Ht) as (m & Hm & <-).
    exists m. split; [|done]. by eapply subnode_below.
Qed.

(** ** Terminal punctuation *)

Lemma lstrip_snoc s c :
  Unicode.isspace c = false -> exists t, Unicode.lstrip (s ++ [c]) = t ++ [c].
Proof.
  intros Hc. induction s as [|x s IH]; simpl.
  - rewrite Hc. by exists [].
  - destruct (Unicode.isspace x); [done|]. by exists (x :: s).
Qed.

Lemma strip_snoc s c :
  Unicode.isspace c = false -> exists t, Unicode.strip (s ++ [c]) = t ++ [c].
Proof.
  intros Hc. destruct (lstrip_snoc s c Hc) as [t Ht].
  exists t. unfold Unicode.strip, Unicode.rstrip. rewrite Ht.
  rewrite rev_app_distr. simpl. rewrite Hc. simpl.
  by rewrite rev_involutive.
Qed.

Lemma search_period ic prev t :
  Re.search_from ic (Re.expr terminal_punctuation) prev (t ++ u ".") = true.
Proof.
  revert prev; induction t as [|x t IH]; intros prev.
  - by destruct ic.
  - simpl. rewrite IH. apply orb_true_r.
Qed.

Lemma ensure_punctuation_idempotent text :
  normalized (ensure_punctuation text).
Proof.
  unfold normalized, ensure_punctuation.
  destruct (Re.search _ (Unicode.strip text)) eqn:Hs.
  - by rewrite Hs.
  - destruct (strip_snoc text 46%N eq_refl) as [t Ht].
    change (u ".") with [46%N]. rewrite Ht.
    unfold Re.search. by rewrite (search_period _ None t).
Qed.

Lemma map_normalized lines :
  Forall normalized lines -> map ensure_punctuation lines = lines.
Proof.
  induction 1 as [|x xs Hx _ IH]; simpl; [done|]. by rewrite Hx, IH.
Qed.

Lemma find_index_Some {A} (p : A -> bool) l i :
  find_index p l = Some i ->
  (forall x, x ∈ take i l -> p x = false) /\
  exists x, l !! i = Some x /\ p x = true.
Proof.
  revert i; induction l as [|y l IH]; intros i; simpl; [done|].
  destruct (p y) eqn:Hy.
  - intros [= <-]. split; [by intros x ?%elem_of_nil|]. by exists y.
  - destruct (find_index p l) as [j|] eqn:Hj; simpl; [|done].
    intros [= <-]. destruct (IH j eq_refl) as [Hlt Hat]. split; [|done].
    simpl. intros x [->|Hx]%elem_of_cons; auto.
Qed.

Lemma find_index_None {A} (p : A -> bool) l :
  find_index p l = None -> forall x, x ∈ l -> p x = false.
Proof.
  induction l as [|y l IH]; simpl; [by intros _ x ?%elem_of_nil|].
  destruct (p y) eqn:Hy; [done|].
  destruct (find_index p l); simpl; [done|].
  intros _ x [->|Hx]%elem_of_cons; auto.
Qed.

Lemma find_index_None_2 {A} (p : A -> bool) l :
  (forall x, x ∈ l -> p x = false) -> find_index p l = None.
Proof.
  induction l as [|y l IH]; intros Hl; simpl; [done|].
  rewrite (Hl y) by left. rewrite IH; [done|]. intros x Hx. apply Hl. by right.
Qed.

Lemma find_index_take {A} (p : A -> bool) l k :
  find_index p l = Some k -> find_index p (take k l) = None.
Proof.
  revert k; induction l as [|x l IH]; intros k; simpl; [done|].
  destruct (p x) eqn:Hx; [by intros [= <-]|].
  destruct (find_index p l) as [j|]; simpl; [|done].
  intros [= <-]. simpl. by rewrite Hx, IH.
Qed.

(** ** Path-chunks and merging *)

Section ChunkingFacts.

Variable count_tokens : str -> str -> nat.
Variable model_name : str.
Variable max_token : Z.

Local Abbreviation dfs := (dfs_build count_tokens model_name).
Local Abbreviation absorb' := (absorb count_tokens model_name max_token).
Local Abbreviation merge := (merge_chunks count_tokens model_name max_token).
Local Abbreviation path_chunks' := (path_chunks count_tokens model_name).
Local Abbreviation counted' := (counted count_tokens model_name).

Lemma dfs_build_unfold n st :
  dfs n st =
  let current_path := st.1 ++ [ensure_punctuation (content n)] in
  let st' :=
    match children n with
    | [] => (current_path,
             st.2 ++ [Chunk current_path
                        (count_tokens (join [] current_path) model_name)])
    | cs => fold_left (fun s child => dfs child s) cs (current_path, st.2)
    end in
  (removelast st'.1, st'.2).
Proof. by destruct n. Qed.

Lemma dfs_build_path_chunks n :
  forall path chunks, dfs n (path, chunks) = (path, chunks ++ path_chunks' path n).
Proof.
  induction n as [l c cs IH] using node_ind; intros path chunks.
  rewrite dfs_build_unfold. cbn [children content fst snd].
  set (path' := path ++ [ensure_punctuation c]).
  assert (Hfold : forall acc,
    fold_left (fun s child => dfs child s) cs (path', acc)
    = (path', acc ++ flat_map (path_chunks' path') cs)).
  { clear -IH. induction IH as [|x xs Hx _ IHxs]; intros acc; simpl.
    - by rewrite app_nil_r.
    - rewrite Hx, IHxs. by rewrite <- app_assoc. }
  destruct cs as [|x xs].
  - cbn. fold path'. unfold path'. by rewrite removelast_last.
  - rewrite Hfold. cbn [fst snd path_chunks children content].
    fold path'. unfold path'. by rewrite removelast_last.
Qed.

Lemma elem_of_path_chunks path n c :
  c ∈ path_chunks' path n <->
  let path' := path ++ [ensure_punctuation (content n)] in
  (children n = [] /\ c = Chunk path' (count_tokens (join [] path') model_name))
  \/ exists child, child ∈ children n /\ c ∈ path_chunks' path' child.
Proof.
  destruct n as [l t [|x xs]]; cbn [path_chunks children content].
  - rewrite list_elem_of_singleton. split; [by left|].
    intros [[_ ->]|(y & Hy & _)]; [done|by apply elem_of_nil in Hy].
  - rewrite elem_of_flat_map. split; [by right|].
    by intros [[? _]|?].
Qed.

Lemma path_chunks_prefix n :
  forall path c, c ∈ path_chunks' path n ->
    exists sfx, chunk_content c = path ++ ensure_punctuation (content n) :: sfx.
Proof.
  induction n as [l t cs IH] using node_ind; intros path c Hc.
  apply elem_of_path_chunks in Hc as [[_ ->]|(y & Hy & Hc)];
    cbn [children content] in *.
  - by exists [].
  - rewrite Forall_forall in IH.
    destruct (IH y Hy _ _ Hc) as [sfx Hsfx].
    exists (ensure_punctuation (content y) :: sfx).
    rewrite Hsfx. by rewrite <- app_assoc.
Qed.

Lemma path_chunks_nonempty n : forall path, path_chunks' path n <> [].
Proof.
  induction n as [l t cs IH] using node_ind; intros path.
  destruct cs as [|x xs]; [done|].
  apply Forall_cons in IH as [Hx _].
  cbn [path_chunks children content flat_map].
  specialize (Hx (path ++ [ensure_punctuation t])).
  by destruct (path_chunks' _ x).
Qed.

Lemma path_chunks_cover m n :
  subnode m n -> forall path,
    exists c, c ∈ path_chunks' path n /\
              ensure_punctuation (content m) ∈ chunk_content c.
Proof.
  induction 1 as [n|m ch n Hch _ IH]; intros path.
  - destruct (path_chunks' path n) as [|c cs] eqn:Hp;
      [by apply path_chunks_nonempty in Hp|].
    exists c. split; [left|].
    destruct (path_chunks_prefix n path c) as [sfx ->]; [rewrite Hp; left|].
    apply elem_of_app. right. left.
  - destruct (IH (path ++ [ensure_punctuation (content n)])) as (c & Hc & Hm).
    exists c. split; [|done].
    apply elem_of_path_chunks. right. by exists ch.
Qed.

Lemma path_chunks_normalized n :
  forall path c, Forall normalized path -> c ∈ path_chunks' path n ->
    Forall normalized (chunk_content c).
Proof.
  induction n as [l t cs IH] using node_ind; intros path c Hpath Hc.
  assert (Hpath' : Forall normalized (path ++ [ensure_punctuation t])).
  { apply Forall_app. split; [done|].
    apply Forall_singleton, ensure_punctuation_idempotent. }
  apply elem_of_path_chunks in Hc as [[_ ->]|(y & Hy & Hc)];
    cbn [children content] in *; [done|].
  rewrite Forall_forall in IH. by apply (IH y Hy _ c Hpath').
Qed.

Lemma path_chunks_tokens n :
  forall path c, c ∈ path_chunks' path n ->
    token_length c = count_tokens (join [] (chunk_content c)) model_name.
Proof.
  induction n as [l t cs IH] using node_ind; intros path c Hc.
  apply elem_of_path_chunks in Hc as [[_ ->]|(y & Hy & Hc)];
    cbn [children content] in *; [done|].
  rewrite Forall_forall in IH. by apply (IH y Hy _ c Hc).
Qed.

Lemma merge_lines_app cur nxt :
  exists sfx, merge_lines cur nxt = cur ++ sfx /\
    (forall l, l ∈ sfx -> l ∈ nxt) /\
    (forall l, l ∈ nxt -> l ∈ cur \/ l ∈ sfx).
Proof.
  unfold merge_lines, first_new_line.
  destruct (find_index _ nxt) as [i|] eqn:Hi.
  - exists (drop i nxt). split; [done|]. split.
    + intros l Hl. rewrite <- (take_drop i nxt). apply elem_of_app. by right.
    + intros l Hl. rewrite <- (take_drop i nxt) in Hl.
      apply elem_of_app in Hl as [Hl|Hl]; [left|by right].
      apply find_index_Some in Hi as [Hlt _]. specialize (Hlt l Hl).
      by apply negb_false_iff, bool_decide_eq_true in Hlt.
  - exists nxt. auto.
Qed.

Lemma absorb_suffix rest :
  forall cur, exists absorbed, rest = absorbed ++ (absorb' cur rest).2.
Proof.
  induction rest as [|nxt rest IH]; intros cur; [by exists []|].
  cbn [absorb]. destruct (_ <=? _)%Z.
  - edestruct IH as [absorbed Ha]. exists (nxt :: absorbed).
    cbn. f_equal. apply Ha.
  - by exists [].
Qed.

Lemma absorb_spec rest :
  forall cur, wf_chunk cur -> Forall wf_chunk rest ->
  exists absorbed sfx,
    rest = absorbed ++ (absorb' cur rest).2 /\
    chunk_content (absorb' cur rest).1 = chunk_content cur ++ sfx /\
    wf_chunk (absorb' cur rest).1 /\
    forall p l, p ∈ absorbed -> l ∈ chunk_content p ->
                l ∈ chunk_content (absorb' cur rest).1.
Proof.
  induction rest as [|nxt rest IH]; intros cur Hcur Hrest.
  - exists [], []. cbn. rewrite app_nil_r. repeat split; [done|].
    by intros p l ?%elem_of_nil.
  - apply Forall_cons in Hrest as [Hnxt Hrest].
    cbn [absorb].
    destruct (merge_lines_app (chunk_content cur) (chunk_content nxt))
      as (sfx1 & Hm & Hsub & Hcov).
    assert (Hwf : Forall normalized (chunk_content cur ++ sfx1)).
    { apply Forall_app. split; [done|]. apply Forall_forall. intros l Hl.
      unfold wf_chunk in Hnxt. rewrite Forall_forall in Hnxt. auto. }
    rewrite Hm, (map_normalized _ Hwf).
    destruct (_ <=? _)%Z.
    + set (cur2 := Chunk _ _).
      destruct (IH cur2 Hwf Hrest) as (absorbed & sfx2 & Hr & Hc & Hw & Hin).
      exists (nxt :: absorbed), (sfx1 ++ sfx2).
      repeat split; [cbn; by f_equal| |done|].
      * rewrite Hc. cbn. by rewrite <- app_assoc.
      * intros p l [->|Hp]%elem_of_cons Hl; [|by eapply Hin].
        rewrite Hc. cbn. apply elem_of_app. left.
        apply elem_of_app. destruct (Hcov l Hl); auto.
    + exists [], []. cbn. rewrite app_nil_r. repeat split; [done|].
      by intros p l ?%elem_of_nil.
Qed.

Lemma absorb_budget rest :
  forall cur, (absorb' cur rest).1 = cur \/
              (Z.of_nat (token_length (absorb' cur rest).1) <= max_token)%Z.
Proof.
  induction rest as [|nxt rest IH]; intros cur; [by left|].
  cbn [absorb]. destruct (_ <=? _)%Z eqn:Hfit; [|by left].
  right. edestruct IH as [->|Hle]; [|exact Hle].
  cbn. by apply Z.leb_le.
Qed.

Lemma absorb_counted rest :
  forall cur, counted' cur -> counted' (absorb' cur rest).1.
Proof.
  induction rest as [|nxt rest IH]; intros cur Hcur; [done|].
  cbn [absorb]. destruct (_ <=? _)%Z; [|done].
  by apply IH.
Qed.

(** Induction along the outer loop. *)
Lemma merge_chunks_ind (P : list chunk -> Prop) :
  P [] ->
  (forall first rest, P (absorb' first rest).2 -> P (first :: rest)) ->
  forall all_chunks, P all_chunks.
Proof.
  intros Hnil Hcons all_chunks.
  induction all_chunks as [all_chunks IH] using (induction_ltof1 _ (@length chunk)).
  destruct all_chunks as [|first rest]; [done|].
  apply Hcons, IH. unfold ltof.
  pose proof (absorb_length count_tokens model_name max_token first rest).
  simpl. lia.
Qed.

Lemma merge_chunks_nil : merge [] = [].
Proof. by simp merge_chunks. Qed.

Lemma merge_chunks_cons first rest :
  merge (first :: rest) = (absorb' first rest).1 :: merge (absorb' first rest).2.
Proof. by simp merge_chunks. Qed.

Lemma merge_chunks_cover all_chunks :
  Forall wf_chunk all_chunks ->
  forall p, p ∈ all_chunks ->
    exists c, c ∈ merge all_chunks /\
              forall l, l ∈ chunk_content p -> l ∈ chunk_content c.
Proof.
  induction all_chunks as [|first rest IH] using merge_chunks_ind;
    [by intros _ p ?%elem_of_nil|].
  intros Hwf p Hp. apply Forall_cons in Hwf as [Hfirst Hrest].
  destruct (absorb_spec rest first Hfirst Hrest)
    as (absorbed & sfx & Hr & Hc & _ & Hin).
  rewrite merge_chunks_cons.
  apply elem_of_cons in Hp as [->|Hp].
  - eexists. split; [left|]. intros l Hl. rewrite Hc.
    apply elem_of_app. by left.
  - rewrite Hr in Hp. apply elem_of_app in Hp as [Hp|Hp].
    + eexists. split; [left|]. intros l Hl. by eapply Hin.
    + rewrite Hr in Hrest. apply Forall_app in Hrest as [_ Hrest].
      destruct (IH Hrest p Hp) as (c & Hc' & Hl). exists c. split; [by right|done].
Qed.

Lemma merge_chunks_extends all_chunks :
  Forall wf_chunk all_chunks ->
  forall c, c ∈ merge all_chunks ->
    exists p sfx, p ∈ all_chunks /\ chunk_content c = chunk_content p ++ sfx.
Proof.
  induction all_chunks as [|first rest IH] using merge_chunks_ind;
    [intros _ c Hc; rewrite merge_chunks_nil in Hc; by apply elem_of_nil in Hc|].
  intros Hwf c Hc. apply Forall_cons in Hwf as [Hfirst Hrest].
  destruct (absorb_spec rest first Hfirst Hrest)
    as (absorbed & sfx & Hr & Hcur & _ & _).
  rewrite merge_chunks_cons in Hc.
  apply elem_of_cons in Hc as [->|Hc].
  - exists first, sfx. split; [left|done].
  - rewrite Hr in Hrest. apply Forall_app in Hrest as [_ Hrest].
    destruct (IH Hrest c Hc) as (p & sfx' & Hp & Hpc).
    exists p, sfx'. split; [|done]. right. rewrite Hr.
    apply elem_of_app. by right.
Qed.

Lemma merge_chunks_counted all_chunks :
  Forall counted' all_chunks -> Forall counted' (merge all_chunks).
Proof.
  induction all_chunks as [|first rest IH] using merge_chunks_ind;
    [by rewrite merge_chunks_nil|].
  intros [Hfirst Hrest]%Forall_cons. rewrite merge_chunks_cons.
  apply Forall_cons. split; [by apply absorb_counted|].
  apply IH. destruct (absorb_suffix rest first) as [absorbed Hr].
  rewrite Hr in Hrest. by apply Forall_app in Hrest as [_ ?].
Qed.

Lemma final_chunks_path_chunks root_title content :
  final_chunks count_tokens model_name max_token root_title content
  = merge (path_chunks' [] (Node (-1) root_title content)).
Proof. unfold final_chunks, all_chunks. by rewrite dfs_build_path_chunks. Qed.

Lemma path_chunks_wf n : Forall wf_chunk (path_chunks' [] n).
Proof.
  apply Forall_forall. intros c Hc.
  by apply (path_chunks_normalized n [] c).
Qed.

Lemma final_chunks_cover root_title nodes m :
  subnode m (Node (-1) root_title nodes) ->
  exists c, c ∈ final_chunks count_tokens model_name max_token root_title nodes
            /\ ensure_punctuation (content m) ∈ chunk_content c.
Proof.
  intros Hm. rewrite final_chunks_path_chunks.
  destruct (path_chunks_cover m _ Hm []) as (p & Hp & Hl).
  destruct (merge_chunks_cover _ (path_chunks_wf _) p Hp) as (c & Hc & Hsub).
  exists c. auto.
Qed.

Lemma create_chunks_from_tree_returns tree source_file_path :
  create_chunks_from_tree count_tokens model_name max_token tree source_file_path
  = Return (map (to_output source_file_path)
                (final_chunks count_tokens model_name max_token
                              (ten_van_ban tree) (tree_content tree))).
Proof.
  unfold create_chunks_from_tree.
  rewrite bool_decide_eq_true_2; [done|].
  apply set_eq. intros line. rewrite elem_of_difference, !elem_of_list_to_set.
  split; [|by intros ?%elem_of_empty]. intros [Hall Hused]. destruct Hused.
  apply list_elem_of_fmap in Hall as (text & -> & Htext).
  rewrite extract_all_node_texts_app in Htext. simpl in Htext.
  assert (exists m, subnode m (Node (-1) (ten_van_ban tree) (tree_content tree))
                    /\ content m = text) as (m & Hm & <-).
  { clear -Htext. by apply texts_inv. }
  destruct (final_chunks_cover _ _ m Hm) as (c & Hc & Hl).
  apply elem_of_flat_map. by exists c.
Qed.

Lemma path_chunks_lines n :
  forall path c line, c ∈ path_chunks' path n -> line ∈ chunk_content c ->
    line ∈ path \/ exists m, subnode m n /\ line = ensure_punctuation (content m).
Proof.
  induction n as [l t cs IH] using node_ind; intros path c line Hc Hline.
  apply elem_of_path_chunks in Hc as [[_ ->]|(y & Hy & Hc)];
    cbn [children content chunk_content] in *.
  - apply elem_of_app in Hline as [?|Hl]; [by left|right].
    apply list_elem_of_singleton in Hl as ->. eexists.
    split; [apply subnode_here|done].
  - rewrite Forall_forall in IH.
    destruct (IH y Hy _ c line Hc Hline) as [Hp|(m & Hm & ->)].
    + apply elem_of_app in Hp as [?|Hl]; [by left|right].
      apply list_elem_of_singleton in Hl as ->. eexists.
      split; [apply subnode_here|done].
    + right. exists m. split; [|done]. by eapply subnode_below.
Qed.

Lemma absorb_lines rest :
  forall cur, wf_chunk cur -> Forall wf_chunk rest ->
  forall line, line ∈ chunk_content (absorb' cur rest).1 ->
    line ∈ chunk_content cur \/ exists p, p ∈ rest /\ line ∈ chunk_content p.
Proof.
  induction rest as [|nxt rest IH]; intros cur Hcur Hrest line Hline; [by left|].
  apply Forall_cons in Hrest as [Hnxt Hrest].
  cbn [absorb] in Hline.
  destruct (merge_lines_app (chunk_content cur) (chunk_content nxt))
    as (sfx1 & Hm & Hsub & _).
  assert (Hwf : Forall normalized (chunk_content cur ++ sfx1)).
  { apply Forall_app. split; [done|]. apply Forall_forall. intros l Hl.
    unfold wf_chunk in Hnxt. rewrite Forall_forall in Hnxt. auto. }
  rewrite Hm, (map_normalized _ Hwf) in Hline.
  destruct (_ <=? _)%Z; [|by left].
  apply IH in Hline as [Hline|(p & Hp & Hline)]; [| |done|done].
  - cbn in Hline. apply elem_of_app in Hline as [?|Hline]; [by left|right].
    exists nxt. split; [left|auto].
  - right. exists p. split; [by right|done].
Qed.

Lemma merge_chunks_lines all_chunks :
  Forall wf_chunk all_chunks ->
  forall c line, c ∈ merge all_chunks -> line ∈ chunk_content c ->
    exists p, p ∈ all_chunks /\ line ∈ chunk_content p.
Proof.
  induction all_chunks as [|first rest IH] using merge_chunks_ind;
    [intros _ c line Hc; rewrite merge_chunks_nil in Hc; by apply elem_of_nil in Hc|].
  intros Hwf c line Hc Hline. apply Forall_cons in Hwf as [Hfirst Hrest].
  rewrite merge_chunks_cons in Hc. apply elem_of_cons in Hc as [->|Hc].
  - apply absorb_lines in Hline as [Hline|(p & Hp & Hline)]; [| |done|done].
    + exists first. split; [left|done].
    + exists p. split; [by right|done].
  - destruct (absorb_suffix rest first) as [absorbed Hr].
    rewrite Hr in Hrest. apply Forall_app in Hrest as [_ Hrest].
    destruct (IH Hrest c line Hc Hline) as (p & Hp & Hl).
    exists p. split; [|done]. right. rewrite Hr. apply elem_of_app. by right.
Qed.

Lemma final_chunks_lines root_title nodes c line :
  c ∈ final_chunks count_tokens model_name max_token root_title nodes ->
  line ∈ chunk_content c ->
  exists m, subnode m (Node (-1) root_title nodes)
            /\ line = ensure_punctuation (content m).
Proof.
  rewrite final_chunks_path_chunks. intros Hc Hline.
  destruct (merge_chunks_lines _ (path_chunks_wf _) c line Hc Hline)
    as (p & Hp & Hl).
  destruct (path_chunks_lines _ _ _ _ Hp Hl) as [[]%elem_of_nil|?]. done.
Qed.

(** The trial is committed when it fits the budget. *)
Lemma absorb_fits cur nxt rest :
  let merged_lines :=
    map ensure_punctuation (merge_lines (chunk_content cur) (chunk_content nxt)) in
  let merged_tokens := count_tokens (join [] merged_lines) model_name in
  (Z.of_nat merged_tokens <= max_token)%Z ->
  absorb' cur (nxt :: rest) = absorb' (Chunk merged_lines merged_tokens) rest.
Proof.
  intros ml mt Hfit. cbn [absorb]. fold ml. fold mt.
  by apply Z.leb_le in Hfit as ->.
Qed.

End ChunkingFacts.

(** ** The builder *)

Lemma classify_level line L : classify line = Some L -> (1 <= L <= 14)%Z.
Proof.
  unfold classify. destruct (List.find _ _) as [[p l]|] eqn:Hf; [|done].
  intros [= <-]. apply find_some in Hf as [Hin _].
  assert (Hall : Forall (fun pl => (1 <= pl.2 <= 14)%Z) Patterns.compiled_regex_levels).
  { unfold Patterns.compiled_regex_levels, Patterns.REGEX_LEVEL_MAP.
    cbn [map]. repeat (apply List.Forall_cons; [cbn; lia|]). apply List.Forall_nil. }
  rewrite Forall_forall in Hall. by apply (Hall (p, l)), list_elem_of_In.
Qed.

Lemma init_ok : builder_ok init.
Proof.
  split; simpl.
  - by eexists.
  - intros [|r] o; [intros _ Hne; by destruct Hne|by destruct r].
  - by intros r ?%elem_of_nil.
  - constructor.
  - intros [|[|p]] P c; [|done..]. intros [= <-]. simpl. by intros ?%elem_of_nil.
Qed.

Lemma level_of_alter f h r x :
  (forall o, o_level (f o) = o_level o) ->
  level_of (alter f r h) x = level_of h x.
Proof.
  intros Hf. unfold level_of. destruct (decide (r = x)) as [->|Hne].
  - rewrite list_lookup_alter_eq. destruct (h !! x); simpl; [apply Hf|done].
  - by rewrite list_lookup_alter_ne.
Qed.

Lemma level_of_app h o x :
  (x < length h)%nat -> level_of (h ++ [o]) x = level_of h x.
Proof. intros Hx. unfold level_of. by rewrite lookup_app_l. Qed.

(** What the inner [while] leaves of the stack. *)
Lemma pop_closed_spec h L st :
  (forall r, r ∈ st -> (r < length h)%nat) ->
  decreasing (map (level_of h) st) ->
  exists closed,
    st = closed ++ pop_closed h L st /\
    (forall r, r ∈ closed -> (L <= level_of h r)%Z) /\
    (forall r, r ∈ pop_closed h L st -> (level_of h r < L)%Z).
Proof.
  induction st as [|top below IH]; intros Hvalid Hsorted.
  - exists []. simpl. repeat split; by intros r ?%elem_of_nil.
  - simpl in *. apply StronglySorted_inv in Hsorted as [Hbelow Htop].
    destruct (lookup_lt_is_Some_2 h top) as [o Ho]; [apply Hvalid; left|].
    rewrite Ho. destruct (Z.leb_spec L (o_level o)) as [Hle|Hlt].
    + destruct IH as (closed & Hst & Hclosed & Hkept); [|done|].
      { intros r Hr. apply Hvalid. by right. }
      exists (top :: closed). repeat split; [simpl; by f_equal| |done].
      intros r [->|Hr]%elem_of_cons; [|by apply Hclosed].
      unfold level_of. by rewrite Ho.
    + exists []. repeat split; [by intros r ?%elem_of_nil|].
      assert (Htopl : level_of h top = o_level o) by (unfold level_of; by rewrite Ho).
      intros r [->|Hr]%elem_of_cons; [lia|].
      rewrite Forall_forall in Htop.
      assert (level_of h r < level_of h top)%Z; [|lia].
      apply Htop, list_elem_of_fmap. by exists r.
Qed.

Lemma step_heading_lookup h L line parent r :
  (parent < length h)%nat ->
  alter (add_child (length h)) parent (h ++ [Obj L line []]) !! r =
  if decide (r = parent) then add_child (length h) <$> h !! parent
  else if decide (r = length h) then Some (Obj L line [])
  else h !! r.
Proof.
  intros Hp. destruct (decide (r = parent)) as [->|Hne].
  - by rewrite list_lookup_alter_eq, lookup_app_l.
  - rewrite list_lookup_alter_ne by done.
    destruct (decide (r = length h)) as [->|Hnew].
    + by rewrite list_lookup_middle.
    + destruct (decide (r < length h)%nat).
      * by rewrite lookup_app_l.
      * rewrite !lookup_ge_None_2; [done|lia|]. rewrite length_app. simpl. lia.
Qed.

Lemma decreasing_ext (f g : nat -> Z) st :
  (forall r, r ∈ st -> f r = g r) ->
  decreasing (map f st) -> decreasing (map g st).
Proof.
  intros Heq. by rewrite (map_ext_in f g st) by (intros r ?%list_elem_of_In; auto).
Qed.

Lemma step_ok b line : builder_ok b -> builder_ok (step b line).
Proof.
  intros [Hroot Hlevels Hstack Hsorted Hchildren].
  assert (Hlen : (0 < length (heap b))%nat).
  { destruct Hroot as (o & Ho & _). by apply lookup_lt_Some in Ho. }
  unfold step. destruct (classify line) as [L|] eqn:Hclass.
  - apply classify_level in Hclass.
    destruct (pop_closed_spec (heap b) L (stack b)) as (closed & Hst & _ & Hkept);
      [intros r Hr; by apply Hstack|done|].
    set (kept := pop_closed (heap b) L (stack b)) in *.
    set (parent := match kept with top :: _ => top | [] => root end).
    assert (Hkept_in : forall r, r ∈ kept -> r ∈ stack b).
    { intros r Hr. rewrite Hst. apply elem_of_app. by right. }
    assert (Hparent : (parent < length (heap b))%nat).
    { unfold parent. destruct kept as [|top ?]; [done|]. apply Hstack, Hkept_in. left. }
    assert (Hplevel : (level_of (heap b) parent < L)%Z).
    { unfold parent. destruct kept as [|top ?]; [|apply Hkept; left].
      destruct Hroot as (o & Ho & Hl). unfold level_of. rewrite Ho. simpl. lia. }
    split; cbn [heap stack non_saved_lines].
    + destruct Hroot as (o & Ho & Hl). rewrite step_heading_lookup by done.
      destruct (decide (root = parent)) as [<-|_].
      * rewrite Ho. by eexists.
      * destruct (decide (root = length (heap b))); [unfold root in *; lia|]. by eexists.
    + intros r o. rewrite step_heading_lookup by done.
      destruct (decide (r = parent)) as [->|_].
      * destruct (heap b !! parent) as [P|] eqn:HP; [|done].
        intros [= <-] Hne. simpl. by eapply Hlevels.
      * destruct (decide (r = length (heap b))); [|apply Hlevels].
        intros [= <-] _. simpl. lia.
    + rewrite length_alter, length_app. simpl.
      intros r [->|Hr]%elem_of_cons; [unfold root; lia|].
      destruct (Hstack r (Hkept_in r Hr)). split; [done|lia].
    + simpl. constructor.
      * eapply (decreasing_ext (level_of (heap b))).
        { intros r Hr. rewrite level_of_alter by done.
          symmetry. apply level_of_app, Hstack, Hkept_in, Hr. }
        rewrite Hst, map_app in Hsorted.
        clear -Hsorted. induction (map (level_of (heap b)) closed) as [|x xs IH]; [done|].
        apply IH. simpl in Hsorted. by apply StronglySorted_inv in Hsorted as [? _].
      * apply Forall_forall. intros l (r & -> & Hr)%list_elem_of_fmap.
        rewrite !level_of_alter by done.
        rewrite level_of_app by apply Hstack, Hkept_in, Hr.
        unfold level_of at 2. rewrite list_lookup_middle by done. simpl.
        by apply Hkept.
    + intros p P c. rewrite step_heading_lookup by done.
      assert (Hchild : forall c N, heap b !! c = Some N ->
        exists N', alter (add_child (length (heap b))) parent
                     (heap b ++ [Obj L line []]) !! c = Some N'
                   /\ o_level N' = o_level N).
      { intros c' N HN. rewrite step_heading_lookup by done.
        destruct (decide (c' = parent)) as [->|_]; [rewrite HN; by eexists|].
        destruct (decide (c' = length (heap b))) as [->|_]; [|by eexists].
        apply lookup_lt_Some in HN. lia. }
      destruct (decide (p = parent)) as [->|_].
      * destruct (heap b !! parent) as [P0|] eqn:HP; [|done].
        intros [= <-]. simpl. intros [Hc|Hc]%elem_of_app.
        -- destruct (Hchildren parent P0 c HP Hc) as (Hlt & N & HN & HlN).
           split; [done|]. destruct (Hchild c N HN) as (N' & HN' & Heq).
           exists N'. split; [done|]. by rewrite Heq.
        -- apply list_elem_of_singleton in Hc as ->. split; [done|].
           exists (Obj L line []). rewrite step_heading_lookup by done.
           destruct (decide (length (heap b) = parent)); [lia|].
           rewrite decide_True by done. split; [done|]. simpl.
           unfold level_of in Hplevel. by rewrite HP in Hplevel.
      * destruct (decide (p = length (heap b))) as [->|_].
        -- intros [= <-]. by intros ?%elem_of_nil.
        -- intros HP Hc. destruct (Hchildren p P c HP Hc) as (Hlt & N & HN & HlN).
           split; [done|]. destruct (Hchild c N HN) as (N' & HN' & Heq).
           exists N'. split; [done|]. by rewrite Heq.
  - destruct (stack b) as [|top below] eqn:Hs; [by split|].
    assert (Hlk : forall r o, alter (add_text line) top (heap b) !! r = Some o ->
      exists o', heap b !! r = Some o' /\ o_level o = o_level o'
                 /\ o_children o = o_children o').
    { intros r o. destruct (decide (r = top)) as [->|Hne].
      - rewrite list_lookup_alter_eq. destruct (heap b !! top) as [o'|]; [|done].
        intros [= <-]. exists o'. unfold add_text. by destruct (o_content o').
      - rewrite list_lookup_alter_ne by done. by eexists. }
    assert (Hkl : forall r o, heap b !! r = Some o ->
      exists o', alter (add_text line) top (heap b) !! r = Some o'
                 /\ o_level o' = o_level o).
    { intros r o Ho. destruct (decide (r = top)) as [->|Hne].
      - rewrite list_lookup_alter_eq, Ho. eexists. split; [done|].
        unfold add_text. by destruct (o_content o).
      - rewrite list_lookup_alter_ne by done. by eexists. }
    split; cbn [heap stack non_saved_lines].
    + destruct Hroot as (o & Ho & Hl). destruct (Hkl _ _ Ho) as (o' & Ho' & Heq).
      exists o'. split; [done|]. by rewrite Heq.
    + intros r o Ho Hne. destruct (Hlk _ _ Ho) as (o' & Ho' & -> & _). by eapply Hlevels.
    + rewrite length_alter. apply Hstack.
    + eapply decreasing_ext; [|exact Hsorted]. intros r _.
      symmetry. apply level_of_alter. intros o. unfold add_text. by destruct (o_content o).
    + intros p P c HP Hc. destruct (Hlk _ _ HP) as (P' & HP' & -> & Hch).
      rewrite Hch in Hc. destruct (Hchildren p P' c HP' Hc) as (Hlt & N & HN & HlN).
      split; [done|]. destruct (Hkl _ _ HN) as (N' & HN' & Heq).
      exists N'. split; [done|]. by rewrite Heq.
Qed.

Lemma fold_step_ok lines : forall b, builder_ok b -> builder_ok (fold_left step lines b).
Proof.
  induction lines as [|line lines IH]; intros b Hb; [done|].
  simpl. by apply IH, step_ok.
Qed.

Lemma build_ok lines : builder_ok (build lines).
Proof. apply fold_step_ok, init_ok. Qed.

Lemma mapM_exists {A B} (f : A -> option B) (Q : A -> B -> Prop) l :
  (forall x, x ∈ l -> exists y, f x = Some y /\ Q x y) ->
  exists k, mapM f l = Some k /\ Forall2 Q l k.
Proof.
  induction l as [|x l IH]; intros Hl.
  - exists []. by split.
  - destruct (Hl x) as (y & Hy & HQ); [left|].
    destruct IH as (k & Hk & HF); [intros z Hz; apply Hl; by right|].
    exists (y :: k). split; [|by constructor].
    cbn. rewrite Hy. cbn. by rewrite Hk.
Qed.

(** On a well-formed heap the references below [ref] are followed to the
    end within [length h - ref] steps. *)
Lemma reify_ok b fuel :
  builder_ok b ->
  forall ref o, heap b !! ref = Some o ->
    (length (heap b) - ref <= fuel)%nat ->
    exists n, reify fuel (heap b) ref = Some n /\
              level n = o_level o /\ content n = o_content o /\
              ordered n = true.
Proof.
  intros Hb. induction fuel as [|fuel IH]; intros ref o Ho Hfuel.
  - apply lookup_lt_Some in Ho. lia.
  - cbn [reify]. rewrite Ho. cbn.
    destruct (mapM_exists (reify fuel (heap b))
                (fun c n => level n = level_of (heap b) c /\ ordered n = true)
                (o_children o)) as (k & Hk & HF).
    { intros c Hc. destruct (ok_children b Hb ref o c Ho Hc) as (Hlt & N & HN & _).
      destruct (IH c N HN) as (n & Hn & Hl & _ & Hord); [lia|].
      exists n. unfold level_of. by rewrite HN. }
    rewrite Hk. cbn. eexists. split; [done|]. repeat split.
    cbn. apply forallb_forall. intros n Hn%list_elem_of_In.
    apply list_elem_of_lookup in Hn as [i Hi].
    destruct (Forall2_lookup_r _ _ _ _ _ HF Hi) as (c & Hc & Hl & Hord).
    apply list_elem_of_lookup_2 in Hc.
    destruct (ok_children b Hb ref o c Ho Hc) as (_ & N & HN & HlN).
    apply andb_true_iff. split; [|done].
    apply Z.ltb_lt. rewrite Hl. unfold level_of. by rewrite HN.
Qed.

Lemma reify_build lines :
  exists r, reify (length (heap (build lines))) (heap (build lines)) root = Some r /\
            level r = (-1)%Z /\ ordered r = true.
Proof.
  pose proof (build_ok lines) as Hb.
  destruct (ok_root _ Hb) as (o & Ho & Hl).
  destruct (reify_ok _ (length (heap (build lines))) Hb root o Ho) as (r & Hr & Hlr & _ & Hord);
    [lia|].
  exists r. by rewrite Hlr.
Qed.

Lemma parse_legal_document_to_dict_total lines :
  is_Some (parse_legal_document_to_dict lines).
Proof.
  unfold parse_legal_document_to_dict.
  destruct (reify_build (match appendix_start_index lines with
                         | Some k => take k lines | None => lines end))
    as (r & -> & _).
  by eexists.
Qed.

(** ** The tree and the document *)

Lemma join_cons sep p ps :
  ps <> [] -> join sep (p :: ps) = p ++ sep ++ join sep ps.
Proof. by destruct ps. Qed.

Lemma join_snoc sep p ps x :
  join sep ((p :: ps) ++ [x]) = join sep (p :: ps) ++ sep ++ x.
Proof.
  revert p. induction ps as [|q ps IH]; intros p; [done|].
  change ((p :: q :: ps) ++ [x]) with (p :: ((q :: ps) ++ [x])).
  rewrite join_cons by done. rewrite IH. rewrite (join_cons sep p (q :: ps)) by done.
  by rewrite <- !app_assoc.
Qed.

Lemma body_snoc lines line :
  body (lines ++ [line]) =
  match headings lines, classify line with
  | [], None => body lines ++ [line]
  | _, _ => body lines
  end.
Proof.
  induction lines as [|x lines IH]; cbn [app body headings].
  - by destruct (classify line).
  - destruct (classify x); [by destruct (classify line)|].
    rewrite IH. by destruct (headings lines), (classify line).
Qed.

Lemma extend_last_snoc items l c line :
  extend_last (items ++ [(l, c)]) line = items ++ [(l, c ++ u " " ++ line)].
Proof. unfold extend_last. by rewrite reverse_snoc, reverse_involutive. Qed.

Lemma extend_last_cons item items line :
  items <> [] -> extend_last (item :: items) line = item :: extend_last items line.
Proof.
  intros Hne. destruct (reverse items) as [|[l c] before] eqn:Hr.
  - apply (f_equal reverse) in Hr. rewrite reverse_involutive in Hr. done.
  - apply (f_equal reverse) in Hr. rewrite reverse_involutive, reverse_cons in Hr.
    rewrite Hr. rewrite app_comm_cons, !extend_last_snoc. done.
Qed.

Lemma headings_snoc lines line :
  headings (lines ++ [line]) =
  match classify line with
  | Some current_level => headings lines ++ [(current_level, line)]
  | None => extend_last (headings lines) line
  end.
Proof.
  induction lines as [|x lines IH]; cbn [app headings body].
  - by destruct (classify line).
  - rewrite IH, body_snoc. destruct (classify x) as [lx|] eqn:Hx.
    + destruct (classify line) as [l|] eqn:Hl.
      * by destruct (headings lines).
      * destruct (headings lines) as [|item items] eqn:Hh.
        -- rewrite app_comm_cons, join_snoc. reflexivity.
        -- by rewrite (extend_last_cons (lx, join (u " ") (x :: body lines))
                                          (item :: items)) by done.
    + done.
Qed.

Lemma rep_unfold h lo hi t r :
  rep h lo hi t r <->
  (lo <= r < hi)%nat /\
  exists o, h !! r = Some o /\ level t = o_level o /\ content t = o_content o /\
            Forall2 (rep h lo hi) (children t) (o_children o).
Proof.
  destruct t as [l c ts]. cbn [rep level content children].
  assert (Hreps : forall rs,
    (fix reps (ts : list node) (rs : list nat) {struct ts} : Prop :=
       match ts, rs with
       | [], [] => True
       | t' :: ts', r' :: rs' => rep h lo hi t' r' /\ reps ts' rs'
       | _, _ => False
       end) ts rs <-> Forall2 (rep h lo hi) ts rs).
  { induction ts as [|t ts IH]; intros [|r' rs]; split; try done;
      try (by inversion 1).
    - intros [Ht Hts]. constructor; [done|]. by apply IH.
    - intros [Ht Hts]%Forall2_cons. split; [done|]. by apply IH. }
  split; intros [Hr (o & Ho & Hl & Hc & Hts)]; (split; [done|]);
    exists o; repeat split; try done; by apply Hreps.
Qed.

Lemma rep_stable h h' lo hi t :
  forall r,
    rep h lo hi t r ->
    (forall x, (lo <= x < hi)%nat -> h' !! x = h !! x) ->
    rep h' lo hi t r.
Proof.
  induction t as [l c ts IH] using node_ind; intros r Hrep Hsame.
  apply rep_unfold in Hrep as [Hr (o & Ho & Hl & Hc & Hts)].
  apply rep_unfold. split; [done|]. exists o. rewrite Hsame by done.
  repeat split; try done. cbn [children] in *.
  clear Ho. revert Hts. generalize (o_children o). 
  induction IH as [|t ts Ht _ IHts]; intros rs Hts; inversion Hts; subst;
    constructor; auto.
Qed.

Lemma rep_mono h lo hi lo' hi' t :
  forall r,
    rep h lo hi t r -> (lo' <= lo)%nat -> (hi <= hi')%nat -> rep h lo' hi' t r.
Proof.
  induction t as [l c ts IH] using node_ind; intros r Hrep Hlo Hhi.
  apply rep_unfold in Hrep as [Hr (o & Ho & Hl & Hc & Hts)].
  apply rep_unfold. split; [lia|]. exists o.
  repeat split; try done. cbn [children] in *.
  clear Ho. revert Hts. generalize (o_children o).
  induction IH as [|t ts Ht _ IHts]; intros rs Hts; inversion Hts; subst;
    constructor; auto.
Qed.

Lemma rep_reify h lo hi t :
  forall r fuel t', rep h lo hi t r -> reify fuel h r = Some t' -> t' = t.
Proof.
  induction t as [l c ts IH] using node_ind; intros r fuel t' Hrep Hreify.
  apply rep_unfold in Hrep as [Hr (o & Ho & Hl & Hc & Hts)].
  destruct fuel as [|fuel]; [done|]. cbn [reify] in Hreify.
  rewrite Ho in Hreify. cbn [mbind option_bind] in Hreify.
  destruct (mapM (reify fuel h) (o_children o)) as [cs|] eqn:Hm; [|done].
  cbn [mbind option_bind] in Hreify. injection Hreify as <-.
  cbn [level content children] in *. subst l c. f_equal.
  apply mapM_Some_1 in Hm. clear Ho. revert cs Hts Hm. generalize (o_children o).
  induction IH as [|t ts Ht _ IHts]; intros rs cs Hts Hm;
    inversion Hts; subst; inversion Hm; subst; [done|].
  f_equal; [by eapply Ht|by eapply IHts].
Qed.

Lemma chain_lookup h r path frames :
  chain h r path frames -> (r < length h)%nat.
Proof.
  destruct frames as [|f frames]; [done|]. intros (o & Ho & _).
  by apply lookup_lt_Some in Ho.
Qed.

Lemma chain_rep h frames :
  forall r path,
    chain h r path frames ->
    exists t, plug frames = [t] /\ rep h r (length h) t r.
Proof.
  induction frames as [|f frames IH]; intros r path Hchain; [done|].
  pose proof (chain_lookup _ _ _ _ Hchain) as Hr.
  destruct Hchain as (o & Ho & Hl & Hc & Hpath).
  exists (Node (f_level f) (f_content f) (f_closed f ++ plug frames)).
  split; [done|]. apply rep_unfold. split; [lia|].
  exists o. split; [done|]. split; [done|]. split; [done|].
  change (children (Node (f_level f) (f_content f) (f_closed f ++ plug frames)))
    with (f_closed f ++ plug frames).
  destruct path as [|s path].
  - destruct Hpath as [-> Hclosed]. change (plug []) with (@nil node).
    rewrite app_nil_r.
    eapply Forall2_impl; [exact Hclosed|]. intros t c Ht.
    apply (rep_mono _ _ _ _ _ _ _ Ht); lia.
  - destruct Hpath as (refs & -> & Hrs & Hclosed & Hchain).
    pose proof (chain_lookup _ _ _ _ Hchain) as Hs.
    destruct (IH s path Hchain) as (t & -> & Ht).
    apply Forall2_app.
    + eapply Forall2_impl; [exact Hclosed|]. intros t' c Ht'.
      apply (rep_mono _ _ _ _ _ _ _ Ht'); lia.
    + constructor; [|constructor]. apply (rep_mono _ _ _ _ _ _ _ Ht); lia.
Qed.

Lemma innermost_cons r s path : innermost r (s :: path) = innermost s path.
Proof. unfold innermost. rewrite last_cons. by destruct (last path). Qed.

Lemma innermost_stack (st : list nat) :
  innermost root (rev st) = match st with top :: _ => top | [] => root end.
Proof.
  unfold innermost. destruct st as [|top st]; [done|].
  cbn [rev]. by rewrite last_snoc.
Qed.

Lemma chain_innermost_ge h frames :
  forall r path, chain h r path frames -> (r <= innermost r path)%nat.
Proof.
  induction frames as [|f frames IH]; intros r path Hchain; [done|].
  destruct Hchain as (o & _ & _ & _ & Hpath). destruct path as [|s path]; [done|].
  destruct Hpath as (refs & _ & Hrs & _ & Hchain).
  specialize (IH s path Hchain). rewrite innermost_cons. lia.
Qed.

Lemma Forall2_rep_stable h h' lo hi ts rs :
  Forall2 (rep h lo hi) ts rs ->
  (forall x, (lo <= x < hi)%nat -> h' !! x = h !! x) ->
  Forall2 (rep h' lo hi) ts rs.
Proof.
  intros Hts Hsame. eapply Forall2_impl; [exact Hts|].
  intros t r Ht. by apply (rep_stable h h').
Qed.

(** A line of text added to the innermost open node. *)
Lemma chain_alter_content h g frames :
  (forall o, o_level (g o) = o_level o) ->
  (forall o, o_children (g o) = o_children o) ->
  forall r path,
    chain h r path frames ->
    exists frames0 f o,
      frames = frames0 ++ [f] /\
      h !! innermost r path = Some o /\ f_content f = o_content o /\
      chain (alter g (innermost r path) h) r path
            (frames0 ++ [Frame (f_level f) (o_content (g o)) (f_closed f)]).
Proof.
  intros Hlevel Hchildren.
  induction frames as [|f frames IH]; intros r path Hchain; [done|].
  pose proof (chain_innermost_ge _ _ _ _ Hchain) as Hge.
  destruct Hchain as (o & Ho & Hl & Hc & Hpath). destruct path as [|s path].
  - destruct Hpath as [-> Hclosed]. exists [], f, o.
    change (innermost r []) with r. repeat split; try done.
    exists (g o). rewrite list_lookup_alter_eq, Ho. repeat split; try done.
    + cbn. by rewrite Hlevel.
    + rewrite Hchildren, length_alter.
      apply (Forall2_rep_stable h); [done|].
      intros x Hx. apply list_lookup_alter_ne. lia.
  - destruct Hpath as (refs & Hrefs & Hrs & Hclosed & Hchain).
    pose proof (chain_innermost_ge _ _ _ _ Hchain) as Hges.
    destruct (IH s path Hchain) as (frames0 & f' & o' & -> & Ho' & Hc' & Hchain').
    rewrite innermost_cons in *.
    exists (f :: frames0), f', o'. repeat split; try done.
    exists o. rewrite list_lookup_alter_ne by lia. repeat split; try done.
    exists refs. repeat split; try done.
    apply (Forall2_rep_stable h); [done|].
    intros x Hx. apply list_lookup_alter_ne. lia.
Qed.

(** A new node under the innermost open node. *)
Lemma chain_push h L line frames :
  forall r path,
    chain h r path frames ->
    chain (alter (add_child (length h)) (innermost r path) (h ++ [Obj L line []]))
          r (path ++ [length h]) (frames ++ [Frame L line []]).
Proof.
  induction frames as [|f frames IH]; intros r path Hchain; [done|].
  pose proof (chain_innermost_ge _ _ _ _ Hchain) as Hge.
  pose proof (chain_lookup _ _ _ _ Hchain) as Hr.
  destruct Hchain as (o & Ho & Hl & Hc & Hpath). destruct path as [|s path].
  - destruct Hpath as [-> Hclosed]. change (innermost r []) with r.
    exists (add_child (length h) o).
    rewrite step_heading_lookup by done. rewrite decide_True by done.
    rewrite Ho. repeat split; try done.
    exists (o_children o). repeat split; try done.
    + apply (Forall2_rep_stable h); [done|].
      intros x Hx. rewrite step_heading_lookup by done.
      rewrite decide_False by lia. by rewrite decide_False by lia.
    + exists (Obj L line []). rewrite step_heading_lookup by done.
      rewrite decide_False by lia. rewrite decide_True by done.
      repeat split; try done.
  - destruct Hpath as (refs & Hrefs & Hrs & Hclosed & Hchain).
    pose proof (chain_innermost_ge _ _ _ _ Hchain) as Hges.
    pose proof (chain_lookup _ _ _ _ Hchain) as Hs.
    assert (Hin : (innermost s path < length h)%nat).
    { clear -Hchain. revert s Hchain. generalize frames.
      induction path as [|s' path IHp]; intros fs s Hchain.
      - by apply chain_lookup in Hchain.
      - rewrite innermost_cons. destruct fs as [|f' fs]; [done|].
        destruct Hchain as (o & _ & _ & _ & refs & _ & _ & _ & Hchain).
        by apply (IHp fs). }
    rewrite innermost_cons in *.
    exists o. rewrite step_heading_lookup by done.
    rewrite decide_False by lia. rewrite decide_False by lia.
    repeat split; try done.
    exists refs. repeat split; try done.
    + apply (Forall2_rep_stable h); [done|].
      intros x Hx. rewrite step_heading_lookup by done.
      rewrite decide_False by lia. by rewrite decide_False by lia.
    + by apply IH.
Qed.

Lemma chain_levels h frames :
  forall r path,
    chain h r path frames ->
    Forall2 (fun s f => f_level f = level_of h s) (r :: path) frames.
Proof.
  induction frames as [|f frames IH]; intros r path Hchain; [done|].
  destruct Hchain as (o & Ho & Hl & Hc & Hpath).
  constructor; [unfold level_of; by rewrite Ho|].
  destruct path as [|s path].
  - destruct Hpath as [-> _]. constructor.
  - destruct Hpath as (refs & _ & _ & _ & Hchain). by apply IH.
Qed.

(** The nodes below a cut of the path are closed. *)
Lemma chain_cut h path1 path2 :
  forall r frames,
    chain h r (path1 ++ path2) frames ->
    exists frames1 f frames2,
      frames = frames1 ++ f :: frames2 /\
      Forall2 (fun s f => f_level f = level_of h s) path2 frames2 /\
      chain h r path1
            (frames1 ++ [Frame (f_level f) (f_content f) (f_closed f ++ plug frames2)]).
Proof.
  induction path1 as [|s path1 IH]; intros r frames Hchain.
  - destruct frames as [|f frames2]; [done|].
    exists [], f, frames2. split; [done|].
    pose proof (chain_lookup _ _ _ _ Hchain) as Hr.
    pose proof (chain_levels _ _ _ _ Hchain) as Hlevels.
    apply Forall2_cons in Hlevels as [_ Hlevels]. split; [done|].
    destruct Hchain as (o & Ho & Hl & Hc & Hpath).
    exists o. repeat split; try done. cbn [app] in Hpath.
    destruct path2 as [|s path2].
    + destruct Hpath as [-> Hclosed]. cbn. by rewrite app_nil_r.
    + destruct Hpath as (refs & -> & Hrs & Hclosed & Hchain).
      pose proof (chain_lookup _ _ _ _ Hchain) as Hs.
      destruct (chain_rep _ _ _ _ Hchain) as (t & -> & Ht).
      cbn [f_closed]. apply Forall2_app.
      * eapply Forall2_impl; [exact Hclosed|]. intros t' c Ht'.
        apply (rep_mono _ _ _ _ _ _ _ Ht'); lia.
      * constructor; [|constructor]. apply (rep_mono _ _ _ _ _ _ _ Ht); lia.
  - destruct frames as [|f frames]; [done|].
    destruct Hchain as (o & Ho & Hl & Hc & Hpath). cbn [app] in Hpath.
    destruct Hpath as (refs & Hrefs & Hrs & Hclosed & Hchain).
    destruct (IH s frames Hchain) as (frames1 & f' & frames2 & -> & Hlevels & Hchain').
    exists (f :: frames1), f', frames2. split; [done|]. split; [done|].
    exists o. repeat split; try done. exists refs. by repeat split.
Qed.

Lemma plug_close frames1 l c closed frames2 :
  plug (frames1 ++ [Frame l c (closed ++ plug frames2)]) =
  plug (frames1 ++ Frame l c closed :: frames2).
Proof.
  induction frames1 as [|f frames1 IH]; cbn [app plug f_level f_content f_closed].
  - by rewrite app_nil_r.
  - by rewrite IH.
Qed.

Lemma preorder_plug_snoc frames l c :
  flat_map preorder (plug (frames ++ [Frame l c []])) =
  flat_map preorder (plug frames) ++ [(l, c)].
Proof.
  induction frames as [|f frames IH]; [done|].
  change (plug ((f :: frames) ++ [Frame l c []])) with
    [Node (f_level f) (f_content f) (f_closed f ++ plug (frames ++ [Frame l c []]))].
  change (plug (f :: frames)) with
    [Node (f_level f) (f_content f) (f_closed f ++ plug frames)].
  cbn [flat_map preorder level content children].
  rewrite !app_nil_r, !flat_map_app, IH.
  by rewrite app_comm_cons, app_assoc.
Qed.

Lemma non_increasing_snoc levels x :
  non_increasing (levels ++ [x]) = true <->
  non_increasing levels = true /\ Forall (fun a => (x <= a)%Z) levels.
Proof.
  induction levels as [|a levels IH]; cbn [app non_increasing].
  - split; [by split|done].
  - rewrite !andb_true_iff, forallb_app, andb_true_iff, IH, Forall_cons.
    cbn [forallb]. rewrite andb_true_r, Z.leb_le. tauto.
Qed.

Lemma plug_levels frames :
  map level (plug frames) =
  match frames with [] => [] | f :: _ => [f_level f] end.
Proof. by destruct frames. Qed.

Lemma frames_sorted_plug frames :
  frames_sorted frames -> Forall (fun t => siblings_sorted t = true) (plug frames).
Proof.
  induction frames as [|f frames IH]; [constructor|].
  intros (Hsorted & Hclosed & Hnext & Hrest). specialize (IH Hrest).
  cbn [plug]. constructor; [|constructor].
  cbn [siblings_sorted children]. apply andb_true_iff. split.
  - rewrite map_app, plug_levels. destruct frames as [|f' frames].
    + by rewrite app_nil_r.
    + apply non_increasing_snoc. split; [done|]. by apply List.Forall_map.
  - apply forallb_forall. intros t Ht%list_elem_of_In.
    apply elem_of_app in Ht as [Ht|Ht].
    + by apply (proj1 (Forall_forall _ _) Hclosed).
    + by apply (proj1 (Forall_forall _ _) IH).
Qed.

Lemma frames_sorted_cut frames1 f frames2 :
  frames_sorted (frames1 ++ f :: frames2) ->
  frames_sorted
    (frames1 ++ [Frame (f_level f) (f_content f) (f_closed f ++ plug frames2)]).
Proof.
  induction frames1 as [|f1 frames1 IH].
  - intros (Hsorted & Hclosed & Hnext & Hrest). cbn [app frames_sorted f_closed].
    pose proof (frames_sorted_plug _ Hrest) as Hplug.
    repeat split; try done.
    + rewrite map_app, plug_levels. destruct frames2 as [|f2 frames2].
      * by rewrite app_nil_r.
      * apply non_increasing_snoc. split; [done|]. by apply List.Forall_map.
    + by apply Forall_app.
  - intros (Hsorted & Hclosed & Hnext & Hrest). specialize (IH Hrest).
    cbn [app]. cbn [frames_sorted]. repeat split; try done.
    destruct frames1 as [|f1' frames1]; exact Hnext.
Qed.

Lemma frames_sorted_push frames1 f L line :
  frames_sorted (frames1 ++ [f]) ->
  Forall (fun t => (L <= level t)%Z) (f_closed f) ->
  frames_sorted ((frames1 ++ [f]) ++ [Frame L line []]).
Proof.
  intros Hframes Hf. induction frames1 as [|f1 frames1 IH].
  - destruct Hframes as (Hsorted & Hclosed & _ & _). cbn. by repeat split.
  - destruct Hframes as (Hsorted & Hclosed & Hnext & Hrest). specialize (IH Hrest).
    cbn [app]. cbn [frames_sorted]. repeat split; try done.
    destruct frames1 as [|f1' frames1]; exact Hnext.
Qed.

Lemma frames_sorted_content frames0 l c c' closed :
  frames_sorted (frames0 ++ [Frame l c closed]) ->
  frames_sorted (frames0 ++ [Frame l c' closed]).
Proof.
  induction frames0 as [|f frames0 IH]; [done|].
  intros (Hsorted & Hclosed & Hnext & Hrest). specialize (IH Hrest).
  cbn [app]. cbn [frames_sorted]. repeat split; try done.
  destruct frames0 as [|f' frames0]; exact Hnext.
Qed.

(** The closed children of a frame are no shallower than the frame after
    it. *)
Lemma frames_sorted_next frames1 f f2 frames2 :
  frames_sorted (frames1 ++ f :: f2 :: frames2) ->
  Forall (fun t => (f_level f2 <= level t)%Z) (f_closed f).
Proof.
  induction frames1 as [|f1 frames1 IH].
  - by intros (_ & _ & Hnext & _).
  - intros (_ & _ & _ & Hrest). by apply IH.
Qed.

Lemma classify_nil : classify [] = None.
Proof. by vm_compute. Qed.

Lemma join_nonempty sep p ps : p <> [] -> join sep (p :: ps) <> [].
Proof. destruct p as [|c p]; [done|]. by destruct ps. Qed.

Lemma headings_content lines :
  Forall (fun item => item.2 <> []) (headings lines).
Proof.
  induction lines as [|line lines IH]; cbn [headings]; [constructor|].
  destruct (classify line) eqn:Hclass; [|done].
  constructor; [|done]. cbn [snd]. apply join_nonempty.
  intros ->. by rewrite classify_nil in Hclass.
Qed.

Lemma build_snoc lines line : build (lines ++ [line]) = step (build lines) line.
Proof. unfold build. by rewrite fold_left_app. Qed.

(** The builder after any number of lines: the open nodes form a chain of
    frames whose tree lists the headings read so far. *)
Lemma build_frames lines :
  exists frames0 l c,
    chain (heap (build lines)) root (rev (stack (build lines)))
          (frames0 ++ [Frame l c []]) /\
    frames_sorted (frames0 ++ [Frame l c []]) /\
    flat_map preorder (plug (frames0 ++ [Frame l c []])) =
      ((-1)%Z, []) :: headings lines /\
    non_saved_lines (build lines) = body lines /\
    (stack (build lines) = [] <-> headings lines = []).
Proof.
  induction lines as [|line lines IH] using rev_ind.
  - exists [], (-1)%Z, []. repeat split; try done.
    exists (Obj (-1) [] []). repeat split; try done.
  - destruct IH as (frames0 & l & c & Hchain & Hsorted & Hpre & Hbody & Hempty).
    pose proof (build_ok lines) as Hb.
    rewrite build_snoc, headings_snoc, body_snoc.
    set (b := build lines) in *. unfold step.
    destruct (classify line) as [L|] eqn:Hclass.
    + cbn [heap stack non_saved_lines].
      destruct (pop_closed_spec (heap b) L (stack b)) as (closed & Hst & Hclosed & _);
        [intros r Hr; by apply (ok_stack _ Hb)|apply (ok_sorted _ Hb)|].
      set (kept := pop_closed (heap b) L (stack b)) in *.
      assert (Hrev : rev (stack b) = rev kept ++ rev closed).
      { rewrite Hst at 1. apply rev_app_distr. }
      rewrite Hrev in Hchain.
      apply chain_cut in Hchain as (frames1 & f & frames2 & Hframes & Hlevels & Hchain).
      apply (chain_push _ L line) in Hchain.
      rewrite innermost_stack in Hchain.
      eexists _, L, line. split; [exact Hchain|].
      split.
      { apply frames_sorted_push.
        - apply frames_sorted_cut. by rewrite <- Hframes.
        - cbn [f_closed]. destruct frames2 as [|f2 frames2].
          + apply app_inj_tail in Hframes as [_ <-]. constructor.
          + rewrite Hframes in Hsorted. apply frames_sorted_next in Hsorted.
            assert (HL : (L <= f_level f2)%Z).
            { destruct (rev closed) as [|s path2] eqn:Hpath2; [by inversion Hlevels|].
              apply Forall2_cons in Hlevels as [-> _]. apply Hclosed.
              apply list_elem_of_In, in_rev. rewrite Hpath2. by left. }
            apply Forall_app. split.
            * eapply Forall_impl; [exact Hsorted|]. intros t Ht. cbn beta in Ht. lia.
            * cbn [plug]. by repeat constructor. }
      rewrite preorder_plug_snoc, plug_close.
      destruct f as [fl fc fclosed]. cbn [f_level f_content f_closed].
      rewrite <- Hframes, Hpre. split; [done|].
      split; [by destruct (headings lines)|].
      split; [done|]. by destruct (headings lines).
    + destruct (stack b) as [|top below] eqn:Hstack.
      * cbn [heap stack non_saved_lines].
        destruct Hempty as [Hnil _]. rewrite Hnil in * by done.
        exists frames0, l, c. repeat split; try done. by rewrite Hbody.
      * cbn [heap stack non_saved_lines].
        assert (Hne : headings lines <> []).
        { intros Hnil. by apply Hempty in Hnil. }
        destruct (chain_alter_content _ (add_text line) _
                    ltac:(intros o; unfold add_text; by destruct (o_content o))
                    ltac:(intros o; unfold add_text; by destruct (o_content o))
                    _ _ Hchain) as (frames0' & f & o & Hf & Ho & Hc & Hchain').
        apply app_inj_tail in Hf as [<- <-].
        change (top :: below) with (stack (Builder [] (top :: below) [])) in Hchain'.
        rewrite innermost_stack in Hchain'. cbn [stack] in Hchain'.
        cbn [f_level f_content f_closed] in *.
        destruct (headings lines) as [|item items] eqn:Hh using rev_ind; [done|].
        clear IHitems. destruct item as [l' c'].
        rewrite preorder_plug_snoc in Hpre.
        rewrite app_comm_cons in Hpre. apply app_inj_tail in Hpre as [Hpre [= <- <-]].
        pose proof (headings_content lines) as Hcontent.
        rewrite Hh in Hcontent.
        apply Forall_app in Hcontent as [_ Hcontent].
        apply Forall_inv in Hcontent. cbn [snd] in Hcontent.
        assert (Hadd : o_content (add_text line o) = c ++ u " " ++ line).
        { unfold add_text. rewrite <- Hc. by destruct c. }
        rewrite Hadd in Hchain'.
        eexists frames0, l, _. split; [exact Hchain'|].
        split; [by apply (frames_sorted_content _ _ c)|].
        rewrite preorder_plug_snoc, Hpre, extend_last_snoc.
        split; [done|]. split; [by destruct items|].
        split; [done|]. by destruct items.
Qed.

Lemma extend_last_length items line :
  length (extend_last items line) = length items.
Proof.
  destruct items as [|item items] using rev_ind; [done|].
  destruct item as [l c]. by rewrite extend_last_snoc, !length_app.
Qed.

(** One heap cell for the root and one for every heading read. *)
Lemma build_length lines :
  length (heap (build lines)) = S (length (headings lines)).
Proof.
  induction lines as [|line lines IH] using rev_ind; [done|].
  rewrite build_snoc, headings_snoc. unfold step.
  destruct (classify line) as [L|].
  - cbn [heap]. rewrite length_alter, !length_app, IH. cbn [length]. lia.
  - rewrite extend_last_length.
    destruct (stack (build lines)) as [|top below]; cbn [heap]; [done|].
    by rewrite length_alter.
Qed.

(** Every cell but the root is a child of an earlier cell. *)
Lemma build_attached lines :
  forall c, (0 < c < length (heap (build lines)))%nat ->
    exists p P, (p < c)%nat /\ heap (build lines) !! p = Some P /\ c ∈ o_children P.
Proof.
  induction lines as [|line lines IH] using rev_ind.
  { intros c Hc. cbn in Hc. lia. }
  pose proof (build_ok lines) as Hb. rewrite build_snoc.
  set (b := build lines) in *. unfold step.
  destruct (classify line) as [L|] eqn:Hclass.
  - cbn [heap].
    destruct (pop_closed_spec (heap b) L (stack b)) as (closed & Hst & _ & _);
      [intros r Hr; by apply (ok_stack b Hb)|apply (ok_sorted b Hb)|].
    set (kept := pop_closed (heap b) L (stack b)) in *.
    set (parent := match kept with top :: _ => top | [] => root end).
    assert (Hparent : (parent < length (heap b))%nat).
    { unfold parent. destruct kept as [|top ?] eqn:Hk.
      - destruct (ok_root b Hb) as (o & Ho & _). by apply lookup_lt_Some in Ho.
      - apply (ok_stack b Hb). rewrite Hst. apply elem_of_app. right. left. }
    destruct (lookup_lt_is_Some_2 _ _ Hparent) as [P0 HP0].
    intros c Hc. rewrite length_alter, length_app in Hc. cbn [length] in Hc.
    destruct (decide (c = length (heap b))) as [->|Hne].
    + exists parent, (add_child (length (heap b)) P0).
      split; [done|]. rewrite step_heading_lookup by done.
      rewrite decide_True by done. rewrite HP0. split; [done|].
      cbn [add_child o_children]. apply elem_of_app. right. left.
    + destruct (IH c) as (p & P & Hp & HP & Hin); [lia|].
      destruct (decide (p = parent)) as [->|Hpp].
      * exists parent, (add_child (length (heap b)) P).
        split; [done|]. rewrite step_heading_lookup by done.
        rewrite decide_True by done. rewrite HP. split; [done|].
        cbn [add_child o_children]. apply elem_of_app. by left.
      * exists p, P. split; [done|]. rewrite step_heading_lookup by done.
        rewrite decide_False by done. rewrite decide_False by lia. done.
  - destruct (stack b) as [|top below]; cbn [heap]; [exact IH|].
    intros c Hc. rewrite length_alter in Hc.
    destruct (IH c Hc) as (p & P & Hp & HP & Hin).
    destruct (decide (p = top)) as [->|Hpt].
    + exists top, (add_text line P). split; [done|].
      rewrite list_lookup_alter_eq, HP. split; [done|].
      unfold add_text. by destruct (o_content P).
    + exists p, P. split; [done|]. by rewrite list_lookup_alter_ne.
Qed.

(** The tree read off the heap has a node for every cell. *)
Lemma reify_build_nodes lines t :
  reify (length (heap (build lines))) (heap (build lines)) root = Some t ->
  preorder t = ((-1)%Z, []) :: headings lines.
Proof.
  intros Hr.
  destruct (build_frames lines) as (frames0 & l & c & Hchain & _ & Hpre & _).
  apply chain_rep in Hchain as (t' & Hplug & Hrep).
  rewrite (rep_reify _ _ _ _ _ _ _ Hrep Hr).
  rewrite Hplug in Hpre. cbn [flat_map] in Hpre. by rewrite app_nil_r in Hpre.
Qed.

(** ** The title *)

Lemma find_title_from_spec lines rest :
  forall i,
    match find_title_from lines i rest with
    | Some title =>
        exists k line,
          rest !! k = Some line /\ has_keyword line = true /\
          (forall j l, (j < k)%nat -> rest !! j = Some l -> has_keyword l = false) /\
          title = match lines !! S (i + k) with
                  | Some next => line ++ u " " ++ next
                  | None => line
                  end
    | None => Forall (fun line => has_keyword line = false) rest
    end.
Proof.
  induction rest as [|line rest IH]; intros i; cbn [find_title_from]; [constructor|].
  destruct (has_keyword line) eqn:Hkw.
  - assert (Hshape : exists title,
      match lines !! S i with
      | Some next => Some (line ++ u " " ++ next)
      | None => Some line
      end = Some title /\
      title = match lines !! S (i + 0) with
              | Some next => line ++ u " " ++ next
              | None => line
              end).
    { rewrite Nat.add_0_r. destruct (lines !! S i); by eexists. }
    destruct Hshape as (title & -> & Htitle).
    exists O, line. repeat split; [done| |done]. intros j l Hj. lia.
  - specialize (IH (S i)). destruct (find_title_from lines (S i) rest) as [title|].
    + destruct IH as (k & line' & Hk & Hkw' & Hbefore & Htitle).
      exists (S k), line'. repeat split; [done|done| |].
      * intros [|j] l Hj Hl; [by injection Hl as <-|].
        apply (Hbefore j l); [lia|done].
      * by replace (i + S k)%nat with (S i + k)%nat by lia.
    + by constructor.
Qed.

Lemma has_keyword_nil : has_keyword [] = false.
Proof. by vm_compute. Qed.

(** The first line with a keyword among the first twenty gives the title. *)
Lemma find_title_first lines i line :
  (i < 20)%nat -> lines !! i = Some line -> has_keyword line = true ->
  (forall j l, (j < i)%nat -> lines !! j = Some l -> has_keyword l = false) ->
  find_title lines = Some (match lines !! S i with
                           | Some next => line ++ u " " ++ next
                           | None => line
                           end).
Proof.
  intros Hi Hline Hkw Hbefore.
  pose proof (find_title_from_spec lines (take 20 lines) 0) as Hspec.
  fold (find_title lines) in Hspec.
  assert (Hrest : take 20 lines !! i = Some line).
  { apply lookup_take_Some. by split. }
  destruct (find_title lines) as [title|].
  - destruct Hspec as (k & line' & Hk & Hkw' & Hbefore' & ->).
    destruct (lt_eq_lt_dec k i) as [[Hlt| ->]|Hgt].
    + apply lookup_take_Some in Hk as [Hk _].
      rewrite (Hbefore k line' Hlt Hk) in Hkw'. done.
    + rewrite Hrest in Hk. by injection Hk as <-.
    + rewrite (Hbefore' i line Hgt Hrest) in Hkw. done.
  - rewrite Forall_forall in Hspec.
    rewrite (Hspec line) in Hkw; [done|]. by apply list_elem_of_lookup_2 in Hrest.
Qed.

Lemma startswith_app needle rest : startswith needle (needle ++ rest) = true.
Proof.
  induction needle as [|c needle IH]; [done|].
  cbn [app startswith]. by rewrite N.eqb_refl, IH.
Qed.

Lemma contains_app needle before after :
  contains needle (before ++ needle ++ after) = true.
Proof.
  induction before as [|c before IH].
  - cbn [app]. destruct (needle ++ after) eqn:Heq;
      cbn [contains]; rewrite <- Heq, startswith_app; done.
  - cbn [app contains]. rewrite IH. apply orb_true_r.
Qed.

(** * The claims *)

(** C1 (coverage).  For every tree, the normalized content of every node,
    the root title included, is a line of some final chunk;
    [create_chunks_from_tree] returns the output records of the final chunks
    and never takes the branch that raises for missing nodes. *)
Theorem coverage count_tokens model_name max_token tree source_file_path :
  let root_node := Node (-1) (ten_van_ban tree) (tree_content tree) in
  let final := final_chunks count_tokens model_name max_token
                            (ten_van_ban tree) (tree_content tree) in
  (forall n, subnode n root_node ->
     exists c, c ∈ final /\ ensure_punctuation (content n) ∈ chunk_content c) /\
  create_chunks_from_tree count_tokens model_name max_token tree source_file_path
    = Return (map (to_output source_file_path) final) /\
  forall n missing,
    create_chunks_from_tree count_tokens model_name max_token tree source_file_path
      <> ValueError n missing.
Proof.
  intros root_node final. split; [|split].
  - intros n Hn. by apply final_chunks_cover.
  - apply create_chunks_from_tree_returns.
  - intros n missing. by rewrite create_chunks_from_tree_returns.
Qed.

(** C2 (budget).  Whatever the budget and the sequence of path-chunks, a
    chunk that the merge loop emits has a stored token length within the
    budget, unless it is one of the path-chunks, emitted as it is, whose own
    token length exceeds the budget. *)
Theorem budget count_tokens model_name max_token all_chunks c :
  c ∈ merge_chunks count_tokens model_name max_token all_chunks ->
  (Z.of_nat (token_length c) <= max_token)%Z \/
  (c ∈ all_chunks /\ (max_token < Z.of_nat (token_length c))%Z).
Proof.
  revert c.
  induction all_chunks as [|first rest IH]
    using (merge_chunks_ind count_tokens model_name max_token).
  { intros c Hc. rewrite merge_chunks_nil in Hc. by apply elem_of_nil in Hc. }
  intros c Hc. rewrite merge_chunks_cons in Hc.
  apply elem_of_cons in Hc as [->|Hc].
  - destruct (absorb_budget count_tokens model_name max_token rest first)
      as [->|Hle]; [|by left].
    destruct (Z.le_gt_cases (Z.of_nat (token_length first)) max_token);
      [by left|right]. split; [left|done].
  - destruct (IH c Hc) as [Hle|[Hin Hgt]]; [by left|right].
    split; [|done]. right.
    destruct (absorb_suffix count_tokens model_name max_token rest first)
      as [absorbed ->].
    apply elem_of_app. by right.
Qed.

Lemma budget_witness :
  let oversized := Chunk [u "Luật X."; u "Điều 1."] 14 in
  oversized ∈ merge_chunks code_points MODEL_NAME 10 [oversized] /\
  ((Z.of_nat (token_length oversized) <= 10)%Z \/
   (oversized ∈ [oversized] /\ (10 < Z.of_nat (token_length oversized))%Z)).
Proof.
  intros oversized.
  assert (H : oversized ∈ merge_chunks code_points MODEL_NAME 10 [oversized]).
  { vm_compute. left. }
  split; [exact H|].
  exact (budget code_points MODEL_NAME 10 [oversized] oversized H).
Defined.

(** C3, as stated, fails: a candidate all of whose lines are already in the
    accumulator is appended whole, so the merged sequence repeats them, and
    the doubled trial can exceed a budget that the accumulator alone meets,
    in which case the candidate is not absorbed. *)
Lemma repeat_candidate_duplicated :
  let cur := Chunk [u "Luật 1. a."; u "1. a."] 15 in
  let nxt := Chunk [u "Luật 1. a."; u "1. a."] 15 in
  let twice := [u "Luật 1. a."; u "1. a."; u "Luật 1. a."; u "1. a."] in
  (forall line, line ∈ chunk_content nxt -> line ∈ chunk_content cur) /\
  merge_lines (chunk_content cur) (chunk_content nxt) = twice /\
  merge_lines (chunk_content cur) (chunk_content nxt) <> chunk_content cur /\
  absorb code_points MODEL_NAME 800 cur [nxt] = (Chunk twice 30, []) /\
  absorb code_points MODEL_NAME 20 cur [nxt] = (cur, [nxt]) /\
  (let tree := TreeData (u "Luật 1. a") false [u "Luật"]
                        [Node 12 (u "1. a") []; Node 12 (u "1. a") []] in
   parse_legal_document_to_dict [u "Luật"; u "1. a"; u "1. a"] = Some tree /\
   final_chunks code_points MODEL_NAME 800 (ten_van_ban tree) (tree_content tree)
     = [Chunk twice 30]).
Proof.
  repeat split; try (vm_compute; reflexivity); try done.
Qed.

(** C3, amended.  When every line of the candidate already occurs in the
    accumulator, the trial is the accumulator's lines followed by all the
    lines of the candidate; the candidate is absorbed, and the traversal
    moves past it, exactly when the token count of that trial is within the
    budget. *)
Theorem repeat_candidate count_tokens model_name max_token cur nxt rest :
  (forall line, line ∈ chunk_content nxt -> line ∈ chunk_content cur) ->
  merge_lines (chunk_content cur) (chunk_content nxt)
    = chunk_content cur ++ chunk_content nxt /\
  let merged_lines :=
    map ensure_punctuation (chunk_content cur ++ chunk_content nxt) in
  let merged_tokens := count_tokens (join [] merged_lines) model_name in
  absorb count_tokens model_name max_token cur (nxt :: rest) =
  if (Z.of_nat merged_tokens <=? max_token)%Z
  then absorb count_tokens model_name max_token (Chunk merged_lines merged_tokens) rest
  else (cur, nxt :: rest).
Proof.
  intros Hrepeat.
  assert (Hm : merge_lines (chunk_content cur) (chunk_content nxt)
               = chunk_content cur ++ chunk_content nxt).
  { unfold merge_lines, first_new_line. rewrite find_index_None_2; [done|].
    intros line Hline. apply negb_false_iff, bool_decide_eq_true. auto. }
  split; [done|]. cbn [absorb]. by rewrite Hm.
Qed.

Lemma repeat_candidate_witness :
  let cur := Chunk [u "Luật 1. a."; u "1. a."] 15 in
  (forall line, line ∈ chunk_content cur -> line ∈ chunk_content cur) /\
  merge_lines (chunk_content cur) (chunk_content cur)
    = chunk_content cur ++ chunk_content cur.
Proof.
  intros cur. split; [done|].
  exact (proj1 (repeat_candidate code_points MODEL_NAME 20 cur cur []
                  (fun line H => H))).
Defined.

(** C4.  The stored token length of every final chunk is the tokenizer's
    count of its lines joined by nothing, not of the content that is
    emitted: the document of the two lines "Luật" and "1. a" yields one
    chunk whose content is the lines joined by spaces, while its token
    length is the count of the same lines without the space. *)
Theorem token_length_of_unseparated_text count_tokens model_name max_token source :
  (forall root_title nodes c,
     c ∈ final_chunks count_tokens model_name max_token root_title nodes ->
     token_length c = count_tokens (join [] (chunk_content c)) model_name) /\
  process_document count_tokens model_name max_token [u "Luật"; u "1. a"] source
  = Some (Return [OutputChunk source []
                    (count_tokens (u "Luật 1. a.1. a.") model_name)
                    (u "Luật 1. a. 1. a.")]).
Proof.
  split.
  - intros root_title nodes c. rewrite final_chunks_path_chunks.
    pose proof (merge_chunks_counted count_tokens model_name max_token
                  (path_chunks count_tokens model_name []
                               (Node (-1) root_title nodes))) as Hall.
    rewrite !Forall_forall in Hall. apply Hall.
    intros p Hp. by eapply path_chunks_tokens.
  - unfold process_document.
    assert (Hp : parse_legal_document_to_dict [u "Luật"; u "1. a"]
                 = Some (TreeData (u "Luật 1. a") false [u "Luật"]
                                  [Node 12 (u "1. a") []])) by reflexivity.
    rewrite Hp. cbn [mbind option_bind].
    rewrite create_chunks_from_tree_returns. reflexivity.
Qed.

(** C5, as stated, fails: the empty document yields one chunk, not none. *)
Lemma empty_input_one_chunk :
  process_document code_points MODEL_NAME MAX_TOKEN [] (u "a.txt")
    = Some (Return [OutputChunk (u "a.txt") [] 15 (u "Không xác định.")]) /\
  process_document code_points MODEL_NAME MAX_TOKEN [] (u "a.txt")
    <> Some (Return []).
Proof. split; [|intros H]; by vm_compute in *. Qed.

(** C5, amended.  On the empty line sequence the parser returns the tree
    with no node and the title "Không xác định", and the pipeline raises
    nothing and emits exactly one chunk, whose content is that title with a
    period. *)
Theorem empty_input count_tokens model_name max_token source :
  parse_legal_document_to_dict [] = Some (TreeData unknown_title false [] []) /\
  process_document count_tokens model_name max_token [] source
  = Some (Return [OutputChunk source []
                    (count_tokens (u "Không xác định.") model_name)
                    (u "Không xác định.")]).
Proof.
  split; [reflexivity|]. unfold process_document.
  change (parse_legal_document_to_dict [])
    with (Some (TreeData unknown_title false [] [])).
  cbn [mbind option_bind]. rewrite create_chunks_from_tree_returns. reflexivity.
Qed.

(** C6, as stated, fails: on these five lines the title takes the line
    after it, "Luật X" itself stays out of the tree, and "A" and "B" are body
    text of the two "Điều 1" headings. *)
Lemma example_1_as_parsed :
  let lines := map u ["Luật X"; "Điều 1"; "A"; "Điều 1"; "B"] in
  let tree := TreeData (u "Luật X Điều 1") false [u "Luật X"]
                [Node 5 (u "Điều 1 A") []; Node 5 (u "Điều 1 B") []] in
  parse_legal_document_to_dict lines = Some tree /\
  map chunk_content
      (all_chunks code_points MODEL_NAME (ten_van_ban tree) (tree_content tree))
    = [[u "Luật X Điều 1."; u "Điều 1 A."]; [u "Luật X Điều 1."; u "Điều 1 B."]] /\
  map chunk_content
      (all_chunks code_points MODEL_NAME (ten_van_ban tree) (tree_content tree))
    <> [[u "Luật X."; u "Điều 1."; u "A."]; [u "Luật X."; u "Điều 1."; u "B."]] /\
  process_document code_points MODEL_NAME MAX_TOKEN lines (u "a.txt")
    = Some (Return [OutputChunk (u "a.txt") [] 32
                      (u "Luật X Điều 1. Điều 1 A. Điều 1 B.")]) /\
  process_document code_points MODEL_NAME MAX_TOKEN lines (u "a.txt")
    <> Some (Return [OutputChunk (u "a.txt") [] 18 (u "Luật X. Điều 1. A. B.")]).
Proof. repeat split; try (vm_compute; reflexivity); by vm_compute. Qed.

(** C6, amended.  For the lines "Luật X", "Điều 1", "A", "Điều 1", "B" the
    parser returns the title "Luật X Điều 1" and the two Article leaves
    "Điều 1 A" and "Điều 1 B"; the path-chunks are
    ["Luật X Điều 1.", "Điều 1 A."] and ["Luật X Điều 1.", "Điều 1 B."], and
    within budget the merged content is "Luật X Điều 1. Điều 1 A. Điều 1 B.".
    The chunks of the claim are those of the tree titled "Luật X" whose
    Article "Điều 1" has the leaves "A" and "B": its path-chunks are
    ["Luật X.", "Điều 1.", "A."] and ["Luật X.", "Điều 1.", "B."], and within
    budget the merged content is "Luật X. Điều 1. A. B.". *)
Theorem example_1 count_tokens model_name max_token source :
  let lines := map u ["Luật X"; "Điều 1"; "A"; "Điều 1"; "B"] in
  let tree := TreeData (u "Luật X Điều 1") false [u "Luật X"]
                [Node 5 (u "Điều 1 A") []; Node 5 (u "Điều 1 B") []] in
  let example := TreeData (u "Luật X") false []
                   [Node 5 (u "Điều 1") [Node 6 (u "A") []; Node 6 (u "B") []]] in
  (Z.of_nat (count_tokens (u "Luật X Điều 1.Điều 1 A.Điều 1 B.") model_name)
     <= max_token)%Z ->
  (Z.of_nat (count_tokens (u "Luật X.Điều 1.A.B.") model_name) <= max_token)%Z ->
  (parse_legal_document_to_dict lines = Some tree /\
   map chunk_content
       (all_chunks count_tokens model_name (ten_van_ban tree) (tree_content tree))
     = [[u "Luật X Điều 1."; u "Điều 1 A."]; [u "Luật X Điều 1."; u "Điều 1 B."]] /\
   process_document count_tokens model_name max_token lines source
     = Some (Return [OutputChunk source []
                       (count_tokens (u "Luật X Điều 1.Điều 1 A.Điều 1 B.") model_name)
                       (u "Luật X Điều 1. Điều 1 A. Điều 1 B.")])) /\
  (map chunk_content
       (all_chunks count_tokens model_name (ten_van_ban example) (tree_content example))
     = [[u "Luật X."; u "Điều 1."; u "A."]; [u "Luật X."; u "Điều 1."; u "B."]] /\
   create_chunks_from_tree count_tokens model_name max_token example source
     = Return [OutputChunk source []
                 (count_tokens (u "Luật X.Điều 1.A.B.") model_name)
                 (u "Luật X. Điều 1. A. B.")]).
Proof.
  intros lines tree example Hfit1 Hfit2.
  assert (Hp : parse_legal_document_to_dict lines = Some tree) by reflexivity.
  repeat split; try reflexivity.
  - unfold process_document. rewrite Hp. cbn [mbind option_bind].
    rewrite create_chunks_from_tree_returns. do 2 f_equal.
    unfold final_chunks.
    change (all_chunks count_tokens model_name (ten_van_ban tree) (tree_content tree))
      with [Chunk [u "Luật X Điều 1."; u "Điều 1 A."]
                  (count_tokens (u "Luật X Điều 1.Điều 1 A.") model_name);
            Chunk [u "Luật X Điều 1."; u "Điều 1 B."]
                  (count_tokens (u "Luật X Điều 1.Điều 1 B.") model_name)].
    rewrite merge_chunks_cons, absorb_fits; [reflexivity|exact Hfit1].
  - rewrite create_chunks_from_tree_returns. f_equal.
    unfold final_chunks.
    change (all_chunks count_tokens model_name (ten_van_ban example) (tree_content example))
      with [Chunk [u "Luật X."; u "Điều 1."; u "A."]
                  (count_tokens (u "Luật X.Điều 1.A.") model_name);
            Chunk [u "Luật X."; u "Điều 1."; u "B."]
                  (count_tokens (u "Luật X.Điều 1.B.") model_name)].
    rewrite merge_chunks_cons, absorb_fits; [reflexivity|exact Hfit2].
Qed.

Lemma example_1_witness :
  (Z.of_nat (code_points (u "Luật X Điều 1.Điều 1 A.Điều 1 B.") MODEL_NAME)
     <= MAX_TOKEN)%Z /\
  (Z.of_nat (code_points (u "Luật X.Điều 1.A.B.") MODEL_NAME) <= MAX_TOKEN)%Z /\
  process_document code_points MODEL_NAME MAX_TOKEN
      (map u ["Luật X"; "Điều 1"; "A"; "Điều 1"; "B"]) (u "a.txt")
    = Some (Return [OutputChunk (u "a.txt") []
                      (code_points (u "Luật X Điều 1.Điều 1 A.Điều 1 B.") MODEL_NAME)
                      (u "Luật X Điều 1. Điều 1 A. Điều 1 B.")]).
Proof.
  assert (H1 : (Z.of_nat (code_points (u "Luật X Điều 1.Điều 1 A.Điều 1 B.") MODEL_NAME)
                <= MAX_TOKEN)%Z) by (vm_compute; discriminate).
  assert (H2 : (Z.of_nat (code_points (u "Luật X.Điều 1.A.B.") MODEL_NAME)
                <= MAX_TOKEN)%Z) by (vm_compute; discriminate).
  split; [exact H1|]. split; [exact H2|].
  exact (proj2 (proj2 (proj1
           (example_1 code_points MODEL_NAME MAX_TOKEN (u "a.txt") H1 H2)))).
Defined.

(** C7 (depth ordering).  In the heap that the builder leaves, every
    child is strictly deeper than its parent, the root having level -1, and
    every cell but the root is attached: it is in the children of an earlier
    cell.  The tree read off the heap, which is the tree the parser returns,
    has a node for every cell and is ordered in the same way.  When a line
    classified at level [L] arrives, the entries popped off the stack are
    those of level at least [L], the entries kept are all of level below
    [L], and the new node, a fresh cell of level [L] with the line as its
    content and no child, becomes the last child of the top of what is kept,
    or of the root when nothing is kept, and the new top of the stack; no
    other cell changes. *)
Theorem depth_ordering lines :
  let b := build lines in
  (forall p P c N,
     heap b !! p = Some P -> c ∈ o_children P -> heap b !! c = Some N ->
     (o_level P < o_level N)%Z) /\
  (exists r, heap b !! root = Some r /\ o_level r = (-1)%Z) /\
  (forall c, (0 < c < length (heap b))%nat ->
     exists p P, (p < c)%nat /\ heap b !! p = Some P /\ c ∈ o_children P) /\
  (exists t, reify (length (heap b)) (heap b) root = Some t /\
             level t = (-1)%Z /\ ordered t = true /\
             length (preorder t) = length (heap b)) /\
  (forall tree, parse_legal_document_to_dict lines = Some tree ->
     ordered (Node (-1) [] (tree_content tree)) = true) /\
  (forall line L, classify line = Some L ->
     let kept := pop_closed (heap b) L (stack b) in
     let parent := match kept with top :: _ => top | [] => root end in
     let new_node := length (heap b) in
     (exists closed, stack b = closed ++ kept /\
        forall r, r ∈ closed -> (L <= level_of (heap b) r)%Z) /\
     (forall r, r ∈ kept -> (level_of (heap b) r < L)%Z) /\
     stack (step b line) = new_node :: kept /\
     length (heap (step b line)) = S new_node /\
     heap (step b line) !! new_node = Some (Obj L line []) /\
     (exists P, heap b !! parent = Some P /\
                heap (step b line) !! parent
                = Some (Obj (o_level P) (o_content P) (o_children P ++ [new_node]))) /\
     (forall q, q <> parent -> (q < new_node)%nat ->
                heap (step b line) !! q = heap b !! q)).
Proof.
  intros b. pose proof (build_ok lines) as Hb. fold b in Hb.
  split; [|split; [|split; [|split; [|split]]]].
  - intros p P c N HP Hc HN.
    destruct (ok_children b Hb p P c HP Hc) as (_ & N' & HN' & Hlt).
    rewrite HN in HN'. by injection HN' as <-.
  - apply (ok_root b Hb).
  - apply build_attached.
  - destruct (reify_build lines) as (t & Ht & Hl & Hord). fold b in Ht.
    exists t. repeat split; try done.
    rewrite (reify_build_nodes lines t Ht). unfold b. rewrite build_length. done.
  - intros tree. unfold parse_legal_document_to_dict.
    destruct (reify_build (match appendix_start_index lines with
                           | Some k => take k lines | None => lines end))
      as (r & -> & Hl & Hord).
    cbn [mbind option_bind]. intros [= <-]. cbn [tree_content children].
    destruct r as [l t cs]. cbn [level] in Hl. by subst l.
  - intros line L Hclass kept parent new_node.
    destruct (pop_closed_spec (heap b) L (stack b)) as (closed & Hst & Hclosed & Hkept);
      [intros r Hr; by apply (ok_stack b Hb)|apply (ok_sorted b Hb)|].
    assert (Hparent : (parent < length (heap b))%nat).
    { unfold parent. destruct kept as [|top ?] eqn:Hk.
      - destruct (ok_root b Hb) as (o & Ho & _). by apply lookup_lt_Some in Ho.
      - apply (ok_stack b Hb). rewrite Hst. apply elem_of_app. right.
        fold kept. rewrite Hk. left. }
    split; [by exists closed|]. split; [done|].
    unfold step. rewrite Hclass. cbn [stack heap]. split; [done|].
    fold kept. fold parent. split.
    { rewrite length_alter, length_app. cbn [length]. unfold new_node. lia. }
    split; [|split].
    + rewrite step_heading_lookup by done.
      destruct (decide (new_node = parent)); [unfold new_node in *; lia|].
      by rewrite decide_True.
    + destruct (lookup_lt_is_Some_2 _ _ Hparent) as [P HP].
      exists P. split; [done|]. rewrite step_heading_lookup by done.
      rewrite decide_True by done. by rewrite HP.
    + intros q Hq Hlt. rewrite step_heading_lookup by done.
      rewrite decide_False by done. rewrite decide_False; [done|].
      unfold new_node in Hlt. lia.
Qed.

(** C8 (ambiguity).  The line "I." is classified at level 11, the roman
    numerals, and not at level 10, and so is every line that starts with "I"
    and a delimiter; the upper-case letter pattern rejects "I", "II" and
    "III" followed by a delimiter, and the lower-case letter pattern rejects
    "ii" and "iii" followed by a delimiter. *)
Theorem roman_numeral_before_letter :
  classify (u "I.") = Some 11%Z /\
  classify (u "I.") <> Some 10%Z /\
  (forall d rest, d ∈ u ".)" -> classify (u "I" ++ d :: rest) = Some 11%Z) /\
  (forall numeral d rest,
     numeral ∈ map u ["I"; "II"; "III"] -> d ∈ u ".)" ->
     Re.matches (Re.Pattern Patterns.upper_letter false) (numeral ++ d :: rest)
       = false) /\
  (forall numeral d rest,
     numeral ∈ map u ["ii"; "iii"] -> d ∈ u ".)" ->
     Re.matches (Re.Pattern Patterns.lower_letter false) (numeral ++ d :: rest)
       = false).
Proof.
  split; [by vm_compute|]. split; [by vm_compute|].
  split; [|split].
  - intros d rest Hd. change (u ".)") with [46%N; 41%N] in Hd.
    apply elem_of_cons in Hd as [->|Hd];
      [|apply list_elem_of_singleton in Hd as ->]; by vm_compute.
  - intros numeral d rest Hn Hd.
    change (u ".)") with [46%N; 41%N] in Hd.
    change (map u ["I"; "II"; "III"]) with [[73%N]; [73%N; 73%N]; [73%N; 73%N; 73%N]] in Hn.
    repeat (apply elem_of_cons in Hn as [->|Hn]); [| | |by apply elem_of_nil in Hn];
      (apply elem_of_cons in Hd as [->|Hd];
       [|apply list_elem_of_singleton in Hd as ->]); by vm_compute.
  - intros numeral d rest Hn Hd.
    change (u ".)") with [46%N; 41%N] in Hd.
    change (map u ["ii"; "iii"]) with [[105%N; 105%N]; [105%N; 105%N; 105%N]] in Hn.
    repeat (apply elem_of_cons in Hn as [->|Hn]); [| |by apply elem_of_nil in Hn];
      (apply elem_of_cons in Hd as [->|Hd];
       [|apply list_elem_of_singleton in Hd as ->]); by vm_compute.
Qed.

(** The truncation itself: if the first line that begins with the appendix
    marker is at position [k], the tree and the unassigned lines are those
    of [lines[0:k]] alone, and every line of every chunk is the normalized
    title or the normalized content of a node of that tree. *)
Lemma appendix_truncation count_tokens model_name max_token lines k :
  appendix_start_index lines = Some k ->
  (exists line, lines !! k = Some line /\ is_appendix line = true) /\
  (forall line, line ∈ take k lines -> is_appendix line = false) /\
  exists tree tree0,
    parse_legal_document_to_dict lines = Some tree /\
    parse_legal_document_to_dict (take k lines) = Some tree0 /\
    co_phu_luc tree = true /\
    tree_content tree = tree_content tree0 /\
    noi_dung_khong_luu tree = noi_dung_khong_luu tree0 /\
    forall c line,
      c ∈ final_chunks count_tokens model_name max_token
                       (ten_van_ban tree) (tree_content tree) ->
      line ∈ chunk_content c ->
      line = ensure_punctuation (ten_van_ban tree) \/
      exists n top, top ∈ tree_content tree0 /\ subnode n top /\
                    line = ensure_punctuation (content n).
Proof.
  intros Hk.
  destruct (find_index_Some _ _ _ Hk) as [Hbefore Hat].
  split; [done|]. split; [done|].
  assert (Hnone : appendix_start_index (take k lines) = None)
    by apply (find_index_take _ _ _ Hk).
  unfold parse_legal_document_to_dict. rewrite Hk, Hnone.
  destruct (reify_build (take k lines)) as (r & -> & _).
  cbn [mbind option_bind]. eexists _, _. repeat split.
  cbn [ten_van_ban tree_content]. intros c line Hc Hline.
  destruct (final_chunks_lines _ _ _ _ _ _ _ Hc Hline) as (m & Hm & ->).
  inversion Hm as [|? top ? Htop Hsub]; subst; [by left|right].
  by exists m, top.
Qed.

(** C9 fails on the code for these documents: the title is found before
    the truncation, so a title line directly above the appendix pulls the
    appendix heading into the title and into the chunk, and two documents
    that agree up to the appendix yield different chunks. *)
Lemma appendix_text_in_title :
  let doc1 := map u ["Luật X"; "Phụ lục I"] in
  let doc2 := map u ["Luật X"; "Phụ lục II"] in
  appendix_start_index doc1 = Some 1%nat /\
  appendix_start_index doc2 = Some 1%nat /\
  take 1 doc1 = take 1 doc2 /\
  process_document code_points MODEL_NAME MAX_TOKEN doc1 (u "a.txt")
    = Some (Return [OutputChunk (u "a.txt") [] 17 (u "Luật X Phụ lục I.")]) /\
  process_document code_points MODEL_NAME MAX_TOKEN doc2 (u "a.txt")
    = Some (Return [OutputChunk (u "a.txt") [] 18 (u "Luật X Phụ lục II.")]) /\
  contains (u "Phụ lục I") (u "Luật X Phụ lục I.") = true.
Proof. repeat split; vm_compute; reflexivity. Qed.

(** C9 (appendix).  The code truncates the lines at the appendix but has
    looked for the title before: when the appendix starts at position [k]
    and the first line with a keyword among the first twenty is at position
    [i] with [k <= i + 1], the title is that line joined with line [i + 1],
    a line at a position from [k] on, and the program emits at least one
    chunk and every chunk it emits contains the text of that line.  So the
    code does not keep appendix text out of the chunks, as the claim and
    the comment of the truncation require. *)
Theorem appendix_reaches_title count_tokens model_name max_token lines
    source_file_path k i line next :
  appendix_start_index lines = Some k ->
  (i < 20)%nat -> lines !! i = Some line -> has_keyword line = true ->
  (forall j l, (j < i)%nat -> lines !! j = Some l -> has_keyword l = false) ->
  (k <= S i)%nat -> lines !! S i = Some next ->
  exists tree first others,
    parse_legal_document_to_dict lines = Some tree /\
    ten_van_ban tree = line ++ u " " ++ next /\
    process_document count_tokens model_name max_token lines source_file_path
      = Some (Return (first :: others)) /\
    forall o, o ∈ first :: others -> contains next (out_chunk_content o) = true.
Proof.
  intros Hk Hi Hline Hkw Hbefore Hle Hnext.
  pose proof (find_title_first lines i line Hi Hline Hkw Hbefore) as Htitle.
  rewrite Hnext in Htitle.
  assert (Hne : line <> []) by (intros ->; by rewrite has_keyword_nil in Hkw).
  unfold process_document, parse_legal_document_to_dict. rewrite Htitle, Hk.
  destruct (reify_build (take k lines)) as (r & -> & _).
  cbn [mbind option_bind].
  assert (Hshape : forall t : list N, t <> [] ->
            match Some t with
            | Some ((_ :: _) as t') => t'
            | _ => unknown_title
            end = t) by (by intros [|? ?]).
  rewrite Hshape by (by destruct line).
  rewrite create_chunks_from_tree_returns.
  cbn [ten_van_ban tree_content].
  set (title := line ++ u " " ++ next).
  set (final := final_chunks count_tokens model_name max_token title (children r)).
  assert (Hall : forall c, c ∈ final ->
            contains next (out_chunk_content (to_output source_file_path c)) = true).
  { intros c Hc. unfold final in Hc. rewrite final_chunks_path_chunks in Hc.
    cbn [to_output out_chunk_content].
    destruct (merge_chunks_extends _ _ _ _ (path_chunks_wf _ _ _) c Hc)
      as (p & sfx & Hp & ->).
    destruct (path_chunks_prefix _ _ _ _ _ Hp) as [sfx' ->].
    cbn [app content].
    assert (Hjoin : exists after,
              join (u " ") (ensure_punctuation title :: sfx' ++ sfx)
              = (line ++ u " ") ++ next ++ after).
    { assert (Hep : exists dot, ensure_punctuation title = title ++ dot).
      { unfold ensure_punctuation. destruct (Re.search _ _);
          [exists []; by rewrite app_nil_r|by eexists]. }
      destruct Hep as [dot ->]. unfold title.
      destruct (sfx' ++ sfx) as [|x xs].
      - exists dot. cbn [join]. by rewrite <- !app_assoc.
      - eexists. cbn [join]. rewrite <- !app_assoc. reflexivity. }
    destruct Hjoin as [after ->]. apply contains_app. }
  assert (Hfinal : final <> []).
  { unfold final. rewrite final_chunks_path_chunks.
    pose proof (path_chunks_nonempty count_tokens model_name
                  (Node (-1) title (children r)) []) as Hpc.
    destruct (path_chunks _ _ _ _) as [|p ps]; [done|].
    by rewrite merge_chunks_cons. }
  destruct final as [|c cs] eqn:Hf; [done|].
  eexists _, (to_output source_file_path c), (map (to_output source_file_path) cs).
  split; [reflexivity|]. split; [done|]. split; [done|].
  intros o Ho. change (to_output source_file_path c :: map (to_output source_file_path) cs)
    with (map (to_output source_file_path) (c :: cs)) in Ho.
  apply list_elem_of_fmap in Ho as (c' & -> & Hc'). by apply Hall.
Qed.

Lemma appendix_reaches_title_witness :
  let lines := map u ["PHỤ LỤC I"; "(Ban hành kèm theo Thông tư số 01)"; "Điều 1. a"] in
  appendix_start_index lines = Some 0%nat /\
  exists tree first others,
    parse_legal_document_to_dict lines = Some tree /\
    ten_van_ban tree = u "(Ban hành kèm theo Thông tư số 01)" ++ u " " ++ u "Điều 1. a" /\
    process_document code_points MODEL_NAME MAX_TOKEN lines (u "a.txt")
      = Some (Return (first :: others)) /\
    forall o, o ∈ first :: others ->
              contains (u "Điều 1. a") (out_chunk_content o) = true.
Proof.
  intros lines.
  assert (Hk : appendix_start_index lines = Some 0%nat) by (vm_compute; reflexivity).
  split; [exact Hk|].
  apply (appendix_reaches_title code_points MODEL_NAME MAX_TOKEN lines (u "a.txt")
           0 1 (u "(Ban hành kèm theo Thông tư số 01)") (u "Điều 1. a") Hk).
  - lia.
  - reflexivity.
  - vm_compute. reflexivity.
  - intros [|j] l Hj Hl; [|lia]. injection Hl as <-. vm_compute. reflexivity.
  - lia.
  - reflexivity.
Defined.

(** C10 (title first).  The first line of every final chunk is the
    normalized document title. *)
Theorem title_first count_tokens model_name max_token root_title nodes c :
  c ∈ final_chunks count_tokens model_name max_token root_title nodes ->
  head (chunk_content c) = Some (ensure_punctuation root_title).
Proof.
  rewrite final_chunks_path_chunks. intros Hc.
  destruct (merge_chunks_extends _ _ _ _ (path_chunks_wf _ _ _) c Hc)
    as (p & sfx & Hp & ->).
  destruct (path_chunks_prefix _ _ _ _ _ Hp) as [sfx' ->]. done.
Qed.

Lemma title_first_witness :
  let c := Chunk [u "Luật X Điều 1."; u "Điều 1 A."; u "Điều 1 B."] 32 in
  let nodes := [Node 5 (u "Điều 1 A") []; Node 5 (u "Điều 1 B") []] in
  c ∈ final_chunks code_points MODEL_NAME MAX_TOKEN (u "Luật X Điều 1") nodes /\
  head (chunk_content c) = Some (ensure_punctuation (u "Luật X Điều 1")).
Proof.
  intros c nodes.
  assert (H : c ∈ final_chunks code_points MODEL_NAME MAX_TOKEN
                               (u "Luật X Điều 1") nodes).
  { vm_compute. left. }
  split; [exact H|].
  exact (title_first code_points MODEL_NAME MAX_TOKEN (u "Luật X Điều 1") nodes c H).
Defined.

(** * Further properties *)

(** ** Terminal punctuation, again *)

Lemma is_mark_marks c : is_mark c = bool_decide (c ∈ marks).
Proof.
  unfold is_mark, marks.
  change (Re.chars ".!?。:：") with (map Re.IChr [46; 33; 63; 12290; 58; 65306]%N).
  change (u ".!?。:：") with [46; 33; 63; 12290; 58; 65306]%N.
  cbn [existsb map Re.item_match Re.chr_match].
  apply eq_true_iff_eq. rewrite bool_decide_eq_true, !orb_true_iff, !N.eqb_eq.
  rewrite !elem_of_cons, elem_of_nil. intuition discriminate.
Qed.

Lemma eos_match {A} (s : list N) (a b : A) :
  match s with [] => a | [10%N] => a | _ => b end =
  if bool_decide (s = [] \/ s = [10%N]) then a else b.
Proof.
  destruct (decide (s = [] \/ s = [10%N])) as [[->| ->]|Hs].
  - done.
  - done.
  - rewrite bool_decide_eq_false_2 by done.
    destruct s as [|d tl]; [tauto|]. destruct tl as [|e tl].
    + repeat match goal with
             | |- context [match ?p with _ => _ end] => destruct p
             end; try done. tauto.
    + repeat match goal with
             | |- context [match ?p with _ => _ end] => destruct p
             end; done.
Qed.

Lemma accept_terminal prev s :
  Re.accept false (Re.expr terminal_punctuation) prev s (fun _ _ => true) =
  match s with
  | c :: tl => is_mark c && bool_decide (tl = [] \/ tl = [10%N])
  | [] => false
  end.
Proof.
  destruct s as [|c tl]; [done|].
  unfold terminal_punctuation. cbn [Re.expr Re.accept]. fold (is_mark c).
  destruct (is_mark c); [|done]. cbn [andb]. rewrite eos_match.
  by destruct (bool_decide _).
Qed.

Lemma search_terminal prev s :
  Re.search_from false (Re.expr terminal_punctuation) prev s = true <->
  exists pre c tl, s = pre ++ c :: tl /\ c ∈ marks /\ (tl = [] \/ tl = [10%N]).
Proof.
  revert prev. induction s as [|x s IH]; intros prev.
  - cbn [Re.search_from]. rewrite accept_terminal. split; [done|].
    intros (pre & c & tl & Hs & _). by destruct pre.
  - cbn [Re.search_from]. rewrite accept_terminal, orb_true_iff, IH.
    rewrite andb_true_iff, is_mark_marks, !bool_decide_eq_true. split.
    + intros [[Hx Htl]|(pre & c & tl & -> & Hc & Htl)].
      * by exists [], x, s.
      * by exists (x :: pre), c, tl.
    + intros (pre & c & tl & Hs & Hc & Htl). destruct pre as [|y pre].
      * injection Hs as -> ->. by left.
      * injection Hs as -> ->. right. by exists pre, c, tl.
Qed.

Lemma lstrip_split s :
  exists ws, s = ws ++ Unicode.lstrip s /\
             Forall (fun c => Unicode.isspace c = true) ws /\
             forall c, head (Unicode.lstrip s) = Some c -> Unicode.isspace c = false.
Proof.
  induction s as [|x s (ws & Hs & Hws & Hhd)]; [by exists []|].
  cbn [Unicode.lstrip]. destruct (Unicode.isspace x) eqn:Hx.
  - exists (x :: ws). split; [cbn; by f_equal|]. split; [by constructor|done].
  - exists []. repeat split; [done|]. by intros c [= <-].
Qed.

Lemma strip_split s :
  exists before after,
    s = before ++ Unicode.strip s ++ after /\
    Forall (fun c => Unicode.isspace c = true) before /\
    Forall (fun c => Unicode.isspace c = true) after /\
    (forall c, head (Unicode.strip s) = Some c -> Unicode.isspace c = false) /\
    (forall c, last (Unicode.strip s) = Some c -> Unicode.isspace c = false).
Proof.
  destruct (lstrip_split s) as (before & Hs & Hbefore & Hhd).
  destruct (lstrip_split (rev (Unicode.lstrip s))) as (ws & Hr & Hws & Hlast).
  unfold Unicode.strip, Unicode.rstrip.
  set (inner := Unicode.lstrip (rev (Unicode.lstrip s))) in *.
  assert (Hl : Unicode.lstrip s = rev inner ++ rev ws).
  { rewrite <- rev_app_distr, <- Hr. by rewrite rev_involutive. }
  exists before, (rev ws). split; [by rewrite <- Hl|].
  split; [done|]. split; [by apply Forall_rev|]. split.
  - intros c Hc. destruct (rev inner) as [|y t] eqn:Hin; [done|].
    apply Hhd. rewrite Hl. by injection Hc as ->.
  - intros c Hc. apply Hlast. apply last_Some in Hc as [l' Hl'].
    rewrite <- (rev_involutive inner), Hl', rev_app_distr. done.
Qed.

Lemma search_terminal_ends s :
  last s <> Some 10%N ->
  Re.search terminal_punctuation s = ends_with_mark s.
Proof.
  intros Hlast. apply eq_true_iff_eq. unfold Re.search.
  cbn [Re.ignorecase terminal_punctuation]. 
  change (Re.expr (Re.Pattern (Re.Seq (Re.Cls (Re.chars ".!?。:：")) Re.Eos) false))
    with (Re.expr terminal_punctuation).
  rewrite search_terminal. unfold ends_with_mark. split.
  - intros (pre & c & tl & -> & Hc & [->| ->]).
    + rewrite last_snoc. by apply bool_decide_eq_true.
    + destruct Hlast. change (pre ++ [c; 10%N]) with (pre ++ [c] ++ [10%N]).
      by rewrite app_assoc, last_snoc.
  - destruct (last s) as [c|] eqn:Hc; [|done].
    intros Hm%bool_decide_eq_true. apply last_Some in Hc as [pre ->].
    exists pre, c, []. auto.
Qed.

Lemma ensure_punctuation_ends text :
  ends_with_mark (Unicode.strip (ensure_punctuation text)) = true.
Proof.
  pose proof (ensure_punctuation_idempotent text) as Hn. unfold normalized in Hn.
  unfold ensure_punctuation at 1 in Hn. rewrite search_terminal_ends in Hn.
  - destruct (ends_with_mark (Unicode.strip (ensure_punctuation text))); [done|].
    apply (f_equal length) in Hn. change (u ".") with [46%N] in Hn.
    rewrite length_app in Hn. cbn [length] in Hn. lia.
  - intros Hl. destruct (strip_split (ensure_punctuation text))
      as (_ & _ & _ & _ & _ & _ & Hlast).
    by specialize (Hlast _ Hl).
Qed.

(** X1.  [ensure_punctuation] returns the text as it is when the last code
    point of the stripped text is one of . ! ? 。 : ： and the text followed
    by a period otherwise (so also for an empty or blank text, and after any
    trailing white space); the result always passes the test, and applying
    the function twice is applying it once. *)
Theorem ensure_punctuation_spec text :
  ensure_punctuation text =
    (if ends_with_mark (Unicode.strip text) then text else text ++ u ".") /\
  ends_with_mark (Unicode.strip (ensure_punctuation text)) = true /\
  ensure_punctuation (ensure_punctuation text) = ensure_punctuation text.
Proof.
  assert (Hstrip : forall t, last (Unicode.strip t) <> Some 10%N).
  { intros t Hl. destruct (strip_split t) as (_ & _ & _ & _ & _ & _ & Hlast).
    by specialize (Hlast _ Hl). }
  assert (Hep : forall t, ensure_punctuation t =
    if ends_with_mark (Unicode.strip t) then t else t ++ u ".").
  { intros t. unfold ensure_punctuation. by rewrite search_terminal_ends. }
  split; [apply Hep|].
  split; [apply ensure_punctuation_ends|apply ensure_punctuation_idempotent].
Qed.


(** ** What the chunker emits *)

Lemma strip_nil_iff s :
  Unicode.strip s = [] <-> Forall (fun c => Unicode.isspace c = true) s.
Proof.
  destruct (strip_split s) as (before & after & Hs & Hb & Ha & Hhd & _). split.
  - intros Hnil. rewrite Hs, Hnil. apply Forall_app. split; [done|].
    by apply Forall_app.
  - intros Hall. destruct (Unicode.strip s) as [|c t] eqn:Hst; [done|].
    specialize (Hhd c eq_refl). rewrite Hs in Hall.
    apply Forall_app in Hall as [_ Hall]. apply Forall_cons in Hall as [Hc _].
    congruence.
Qed.

Lemma ends_with_mark_not_blank s :
  ends_with_mark (Unicode.strip s) = true -> Unicode.strip s <> [].
Proof. by destruct (Unicode.strip s). Qed.

Lemma join_elem sep parts x c :
  x ∈ parts -> c ∈ x -> c ∈ join sep parts.
Proof.
  induction parts as [|p ps IH]; [by intros ?%elem_of_nil|].
  intros Hx Hc. destruct ps as [|q ps].
  - apply list_elem_of_singleton in Hx as ->. done.
  - rewrite join_cons by done. apply elem_of_app.
    apply elem_of_cons in Hx as [->|Hx]; [by left|right].
    apply elem_of_app. right. by apply IH.
Qed.

Lemma not_blank_elem s :
  Unicode.strip s <> [] -> exists c, c ∈ s /\ Unicode.isspace c = false.
Proof.
  intros Hs. destruct (decide (Forall (fun c => Unicode.isspace c = true) s))
    as [Hall|Hex]; [by apply strip_nil_iff in Hall|].
  apply not_Forall_Exists in Hex; [|intros c; apply _].
  apply Exists_exists in Hex as (c & Hc & Hsp). exists c. split; [done|].
  by apply not_true_is_false.
Qed.

Lemma elem_not_blank s c :
  c ∈ s -> Unicode.isspace c = false -> Unicode.strip s <> [].
Proof.
  intros Hc Hsp Hnil. apply strip_nil_iff in Hnil.
  rewrite Forall_forall in Hnil. specialize (Hnil c Hc). congruence.
Qed.

Lemma path_chunks_length count_tokens model_name n :
  forall path, length (path_chunks count_tokens model_name path n) = leaves n.
Proof.
  induction n as [l t cs IH] using node_ind; intros path.
  cbn [path_chunks leaves children content].
  transitivity (length (flat_map (path_chunks count_tokens model_name
                                    (path ++ [ensure_punctuation t])) cs)
                + (if cs is [] then 1 else 0))%nat; [by destruct cs|].
  transitivity (sum_list (map leaves cs) + (if cs is [] then 1 else 0))%nat;
    [|destruct cs; cbn; lia].
  f_equal. generalize (path ++ [ensure_punctuation t]). intros path'.
  induction IH as [|y ys Hy _ IHys]; [done|].
  change (sum_list (map leaves (y :: ys)))
    with (leaves y + sum_list (map leaves ys))%nat.
  cbn [flat_map]. by rewrite length_app, Hy, IHys.
Qed.

Lemma leaves_pos n : (1 <= leaves n)%nat.
Proof.
  induction n as [l t cs IH] using node_ind. cbn [leaves children].
  destruct cs as [|x xs]; [done|]. apply Forall_cons in IH as [Hx _].
  change (sum_list (map leaves (x :: xs)))
    with (leaves x + sum_list (map leaves xs))%nat. lia.
Qed.

Lemma merge_chunks_length count_tokens model_name max_token all_chunks :
  (length (merge_chunks count_tokens model_name max_token all_chunks)
     <= length all_chunks)%nat /\
  (all_chunks <> [] ->
   merge_chunks count_tokens model_name max_token all_chunks <> []).
Proof.
  induction all_chunks as [|first rest [IH _]]
    using (merge_chunks_ind count_tokens model_name max_token).
  { by rewrite merge_chunks_nil. }
  rewrite merge_chunks_cons. split; [|done]. cbn [length].
  pose proof (absorb_length count_tokens model_name max_token first rest). lia.
Qed.

Lemma final_chunks_start count_tokens model_name max_token root_title nodes c :
  c ∈ final_chunks count_tokens model_name max_token root_title nodes ->
  exists rest, chunk_content c = ensure_punctuation root_title :: rest.
Proof.
  rewrite final_chunks_path_chunks. intros Hc.
  destruct (merge_chunks_extends _ _ _ _ (path_chunks_wf _ _ _) c Hc)
    as (p & sfx & Hp & ->).
  destruct (path_chunks_prefix _ _ _ _ _ Hp) as [sfx' ->]. by eexists.
Qed.

(** X2.  Whatever the tree, the budget and the tokenizer,
    [create_chunks_from_tree] returns at least one chunk (the root alone is
    a leaf when the tree has no node) and at most as many chunks as the tree
    has leaves. *)
Theorem at_least_one_chunk count_tokens model_name max_token tree source_file_path :
  exists c cs,
    create_chunks_from_tree count_tokens model_name max_token tree source_file_path
      = Return (c :: cs) /\
    (length (c :: cs)
       <= leaves (Node (-1) (ten_van_ban tree) (tree_content tree)))%nat.
Proof.
  rewrite create_chunks_from_tree_returns.
  pose proof (merge_chunks_length count_tokens model_name max_token
                (path_chunks count_tokens model_name []
                   (Node (-1) (ten_van_ban tree) (tree_content tree)))) as [Hlen Hnil].
  rewrite <- final_chunks_path_chunks in Hlen, Hnil.
  rewrite path_chunks_length in Hlen.
  destruct (final_chunks _ _ _ _ _) as [|c cs].
  { destruct Hnil; [|done]. apply path_chunks_nonempty. }
  exists (to_output source_file_path c), (map (to_output source_file_path) cs).
  split; [done|]. cbn [length] in *. by rewrite length_map.
Qed.

(** X3.  Every final chunk has at least one line, each of its lines ends,
    white space apart, in one of the marks . ! ? 。 : ：, and the content
    that is emitted for it is not blank. *)
Theorem emitted_lines_punctuated count_tokens model_name max_token
    root_title nodes source_file_path :
  Forall (fun c =>
            chunk_content c <> [] /\
            Forall (fun line => ends_with_mark (Unicode.strip line) = true)
                   (chunk_content c) /\
            Unicode.strip (out_chunk_content (to_output source_file_path c)) <> [])
         (final_chunks count_tokens model_name max_token root_title nodes).
Proof.
  apply Forall_forall. intros c Hc.
  assert (Hlines : Forall (fun line => ends_with_mark (Unicode.strip line) = true)
                          (chunk_content c)).
  { apply Forall_forall. intros line Hline.
    destruct (final_chunks_lines _ _ _ _ _ _ _ Hc Hline) as (m & _ & ->).
    apply ensure_punctuation_ends. }
  destruct (final_chunks_start _ _ _ _ _ _ Hc) as [rest Hcc].
  split; [congruence|]. split; [done|].
  cbn [to_output out_chunk_content]. rewrite Hcc in *.
  apply Forall_cons in Hlines as [Hline _].
  destruct (not_blank_elem _ (ends_with_mark_not_blank _ Hline)) as (ch & Hch & Hsp).
  apply (elem_not_blank _ ch); [|done].
  apply (join_elem _ _ (ensure_punctuation root_title)); [left|done].
Qed.

Lemma find_index_first {A} (p : A -> bool) pre x sfx :
  (forall y, y ∈ pre -> p y = false) -> p x = true ->
  find_index p (pre ++ x :: sfx) = Some (length pre).
Proof.
  intros Hpre Hx. induction pre as [|y pre IH]; cbn [find_index app length].
  - by rewrite Hx.
  - rewrite (Hpre y) by left. rewrite IH; [done|].
    intros z Hz. apply Hpre. by right.
Qed.

(** X4.  When the candidate starts with lines that already occur in the
    accumulator and its next line does not, the merged sequence is the
    accumulator followed by the candidate from that line on: the repeated
    leading lines are left out, and what follows the first new line is
    appended whole. *)
Theorem shared_prefix_elided lines_cur repeated line rest :
  (forall l, l ∈ repeated -> l ∈ lines_cur) ->
  line ∉ lines_cur ->
  merge_lines lines_cur (repeated ++ line :: rest) = lines_cur ++ line :: rest.
Proof.
  intros Hrep Hnew. unfold merge_lines, first_new_line.
  rewrite (find_index_first _ repeated line rest).
  - by rewrite drop_app_length.
  - intros l Hl. apply negb_false_iff, bool_decide_eq_true. auto.
  - apply negb_true_iff. by apply bool_decide_eq_false.
Qed.

Lemma shared_prefix_elided_witness :
  merge_lines [u "Luật X."; u "Điều 1."; u "A."] ([u "Luật X."; u "Điều 1."] ++ u "B." :: [])
  = [u "Luật X."; u "Điều 1."; u "A."] ++ u "B." :: [].
Proof.
  apply shared_prefix_elided.
  - intros l Hl. vm_compute in Hl.
    apply elem_of_cons in Hl as [->|Hl]; [left|].
    apply list_elem_of_singleton in Hl as ->. right. left.
  - vm_compute. intros H. repeat (apply elem_of_cons in H as [H|H]; [discriminate H|]).
    by apply elem_of_nil in H.
Defined.

Section GreedyFacts.

Variable count_tokens : list N -> list N -> nat.
Variable model_name : list N.
Variable max_token : Z.
Local Abbreviation absorb' := (absorb count_tokens model_name max_token).
Local Abbreviation merge := (merge_chunks count_tokens model_name max_token).
Local Abbreviation trial' := (trial count_tokens model_name).
Local Abbreviation absorbs' := (absorbs count_tokens model_name max_token).
Local Abbreviation grouping' := (grouping count_tokens model_name max_token).

Lemma absorb_group rest :
  forall current, exists group,
    rest = group ++ (absorb' current rest).2 /\
    absorbs' current group (absorb' current rest).1 /\
    forall nxt, head (absorb' current rest).2 = Some nxt ->
      (max_token < Z.of_nat (token_length (trial' (absorb' current rest).1 nxt)))%Z.
Proof.
  induction rest as [|nxt rest IH]; intros current.
  - exists []. repeat split; [constructor|done].
  - cbn [absorb]. fold (trial' current nxt).
    change (count_tokens _ model_name) with (token_length (trial' current nxt)).
    change (Chunk _ (token_length (trial' current nxt))) with (trial' current nxt).
    destruct (Z.leb_spec (Z.of_nat (token_length (trial' current nxt))) max_token)
      as [Hfit|Hover].
    + destruct (IH (trial' current nxt)) as (group & Hr & Habs & Hstop).
      exists (nxt :: group). split; [cbn; by f_equal|]. split; [|done].
      by constructor.
    + exists []. repeat split; [constructor|]. by intros ? [= <-].
Qed.

Lemma absorbs_absorb current group result rest :
  absorbs' current group result ->
  (forall nxt, head rest = Some nxt ->
     (max_token < Z.of_nat (token_length (trial' result nxt)))%Z) ->
  absorb' current (group ++ rest) = (result, rest).
Proof.
  induction 1 as [current|current nxt group result Hfit _ IH]; intros Hstop.
  - destruct rest as [|nxt rest]; [done|]. cbn [app absorb].
    specialize (Hstop nxt eq_refl). unfold trial in Hstop. cbn in Hstop.
    by apply Z.leb_gt in Hstop as ->.
  - cbn [app absorb]. unfold trial in Hfit. cbn in Hfit.
    apply Z.leb_le in Hfit as ->. by apply IH.
Qed.

End GreedyFacts.

(** X5.  [merge_chunks] is the greedy grouping and nothing else: its result
    cuts the path-chunks, in order, into consecutive groups, merges each
    group into one chunk through trials that all fit the budget, and ends a
    group only at the end of the list or where the trial with the next
    path-chunk exceeds the budget; and a list of chunks that relates to the
    path-chunks in this way is the result of [merge_chunks]. *)
Theorem merge_chunks_greedy count_tokens model_name max_token all_chunks finals :
  grouping count_tokens model_name max_token all_chunks finals <->
  finals = merge_chunks count_tokens model_name max_token all_chunks.
Proof.
  split.
  - induction 1 as [|first group rest current finals Habs Hstop _ IH].
    + by rewrite merge_chunks_nil.
    + rewrite merge_chunks_cons.
      rewrite (absorbs_absorb _ _ _ _ _ _ _ Habs Hstop). cbn [fst snd].
      by rewrite IH.
  - intros ->.
    induction all_chunks as [|first rest IH]
      using (merge_chunks_ind count_tokens model_name max_token).
    + rewrite merge_chunks_nil. constructor.
    + rewrite merge_chunks_cons.
      destruct (absorb_group count_tokens model_name max_token rest first)
        as (group & Hr & Habs & Hstop).
      rewrite Hr at 1. by constructor.
Qed.

(** ** Reading a file *)

Lemma is_linebreak_isspace c : is_linebreak c = true -> Unicode.isspace c = true.
Proof.
  unfold is_linebreak, Unicode.isspace, Unicode.between.
  rewrite !orb_true_iff, !andb_true_iff, !N.leb_le, !N.eqb_eq. lia.
Qed.

Lemma splitlines_from_spec s :
  forall line,
    Forall (fun c => is_linebreak c = false) line ->
    Forall (Forall (fun c => is_linebreak c = false)) (splitlines_from line s) /\
    concat (splitlines_from line s) = line ++ filter (fun c => negb (is_linebreak c)) s.
Proof.
  induction s as [s IH] using (induction_ltof1 _ (@length N)). intros line Hline.
  destruct s as [|c s']; cbn [splitlines_from].
  - destruct line; cbn; [done|]. rewrite !app_nil_r. split; [|done].
    by apply Forall_singleton.
  - cbn [filter]. rewrite filter_cons. destruct (is_linebreak c) eqn:Hc; cbn [negb].
    + rewrite decide_False by (by intros []). destruct s' as [|d s''].
      * cbn. rewrite !app_nil_r. split; [|done]. by apply Forall_singleton.
      * assert (Hrec : forall t, (length t <= length (d :: s''))%nat ->
          Forall (Forall (fun c => is_linebreak c = false)) (splitlines_from [] t) /\
          concat (splitlines_from [] t) = filter (fun c => negb (is_linebreak c)) t).
        { intros t Ht. apply (IH t); [unfold ltof; cbn in *; lia|done]. }
        destruct ((c =? 13) && (d =? 10))%N eqn:Hcrlf.
        -- apply andb_true_iff in Hcrlf as [_ ->%N.eqb_eq].
           destruct (Hrec s'') as [Hall Hcat]; [cbn; lia|].
           split; [by constructor|]. cbn [concat]. rewrite Hcat.
           rewrite (filter_cons _ 10%N). by rewrite decide_False by (by intros []).
        -- destruct (Hrec (d :: s'')) as [Hall Hcat]; [done|].
           split; [by constructor|]. cbn [concat]. by rewrite Hcat.
    + rewrite decide_True by done.
      destruct (IH s') with (line := line ++ [c]) as [Hall Hcat];
        [unfold ltof; cbn; lia| |].
      { apply Forall_app. split; [done|]. by apply Forall_singleton. }
      split; [done|]. rewrite Hcat. by rewrite <- app_assoc.
Qed.

Lemma lstrip_fixed s :
  (forall c, head s = Some c -> Unicode.isspace c = false) -> Unicode.lstrip s = s.
Proof.
  destruct s as [|c s]; [done|]. intros Hc. cbn [Unicode.lstrip].
  by rewrite (Hc c eq_refl).
Qed.

Lemma strip_fixed s :
  (forall c, head s = Some c -> Unicode.isspace c = false) ->
  (forall c, last s = Some c -> Unicode.isspace c = false) ->
  Unicode.strip s = s.
Proof.
  intros Hhd Hlast. unfold Unicode.strip, Unicode.rstrip.
  rewrite (lstrip_fixed s Hhd), lstrip_fixed; [apply rev_involutive|].
  intros c Hc. apply Hlast. destruct (rev s) as [|d t] eqn:Hr; [done|].
  injection Hc as ->. rewrite <- (rev_involutive s), Hr. cbn [rev].
  apply last_snoc.
Qed.

Lemma strip_idempotent s : Unicode.strip (Unicode.strip s) = Unicode.strip s.
Proof.
  destruct (strip_split s) as (_ & _ & _ & _ & _ & Hhd & Hlast).
  by apply strip_fixed.
Qed.

Lemma filter_spaces (ws : list N) :
  Forall (fun c => Unicode.isspace c = true) ws ->
  filter (fun c => negb (Unicode.isspace c)) ws = [].
Proof.
  induction 1 as [|c ws Hc _ IH]; [done|].
  rewrite filter_cons, IH, Hc. by rewrite decide_False by (by intros []).
Qed.

Lemma strip_filter (s : list N) :
  filter (fun c => negb (Unicode.isspace c)) (Unicode.strip s)
  = filter (fun c => negb (Unicode.isspace c)) s.
Proof.
  destruct (strip_split s) as (before & after & Hs & Hb & Ha & _).
  rewrite Hs at 2. rewrite !filter_app, (filter_spaces before Hb),
    (filter_spaces after Ha). by rewrite app_nil_r.
Qed.

Lemma strip_Forall (P : N -> Prop) s : Forall P s -> Forall P (Unicode.strip s).
Proof.
  destruct (strip_split s) as (before & after & Hs & _). intros Hall.
  rewrite Hs in Hall. apply Forall_app in Hall as [_ Hall].
  by apply Forall_app in Hall as [Hall _].
Qed.

Lemma filter_filter_space (s : list N) :
  filter (fun c => negb (Unicode.isspace c)) (filter (fun c => negb (is_linebreak c)) s)
  = filter (fun c => negb (Unicode.isspace c)) s.
Proof.
  induction s as [|c s IH]; [done|]. rewrite !filter_cons.
  destruct (is_linebreak c) eqn:Hb; cbn [negb].
  - rewrite (is_linebreak_isspace c Hb). cbn [negb].
    rewrite !decide_False by (by intros []). done.
  - rewrite decide_True by done. rewrite filter_cons. by rewrite IH.
Qed.

(** X6.  The lines that the parser reads from a text are non-empty, have no
    white space at either end and contain no line boundary; they hold the
    non-white-space characters of the text, all of them and in order, and
    there is no line exactly when the text is blank. *)
Theorem read_lines_contract original_text :
  Forall (fun line =>
            line <> [] /\ Unicode.strip line = line /\
            Forall (fun c => is_linebreak c = false) line)
         (read_lines original_text) /\
  filter (fun c => negb (Unicode.isspace c)) (concat (read_lines original_text))
    = filter (fun c => negb (Unicode.isspace c)) original_text /\
  (read_lines original_text = [] <-> Unicode.strip original_text = []).
Proof.
  destruct (splitlines_from_spec original_text [] (Forall_nil_2 _)) as [Hall Hcat].
  fold (splitlines original_text) in Hall, Hcat. cbn [app] in Hcat.
  assert (Hfilter :
    filter (fun c => negb (Unicode.isspace c)) (concat (read_lines original_text))
    = filter (fun c => negb (Unicode.isspace c)) original_text).
  { rewrite <- (filter_filter_space original_text), <- Hcat. unfold read_lines.
    clear. induction (splitlines original_text) as [|line ls IH]; [done|].
    cbn [flat_map concat]. rewrite !concat_app, !filter_app, IH. f_equal.
    rewrite <- (strip_filter line). destruct (Unicode.strip line); [done|].
    cbn [concat]. by rewrite app_nil_r. }
  assert (Hlines : Forall (fun line =>
            line <> [] /\ Unicode.strip line = line /\
            Forall (fun c => is_linebreak c = false) line)
         (read_lines original_text)).
  { unfold read_lines. apply Forall_forall. intros line Hline.
    apply elem_of_flat_map in Hline as (raw & Hraw & Hline).
    rewrite Forall_forall in Hall. specialize (Hall raw Hraw).
    destruct (Unicode.strip raw) as [|c t] eqn:Hs; [by apply elem_of_nil in Hline|].
    apply list_elem_of_singleton in Hline as ->. split; [done|].
    rewrite <- Hs. split; [apply strip_idempotent|by apply strip_Forall]. }
  split; [done|]. split; [done|]. split.
  - intros Hnil. rewrite Hnil in Hfilter. cbn in Hfilter.
    apply strip_nil_iff, Forall_forall. intros c Hc.
    destruct (Unicode.isspace c) eqn:Hsp; [done|].
    assert (c ∈ filter (fun c => negb (Unicode.isspace c)) original_text)
      by (apply list_elem_of_filter; by rewrite Hsp).
    rewrite <- Hfilter in H. by apply elem_of_nil in H.
  - intros Hblank. apply strip_nil_iff in Hblank.
    rewrite (filter_spaces _ Hblank) in Hfilter.
    destruct (read_lines original_text) as [|line ls]; [done|].
    apply Forall_cons in Hlines as [(Hne & Hst & _) _].
    destruct (strip_split line) as (_ & _ & _ & _ & _ & Hhd & _).
    rewrite Hst in Hhd. destruct line as [|c t]; [done|].
    specialize (Hhd c eq_refl). cbn [concat app] in Hfilter.
    rewrite filter_cons in Hfilter. rewrite Hhd in Hfilter. cbn [negb] in Hfilter.
    by rewrite decide_True in Hfilter by done.
Qed.

Lemma splitlines_from_line line :
  forall acc rest,
    Forall (fun c => is_linebreak c = false) line ->
    splitlines_from acc (line ++ 10%N :: rest)
    = (acc ++ line) :: splitlines_from [] rest.
Proof.
  induction line as [|c line IH]; intros acc rest Hline.
  - cbn [app splitlines_from]. rewrite app_nil_r.
    change (is_linebreak 10) with true. cbn match. f_equal.
    by destruct rest.
  - apply Forall_cons in Hline as [Hc Hline].
    cbn [app splitlines_from]. rewrite Hc, IH by done.
    by rewrite <- app_assoc.
Qed.

Lemma docx_to_txt_cons para paragraphs :
  docx_to_txt (para :: paragraphs) =
  match Unicode.strip para with
  | [] => docx_to_txt paragraphs
  | _ => Unicode.strip para ++ 10%N :: docx_to_txt paragraphs
  end.
Proof.
  unfold docx_to_txt. cbn [flat_map]. destruct (Unicode.strip para); [done|].
  by rewrite <- app_assoc.
Qed.

(** X7.  What [docx_to_txt] writes is read back as it was written: when no
    stripped paragraph contains a line boundary, the lines that the parser
    reads from the text file are the stripped paragraphs that are not
    blank, in order. *)
Theorem docx_to_txt_read_back paragraphs :
  Forall (fun para => Forall (fun c => is_linebreak c = false) (Unicode.strip para))
         paragraphs ->
  read_lines (docx_to_txt paragraphs)
  = flat_map (fun para => match Unicode.strip para with
                          | [] => []
                          | text => [text]
                          end) paragraphs.
Proof.
  induction 1 as [|para paragraphs Hpara _ IH]; [done|].
  rewrite docx_to_txt_cons. cbn [flat_map].
  destruct (decide (Unicode.strip para = [])) as [Hs|Hs].
  { by rewrite Hs. }
  transitivity (Unicode.strip para :: read_lines (docx_to_txt paragraphs)).
  - destruct (Unicode.strip para) as [|c t] eqn:Hst; [done|]. rewrite <- Hst in *.
    unfold read_lines, splitlines.
    rewrite (splitlines_from_line (Unicode.strip para) [] _ Hpara).
    cbn [app flat_map]. rewrite strip_idempotent. by rewrite Hst.
  - rewrite IH. by destruct (Unicode.strip para).
Qed.

Lemma docx_to_txt_read_back_witness :
  read_lines (docx_to_txt [u " Luật X "; u "   "; u "Điều 1. Phạm vi"])
  = [u "Luật X"; u "Điều 1. Phạm vi"].
Proof.
  apply (docx_to_txt_read_back [u " Luật X "; u "   "; u "Điều 1. Phạm vi"]).
  repeat constructor.
Defined.

(** ** The folder run *)

Lemma fold_max_bound others :
  forall m,
    (m <= fold_left (fun m c => Z.max m (default 0%Z (chunk_id c))) others m)%Z /\
    forall e, e ∈ others ->
      (default 0 (chunk_id e)
         <= fold_left (fun m c => Z.max m (default 0%Z (chunk_id c))) others m)%Z.
Proof.
  induction others as [|c cs IH]; intros m; cbn [fold_left].
  - split; [lia|]. by intros e ?%elem_of_nil.
  - destruct (IH (Z.max m (default 0%Z (chunk_id c)))) as [Hm Hin].
    split; [lia|]. intros e [->|He]%elem_of_cons; [lia|auto].
Qed.

Lemma max_chunk_id_bound first others e :
  e ∈ first :: others ->
  (default 0 (chunk_id e) <= max_chunk_id first others)%Z.
Proof.
  unfold max_chunk_id. destruct (fold_max_bound others (default 0%Z (chunk_id first)))
    as [Hm Hin].
  intros [->|He]%elem_of_cons; [done|auto].
Qed.

Lemma load_existing_spec append_mode output :
  let '(existing_chunks, next_chunk_id, processed_files) :=
    load_existing append_mode output in
  (forall e, e ∈ existing_chunks -> (default 0 (chunk_id e) < next_chunk_id)%Z) /\
  processed_files = map saved_source_file existing_chunks /\
  (existing_chunks = [] -> next_chunk_id = 1%Z) /\
  match append_mode, output with
  | true, Loaded chunks => existing_chunks = chunks
  | _, _ => existing_chunks = []
  end.
Proof.
  destruct append_mode, output as [| |[|first others]]; cbn [load_existing];
    try (repeat split; by intros e ?%elem_of_nil).
  repeat split; [|done].
  intros e He. pose proof (max_chunk_id_bound first others e He). lia.
Qed.

Lemma assign_ids_lookup chunks :
  forall next k,
    assign_ids next chunks !! k
    = with_chunk_id (next + Z.of_nat k) <$> chunks !! k.
Proof.
  induction chunks as [|c cs IH]; intros next k; [done|].
  destruct k as [|k]; cbn [assign_ids lookup list_lookup].
  - cbn. by rewrite Z.add_0_r.
  - change ((c :: cs) !! S k) with (cs !! k).
    change ((with_chunk_id next c :: assign_ids (next + 1) cs) !! S k)
      with (assign_ids (next + 1) cs !! k).
    rewrite IH. do 2 f_equal. lia.
Qed.

Lemma assign_ids_sources chunks :
  forall next,
    map saved_source_file (assign_ids next chunks)
    = map (fun c => Some (source_file c)) chunks.
Proof.
  induction chunks as [|c cs IH]; intros next; [done|].
  cbn [assign_ids map]. by rewrite IH.
Qed.

Section FolderFacts.

Variable count_tokens : list N -> list N -> nat.
Variable model_name : list N.
Variable max_token : Z.
Variable read_text : list N -> option (list N).
Variable basename : list N -> list N.
Variable error_text : list N -> list N.
Local Abbreviation process_file' :=
  (process_file count_tokens model_name max_token read_text).
Local Abbreviation process_step' :=
  (process_step count_tokens model_name max_token read_text basename error_text).
Local Abbreviation run :=
  (process_folder_to_unified_json count_tokens model_name max_token read_text
     basename error_text).
Local Abbreviation report :=
  (fun f => ErrorFile (basename f) (error_text f)).

(** A file that is processed yields at least one chunk, and its chunks
    carry its path. *)
Lemma process_file_Some txt_file chunks :
  process_file' txt_file = Some chunks ->
  chunks <> [] /\ Forall (fun c => source_file c = txt_file) chunks.
Proof.
  unfold process_file. destruct (read_text txt_file) as [text|]; [|done].
  cbn [mbind option_bind].
  destruct (parse_legal_document_to_dict (read_lines text)) as [tree|]; [|done].
  cbn [mbind option_bind]. rewrite create_chunks_from_tree_returns.
  intros [= <-]. split.
  - rewrite final_chunks_path_chunks.
    destruct (merge_chunks_length count_tokens model_name max_token
                (path_chunks count_tokens model_name []
                   (Node (-1) (ten_van_ban tree) (tree_content tree)))) as [_ Hne].
    specialize (Hne (path_chunks_nonempty _ _ _ _)).
    by destruct (merge_chunks _ _ _ _).
  - apply Forall_forall. by intros c (x & -> & _)%list_elem_of_fmap.
Qed.

Lemma fold_process_step files :
  forall st,
    fold_left process_step' files st
    = (st.1 ++ flat_map (fun f => default [] (process_file' f)) files,
       st.2 ++ map report (filter (fun f => process_file' f = None) files)).
Proof.
  induction files as [|f files IH]; intros [new errors]; cbn [fold_left fst snd].
  - cbn [map]. by rewrite !app_nil_r.
  - rewrite IH. unfold process_step. cbn [flat_map]. rewrite filter_cons.
    destruct (process_file' f) as [chunks|]; cbn [fst snd default].
    + rewrite decide_False by done. by rewrite <- app_assoc.
    + rewrite decide_True by done. cbn [map]. by rewrite <- app_assoc.
Qed.

(** The run, with the loops read as a whole. *)
Lemma run_unfold append_mode output txt_files written errors :
  run append_mode output txt_files = (Some written, errors) ->
  let new_txt_files :=
    filter (fun f => Some f ∉ (load_existing append_mode output).2) txt_files in
  new_txt_files <> [] /\
  written = (load_existing append_mode output).1.1 ++
            assign_ids (load_existing append_mode output).1.2
              (flat_map (fun f => default [] (process_file' f)) new_txt_files) /\
  errors = map report (filter (fun f => process_file' f = None) new_txt_files).
Proof.
  unfold process_folder_to_unified_json.
  destruct (load_existing append_mode output) as [[existing next] processed].
  cbn [fst snd]. destruct (filter _ txt_files) as [|f fs] eqn:Hnew; [done|].
  rewrite fold_process_step. cbn [fst snd app]. intros [= <- <-]. done.
Qed.

End FolderFacts.

(** X8.  When the run writes the output file, what it writes is the loaded
    chunks, unchanged and in order, followed by the new chunks; the new
    chunks are numbered consecutively from [next_chunk_id], which exceeds
    the id of every loaded chunk (a missing id counting as 0) and is 1 when
    nothing was loaded, so no new id repeats a loaded one or another new
    one. *)
Theorem chunk_ids_fresh count_tokens model_name max_token read_text
    basename error_text append_mode output txt_files written errors :
  process_folder_to_unified_json count_tokens model_name max_token read_text
    basename error_text append_mode output txt_files = (Some written, errors) ->
  let existing_chunks := (load_existing append_mode output).1.1 in
  let next_chunk_id := (load_existing append_mode output).1.2 in
  exists new_chunks,
    written = existing_chunks ++ new_chunks /\
    (forall k c, new_chunks !! k = Some c ->
       chunk_id c = Some (next_chunk_id + Z.of_nat k)%Z) /\
    (forall e, e ∈ existing_chunks ->
       (default 0 (chunk_id e) < next_chunk_id)%Z) /\
    (existing_chunks = [] -> next_chunk_id = 1%Z) /\
    NoDup (map chunk_id new_chunks).
Proof.
  intros Hrun existing_chunks next_chunk_id.
  apply run_unfold in Hrun as (_ & -> & _).
  eexists. split; [done|].
  pose proof (load_existing_spec append_mode output) as Hload.
  destruct (load_existing append_mode output) as [[existing next] processed].
  cbn [fst snd] in *. destruct Hload as (Hlt & _ & Hone & _).
  assert (Hid : forall k c,
    assign_ids next (flat_map (fun f => default []
        (process_file count_tokens model_name max_token read_text f))
        (filter (fun f => Some f ∉ processed) txt_files)) !! k = Some c ->
    chunk_id c = Some (next + Z.of_nat k)%Z).
  { intros k c. rewrite assign_ids_lookup. intros (o & _ & ->)%fmap_Some. done. }
  split; [done|]. split; [done|]. split; [done|].
  apply NoDup_alt. intros i j x Hi Hj.
  apply list_lookup_fmap_Some in Hi as (ci & Hxi & Hci).
  apply list_lookup_fmap_Some in Hj as (cj & Hxj & Hcj).
  pose proof (Hid i ci Hci) as Hi'. pose proof (Hid j cj Hcj) as Hj'.
  rewrite <- Hxi in Hi'. rewrite <- Hxj in Hj'. rewrite Hi' in Hj'.
  injection Hj'. lia.
Qed.

Lemma chunk_ids_fresh_witness :
  let read_text := fun path : list N =>
    if bool_decide (path = u "b.txt") then Some (u "Luật X") else None in
  let error_text := fun path : list N => u "No such file" in
  let existing := [SavedChunk (Some 7%Z) (Some (u "a.txt")) [] 3 (u "Luật.")] in
  process_folder_to_unified_json code_points MODEL_NAME MAX_TOKEN read_text
    posix_basename error_text true (Loaded existing) [u "a.txt"; u "b.txt"]
  = (Some (existing ++ [SavedChunk (Some 8%Z) (Some (u "b.txt")) [] 7 (u "Luật X.")]), [])
  /\ exists new_chunks,
       existing ++ [SavedChunk (Some 8%Z) (Some (u "b.txt")) [] 7 (u "Luật X.")]
       = existing ++ new_chunks /\ NoDup (map chunk_id new_chunks).
Proof.
  intros read_text error_text existing.
  assert (H : process_folder_to_unified_json code_points MODEL_NAME MAX_TOKEN
                read_text posix_basename error_text true (Loaded existing)
                [u "a.txt"; u "b.txt"]
              = (Some (existing ++ [SavedChunk (Some 8%Z) (Some (u "b.txt")) []
                                               7 (u "Luật X.")]), []))
    by (vm_compute; reflexivity).
  split; [exact H|].
  destruct (chunk_ids_fresh _ _ _ _ _ _ _ _ _ _ _ H) as (new & Hw & _ & _ & _ & Hnd).
  exists new. split; [exact Hw|exact Hnd].
Defined.

(** X9.  A file whose path is the source of a loaded chunk is not processed
    again.  Every new chunk names as its source a file of [txt_files] that
    no loaded chunk names and on which the [try] block did not raise, and
    every such file has at least one chunk among the new ones.
    [error_files] has one entry for each remaining new file, in the order
    of [txt_files] and as often as the file is listed: the base name of the
    file with the text of its exception, so that files of different folders
    with one base name are reported under the same name. *)
Theorem processed_files_skipped count_tokens model_name max_token read_text
    basename error_text append_mode output txt_files written errors :
  process_folder_to_unified_json count_tokens model_name max_token read_text
    basename error_text append_mode output txt_files = (Some written, errors) ->
  let process := process_file count_tokens model_name max_token read_text in
  let existing_chunks := (load_existing append_mode output).1.1 in
  let new_file := fun f =>
    f ∈ txt_files /\ Some f ∉ map saved_source_file existing_chunks in
  let failed :=
    filter (fun f => process f = None)
           (filter (fun f => Some f ∉ map saved_source_file existing_chunks)
                   txt_files) in
  exists new_chunks,
    written = existing_chunks ++ new_chunks /\
    (forall c, c ∈ new_chunks ->
       exists f, saved_source_file c = Some f /\ new_file f /\ is_Some (process f)) /\
    (forall f, new_file f -> is_Some (process f) ->
       exists c, c ∈ new_chunks /\ saved_source_file c = Some f) /\
    errors = map (fun f => ErrorFile (basename f) (error_text f)) failed /\
    (forall f, f ∈ failed <-> new_file f /\ process f = None).
Proof.
  intros Hrun process existing_chunks new_file failed.
  apply run_unfold in Hrun as (_ & -> & ->).
  pose proof (load_existing_spec append_mode output) as Hload.
  unfold failed, new_file, existing_chunks. clear failed new_file existing_chunks.
  destruct (load_existing append_mode output) as [[existing next] processed].
  cbn [fst snd] in *. destruct Hload as (_ & -> & _).
  fold process.
  set (new_files := filter (fun f => Some f ∉ map saved_source_file existing) txt_files).
  assert (Hnew : forall f, f ∈ new_files <->
            f ∈ txt_files /\ Some f ∉ map saved_source_file existing).
  { intros f. unfold new_files. rewrite list_elem_of_filter. tauto. }
  eexists. split; [done|]. split; [|split; [|split; [done|]]].
  - intros c Hc. apply list_elem_of_lookup in Hc as [k Hk].
    rewrite assign_ids_lookup in Hk. apply fmap_Some in Hk as (o & Ho & ->).
    apply list_elem_of_lookup_2 in Ho.
    apply elem_of_flat_map in Ho as (f & Hf & Ho).
    destruct (process f) as [chunks|] eqn:Hp; [|by apply elem_of_nil in Ho].
    destruct (process_file_Some _ _ _ _ _ _ Hp) as [_ Hsrc].
    rewrite Forall_forall in Hsrc. exists f. cbn. rewrite (Hsrc o Ho).
    split; [done|]. split; [by apply Hnew|by eexists].
  - intros f Hf [chunks Hp].
    destruct (process_file_Some _ _ _ _ _ _ Hp) as [Hne Hsrc].
    destruct chunks as [|o chunks]; [done|].
    apply Forall_cons in Hsrc as [Hsrc _].
    assert (Ho : o ∈ flat_map (fun f => default [] (process f)) new_files).
    { apply elem_of_flat_map. exists f. split; [by apply Hnew|].
      rewrite Hp. left. }
    apply list_elem_of_lookup in Ho as [k Hk].
    exists (with_chunk_id (next + Z.of_nat k) o). split.
    + apply list_elem_of_lookup. exists k. rewrite assign_ids_lookup, Hk. done.
    + cbn. by rewrite Hsrc.
  - intros f. rewrite list_elem_of_filter, Hnew. tauto.
Qed.

Lemma processed_files_skipped_witness :
  let read_text := fun path : list N =>
    if bool_decide (path = u "in/b/x.txt") then Some (u "Luật X") else None in
  let error_text := fun path : list N => u "No such file: " ++ path in
  let existing := [SavedChunk (Some 7%Z) (Some (u "in/a.txt")) [] 3 (u "Luật.")] in
  let new_chunk := SavedChunk (Some 8%Z) (Some (u "in/b/x.txt")) [] 7 (u "Luật X.") in
  let txt_files := [u "in/a.txt"; u "in/a/x.txt"; u "in/b/x.txt"; u "in/c/x.txt"] in
  process_folder_to_unified_json code_points MODEL_NAME MAX_TOKEN read_text
    posix_basename error_text true (Loaded existing) txt_files
  = (Some (existing ++ [new_chunk]),
     [ErrorFile (u "x.txt") (u "No such file: in/a/x.txt");
      ErrorFile (u "x.txt") (u "No such file: in/c/x.txt")])
  /\ (u "in/c/x.txt"
        ∈ filter (fun f => process_file code_points MODEL_NAME MAX_TOKEN read_text f
                           = None)
                 (filter (fun f => Some f ∉ map saved_source_file existing) txt_files)
      <-> (u "in/c/x.txt" ∈ txt_files /\
           Some (u "in/c/x.txt") ∉ map saved_source_file existing) /\
          process_file code_points MODEL_NAME MAX_TOKEN read_text (u "in/c/x.txt")
          = None).
Proof.
  intros read_text error_text existing new_chunk txt_files.
  assert (H : process_folder_to_unified_json code_points MODEL_NAME MAX_TOKEN
                read_text posix_basename error_text true (Loaded existing) txt_files
              = (Some (existing ++ [new_chunk]),
                 [ErrorFile (u "x.txt") (u "No such file: in/a/x.txt");
                  ErrorFile (u "x.txt") (u "No such file: in/c/x.txt")]))
    by (vm_compute; reflexivity).
  split; [exact H|].
  destruct (processed_files_skipped _ _ _ _ _ _ _ _ _ _ _ H)
    as (new & _ & _ & _ & _ & Hfailed).
  exact (Hfailed (u "in/c/x.txt")).
Defined.

Lemma filter_iff_in {A} (P1 P2 : A -> Prop)
    `{!forall x, Decision (P1 x), !forall x, Decision (P2 x)} (l : list A) :
  (forall x, x ∈ l -> P1 x <-> P2 x) -> filter P1 l = filter P2 l.
Proof.
  induction l as [|x l IH]; intros Hl; [done|]. rewrite !filter_cons.
  rewrite IH by (intros y Hy; apply Hl; by right).
  destruct (decide (P1 x)) as [H1|H1], (decide (P2 x)) as [H2|H2];
    try done; exfalso; apply (Hl x) in H1 || apply (Hl x) in H2; try done; left.
Qed.

(** The files that a second run takes as new are those that failed, and
    [error_files] has one entry for each of them. *)
Lemma rerun_new_files count_tokens model_name max_token read_text
    basename error_text append_mode output txt_files written errors :
  process_folder_to_unified_json count_tokens model_name max_token read_text
    basename error_text append_mode output txt_files = (Some written, errors) ->
  length (filter (fun f => Some f ∉ map saved_source_file written) txt_files)
  = length errors.
Proof.
  intros Hrun. apply run_unfold in Hrun as (_ & -> & ->).
  pose proof (load_existing_spec append_mode output) as Hload.
  destruct (load_existing append_mode output) as [[existing next] processed].
  cbn [fst snd] in *. destruct Hload as (_ & -> & _).
  set (process := process_file count_tokens model_name max_token read_text).
  rewrite length_map, list_filter_filter. f_equal.
  apply filter_iff_in. intros f Hf.
  rewrite map_app, assign_ids_sources, not_elem_of_app. split.
  - intros [Hold Hnew]. split; [|done].
    destruct (process f) as [chunks|] eqn:Hp; [|done]. destruct Hnew.
    destruct (process_file_Some _ _ _ _ _ _ Hp) as [Hne Hsrc].
    destruct chunks as [|o chunks]; [done|].
    apply Forall_cons in Hsrc as [Hsrc _].
    apply list_elem_of_fmap. exists o. split; [by rewrite Hsrc|].
    apply elem_of_flat_map. exists f. split.
    + by apply list_elem_of_filter.
    + fold process. rewrite Hp. left.
  - intros [Hnone Hold]. split; [done|].
    intros (o & Ho & Hin)%list_elem_of_fmap.
    apply elem_of_flat_map in Hin as (g & Hg & Hin). fold process in Hin.
    destruct (process g) as [chunks|] eqn:Hp; [|by apply elem_of_nil in Hin].
    destruct (process_file_Some _ _ _ _ _ _ Hp) as [_ Hsrc].
    rewrite Forall_forall in Hsrc. rewrite (Hsrc o Hin) in Ho.
    injection Ho as ->. congruence.
Qed.

(** X10.  A run that wrote the output file and reported no failed file
    leaves nothing to do: run again in append mode on what it wrote, with
    the same files, the function finds no new file and writes nothing. *)
Theorem rerun_writes_nothing count_tokens model_name max_token read_text
    basename error_text append_mode output txt_files written :
  process_folder_to_unified_json count_tokens model_name max_token read_text
    basename error_text append_mode output txt_files = (Some written, []) ->
  process_folder_to_unified_json count_tokens model_name max_token read_text
    basename error_text true (Loaded written) txt_files = (None, []).
Proof.
  intros Hrun. apply rerun_new_files in Hrun.
  unfold process_folder_to_unified_json. cbn [load_existing].
  destruct (filter _ txt_files) as [|f fs]; [done|]. by cbn in Hrun.
Qed.

Lemma rerun_writes_nothing_witness :
  let read_text := fun path : list N =>
    if bool_decide (path = u "b.txt") then Some (u "Luật X") else None in
  let error_text := fun path : list N => u "No such file" in
  let existing := [SavedChunk (Some 7%Z) (Some (u "a.txt")) [] 3 (u "Luật.")] in
  let written :=
    existing ++ [SavedChunk (Some 8%Z) (Some (u "b.txt")) [] 7 (u "Luật X.")] in
  process_folder_to_unified_json code_points MODEL_NAME MAX_TOKEN read_text
    posix_basename error_text true (Loaded existing) [u "a.txt"; u "b.txt"]
    = (Some written, []) /\
  process_folder_to_unified_json code_points MODEL_NAME MAX_TOKEN read_text
    posix_basename error_text true (Loaded written) [u "a.txt"; u "b.txt"]
    = (None, []).
Proof.
  intros read_text error_text existing written.
  assert (H : process_folder_to_unified_json code_points MODEL_NAME MAX_TOKEN
                read_text posix_basename error_text true (Loaded existing)
                [u "a.txt"; u "b.txt"]
              = (Some written, [])) by (vm_compute; reflexivity).
  split; [exact H|].
  exact (rerun_writes_nothing _ _ _ _ _ _ _ _ _ _ H).
Defined.

(** ** The tree and the document, as theorems *)

(** X11.  The parser loses nothing and keeps the order of the document, up
    to where an appendix starts: the lines before the first heading are the
    "nội dung không lưu" list, and the nodes of the tree, read parents first
    and children from left to right, are exactly the lines that match a
    pattern, in the document's order, each with the level of its pattern and
    with the unmatched lines that follow it appended to it after single
    spaces. *)
Theorem tree_in_document_order lines :
  let lines' := match appendix_start_index lines with
                | Some k => take k lines
                | None => lines
                end in
  exists tree,
    parse_legal_document_to_dict lines = Some tree /\
    flat_map preorder (tree_content tree) = headings lines' /\
    noi_dung_khong_luu tree = body lines'.
Proof.
  intros lines'. unfold parse_legal_document_to_dict. fold lines'.
  destruct (reify_build lines') as (r & Hr & _). rewrite Hr.
  cbn [mbind option_bind]. eexists. split; [reflexivity|].
  cbn [tree_content noi_dung_khong_luu].
  destruct (build_frames lines') as (frames0 & l & c & Hchain & _ & Hpre & Hbody & _).
  split; [|done].
  apply chain_rep in Hchain as (t & Hplug & Hrep).
  rewrite (rep_reify _ _ _ _ _ _ _ Hrep Hr).
  rewrite Hplug in Hpre. destruct t as [tl tc ts].
  cbn [flat_map preorder level content children] in Hpre.
  rewrite app_nil_r in Hpre. by injection Hpre.
Qed.

(** X12.  In the tree, no heading is deeper than a sibling before it: under
    every node, the root included, the levels of the children never increase
    from left to right (a deeper heading would have become a descendant of
    the sibling before it). *)
Theorem sibling_levels_never_increase lines :
  exists tree,
    parse_legal_document_to_dict lines = Some tree /\
    siblings_sorted (Node (-1) [] (tree_content tree)) = true.
Proof.
  unfold parse_legal_document_to_dict.
  set (lines' := match appendix_start_index lines with
                 | Some k => take k lines
                 | None => lines
                 end).
  destruct (reify_build lines') as (r & Hr & _). rewrite Hr.
  cbn [mbind option_bind]. eexists. split; [reflexivity|].
  cbn [tree_content].
  destruct (build_frames lines') as (frames0 & l & c & Hchain & Hsorted & _).
  apply frames_sorted_plug in Hsorted.
  apply chain_rep in Hchain as (t & Hplug & Hrep).
  rewrite (rep_reify _ _ _ _ _ _ _ Hrep Hr).
  rewrite Hplug in Hsorted. apply Forall_inv in Hsorted.
  by destruct t.
Qed.

Lemma elem_of_preorder n l c :
  (l, c) ∈ preorder n <-> exists m, subnode m n /\ level m = l /\ content m = c.
Proof.
  revert l c. induction n as [nl nc cs IH] using node_ind; intros l c.
  cbn [preorder level content children]. rewrite elem_of_cons, elem_of_flat_map.
  split.
  - intros [[= -> ->]|(child & Hchild & Hin)].
    + eexists. split; [apply subnode_here|done].
    + rewrite Forall_forall in IH. apply (IH child Hchild) in Hin as (m & Hm & Hl & Hc).
      exists m. split; [|done]. by apply (subnode_below m child).
  - intros (m & Hm & Hl & Hc). inversion Hm as [|m' child n' Hchild Hsub]; subst.
    + by left.
    + right. exists child. split; [done|].
      rewrite Forall_forall in IH. apply (IH child Hchild). by exists m.
Qed.

(** X13.  From the lines of a document to the lines of its chunks: every
    heading of the document (up to where an appendix starts), with the
    unmatched lines appended to it and the closing period added where it is
    missing, is a line of some final chunk, and the final chunks have no
    line but these and the title; what stands before the first heading
    reaches a chunk only through the title. *)
Theorem chunk_lines_are_headings count_tokens model_name max_token lines :
  let lines' := match appendix_start_index lines with
                | Some k => take k lines
                | None => lines
                end in
  exists tree,
    parse_legal_document_to_dict lines = Some tree /\
    let final := final_chunks count_tokens model_name max_token
                              (ten_van_ban tree) (tree_content tree) in
    (forall l text, (l, text) ∈ headings lines' ->
       exists c, c ∈ final /\ ensure_punctuation text ∈ chunk_content c) /\
    (forall c line, c ∈ final -> line ∈ chunk_content c ->
       line = ensure_punctuation (ten_van_ban tree) \/
       exists l text, (l, text) ∈ headings lines' /\ line = ensure_punctuation text).
Proof.
  intros lines'. unfold parse_legal_document_to_dict. fold lines'.
  destruct (reify_build lines') as (r & Hr & _). rewrite Hr.
  cbn [mbind option_bind]. eexists. split; [reflexivity|].
  cbn [tree_content ten_van_ban]. set (title := match find_title lines with
                                                 | Some ((_ :: _) as t) => t
                                                 | _ => unknown_title
                                                 end).
  assert (Hpre : flat_map preorder (children r) = headings lines').
  { destruct (build_frames lines') as (frames0 & l & c & Hchain & _ & Hpre & _).
    apply chain_rep in Hchain as (t & Hplug & Hrep).
    rewrite (rep_reify _ _ _ _ _ _ _ Hrep Hr).
    rewrite Hplug in Hpre. destruct t as [tl tc ts].
    cbn [flat_map preorder level content children] in Hpre.
    rewrite app_nil_r in Hpre. by injection Hpre. }
  rewrite <- Hpre. split.
  - intros l text (child & Hchild & Hin)%elem_of_flat_map.
    apply elem_of_preorder in Hin as (m & Hm & _ & <-).
    apply final_chunks_cover. by apply (subnode_below m child).
  - intros c line Hc Hline.
    destruct (final_chunks_lines _ _ _ _ _ _ _ Hc Hline) as (m & Hm & ->).
    inversion Hm as [|m' child n' Hchild Hsub]; subst; [by left|right].
    exists (level m), (content m). split; [|done].
    apply elem_of_flat_map. exists child. split; [done|].
    apply elem_of_preorder. by exists m.
Qed.

(** ** The embedder *)

Lemma extract_text_record_of c :
  extract_text (record_of c) = Some (Unicode.strip (saved_chunk_content c)).
Proof.
  assert (Hkey : record_of c !! u "chunk_content" = Some (JString (saved_chunk_content c))).
  { unfold record_of.
    assert (Hfields :
      ({[ u "url" := JString (saved_url c);
          u "token_length" := JNumber (Z.of_nat (saved_token_length c));
          u "chunk_content" := JString (saved_chunk_content c) ]} : gmap str json)
        !! u "chunk_content" = Some (JString (saved_chunk_content c))).
    { rewrite lookup_insert_ne by (by vm_compute).
      rewrite lookup_insert_ne by (by vm_compute).
      apply lookup_singleton_eq. }
    destruct (chunk_id c), (saved_source_file c);
      rewrite ?lookup_insert_ne by (by vm_compute); exact Hfields. }
  unfold extract_text, TEXT_KEYS. cbn [first_text]. by rewrite Hkey.
Qed.

Lemma valid_chunks_fold chunks :
  forall st,
    fold_left (fun st c =>
                 match extract_text c with
                 | Some ((_ :: _) as t) => (st.1 ++ [t], st.2 ++ [c])
                 | _ => st
                 end)
              chunks st =
    (st.1 ++ (valid_chunks chunks).1, st.2 ++ (valid_chunks chunks).2).
Proof.
  unfold valid_chunks.
  induction chunks as [|c chunks IH]; intros [texts metadata]; cbn [fold_left].
  - cbn [fst snd]. by rewrite !app_nil_r.
  - rewrite IH. symmetry. rewrite IH.
    destruct (extract_text c) as [[|ch t]|]; cbn [fst snd app];
      by rewrite <- ?app_assoc.
Qed.

Lemma valid_chunks_cons c chunks :
  valid_chunks (c :: chunks) =
  match extract_text c with
  | Some ((_ :: _) as t) =>
      (t :: (valid_chunks chunks).1, c :: (valid_chunks chunks).2)
  | _ => valid_chunks chunks
  end.
Proof.
  unfold valid_chunks at 1. cbn [fold_left]. rewrite valid_chunks_fold.
  destruct (extract_text c) as [[|ch t]|]; cbn [fst snd app]; try done.
  all: by destruct (valid_chunks chunks).
Qed.

Lemma output_not_blank count_tokens model_name max_token root_title nodes
    source_file_path c :
  c ∈ final_chunks count_tokens model_name max_token root_title nodes ->
  Unicode.strip (out_chunk_content (to_output source_file_path c)) <> [].
Proof.
  intros Hc. destruct (final_chunks_start _ _ _ _ _ _ Hc) as [rest Hcc].
  cbn [to_output out_chunk_content]. rewrite Hcc.
  pose proof (ensure_punctuation_ends root_title) as Hline.
  destruct (not_blank_elem _ (ends_with_mark_not_blank _ Hline)) as (ch & Hch & Hsp).
  apply (elem_not_blank _ ch); [|done].
  apply (join_elem _ _ (ensure_punctuation root_title)); [left|done].
Qed.

(** X14.  The embedder drops none of the chunks that the chunker has
    written: for the records of the chunks of any tree, numbered from any
    chunk id, [texts] holds the stripped content of every chunk, in order,
    and [metadata] is the list of records as it was read. *)
Theorem embedder_keeps_new_chunks count_tokens model_name max_token tree
    source_file_path next_chunk_id :
  exists outs,
    create_chunks_from_tree count_tokens model_name max_token tree source_file_path
      = Return outs /\
    let records := map record_of (assign_ids next_chunk_id outs) in
    valid_chunks records =
      (map (fun o => Unicode.strip (out_chunk_content o)) outs, records).
Proof.
  rewrite create_chunks_from_tree_returns. eexists. split; [reflexivity|].
  assert (Hall : Forall (fun o => Unicode.strip (out_chunk_content o) <> [])
                        (map (to_output source_file_path)
                             (final_chunks count_tokens model_name max_token
                                           (ten_van_ban tree) (tree_content tree)))).
  { apply Forall_forall. intros o (c & -> & Hc)%list_elem_of_fmap.
    by apply (output_not_blank count_tokens model_name max_token
                (ten_van_ban tree) (tree_content tree)). }
  revert next_chunk_id Hall.
  generalize (map (to_output source_file_path)
                  (final_chunks count_tokens model_name max_token
                                (ten_van_ban tree) (tree_content tree))).
  intros outs next_chunk_id Hall. revert next_chunk_id.
  induction Hall as [|o outs Ho _ IH]; intros next_chunk_id; [done|].
  cbn [assign_ids map]. cbn zeta in *. rewrite valid_chunks_cons, extract_text_record_of.
  cbn [with_chunk_id saved_chunk_content].
  destruct (Unicode.strip (out_chunk_content o)) as [|ch t]; [done|].
  by rewrite IH.
Qed.

(** ** Batches *)

Lemma range_step_pos stop step :
  (0 < step)%nat -> (0 < stop)%nat ->
  range_step stop step = O :: map (fun i => (i + step)%nat) (range_step (stop - step) step).
Proof.
  intros Hstep Hstop. unfold range_step.
  assert (Hdiv : ((stop + step - 1) / step = S ((stop - step + step - 1) / step))%nat).
  { destruct (decide (stop <= step)%nat) as [Hle|Hgt].
    - replace (stop - step)%nat with O by lia.
      rewrite (Nat.div_small (0 + step - 1)) by lia.
      assert (stop + step - 1 = 1 * step + (stop - 1))%nat as -> by lia.
      rewrite Nat.div_add_l by lia. rewrite Nat.div_small by lia. lia.
    - assert (stop + step - 1 = 1 * step + (stop - step + step - 1))%nat as -> by lia.
      rewrite Nat.div_add_l by lia. lia. }
  rewrite Hdiv. cbn [seq map]. f_equal.
  rewrite <- seq_shift, !map_map. apply map_ext. intros k. lia.
Qed.

Lemma batches_unfold {A} (texts : list A) :
  batches texts =
  match texts with
  | [] => []
  | _ => take BATCH_SIZE texts :: batches (drop BATCH_SIZE texts)
  end.
Proof.
  destruct texts as [|x texts]; [done|].
  unfold batches at 1.
  rewrite range_step_pos by (unfold BATCH_SIZE; cbn [length]; lia).
  cbn [map]. f_equal. unfold batches. rewrite map_map, length_drop.
  apply map_ext. intros i. by rewrite drop_drop, (Nat.add_comm i).
Qed.

Lemma batches_ind {A} (P : list A -> Prop) :
  P [] ->
  (forall texts, texts <> [] -> P (drop BATCH_SIZE texts) -> P texts) ->
  forall texts, P texts.
Proof.
  intros Hnil Hstep texts.
  remember (length texts) as n eqn:Hn. revert texts Hn.
  induction n as [n IH] using lt_wf_ind. intros texts ->.
  destruct texts as [|x texts]; [done|]. apply Hstep; [done|].
  apply (IH (length (drop BATCH_SIZE (x :: texts)))); [|done].
  rewrite length_drop. cbn. lia.
Qed.

(** X15.  The batches of the embedding loop cut the texts without loss or
    overlap: put end to end they are the list of texts, no batch is empty
    and none has more than [BATCH_SIZE] texts, and only the last one can
    have fewer. *)
Theorem batches_partition {A} (texts : list A) :
  concat (batches texts) = texts /\
  Forall (fun batch => (1 <= length batch <= BATCH_SIZE)%nat) (batches texts) /\
  (forall i batch, batches texts !! i = Some batch ->
     (S i < length (batches texts))%nat -> length batch = BATCH_SIZE).
Proof.
  induction texts as [|texts Hne (IHconcat & IHsize & IHfull)] using batches_ind.
  { repeat split; [constructor|]. intros i batch Hi. done. }
  rewrite batches_unfold. destruct texts as [|x texts]; [done|].
  set (l := x :: texts) in *. split; [|split].
  - cbn [concat]. rewrite IHconcat. apply take_drop.
  - constructor; [|done]. rewrite length_take. unfold BATCH_SIZE, l. cbn [length]. lia.
  - intros [|i] batch Hi Hlen.
    + assert (Hbatch : batch = take BATCH_SIZE l) by (by injection Hi).
      rewrite Hbatch. clear Hi Hbatch. cbn [length] in Hlen.
      destruct (batches (drop BATCH_SIZE l)) as [|b bs] eqn:Hb; [cbn in Hlen; lia|].
      rewrite batches_unfold in Hb.
      destruct (drop BATCH_SIZE l) as [|y ys] eqn:Hdrop; [done|].
      rewrite length_take. apply (f_equal length) in Hdrop.
      rewrite length_drop in Hdrop. cbn [length] in Hdrop. lia.
    + cbn [length] in Hlen. apply (IHfull i batch); [done|lia].
Qed.

Lemma valid_chunks_spec chunks :
  Forall2 (fun t c => extract_text c = Some t /\ t <> [])
          (valid_chunks chunks).1 (valid_chunks chunks).2 /\
  sublist (valid_chunks chunks).2 chunks /\
  (forall c ch t, c ∈ chunks -> extract_text c = Some (ch :: t) ->
                  c ∈ (valid_chunks chunks).2).
Proof.
  induction chunks as [|c chunks (IHtexts & IHsub & IHin)].
  { repeat split; [constructor|constructor|]. by intros c ch t ?%elem_of_nil. }
  rewrite valid_chunks_cons.
  destruct (extract_text c) as [[|ch t]|] eqn:Hc; cbn [fst snd].
  - repeat split; [done|by constructor|].
    intros c' ch' t' [->|Hc']%elem_of_cons He; [congruence|by eapply IHin].
  - repeat split; [by constructor|by constructor|].
    intros c' ch' t' [->|Hc']%elem_of_cons He; [left|right; by eapply IHin].
  - repeat split; [done|by constructor|].
    intros c' ch' t' [->|Hc']%elem_of_cons He; [congruence|by eapply IHin].
Qed.

(** X16.  The embedder gives every record that it keeps one vector and
    keeps the two lists in step: when the model returns one row for each
    text of a batch, the rows of all batches are as many as the records of
    [metadata]; [metadata] holds, in the order of the file, exactly the
    chunks with a text that is not blank, and the i-th text is the stripped
    text of the i-th record. *)
Theorem one_vector_per_record {vector} (truncate : str -> str)
    (encode : list str -> list vector) chunks :
  (forall batch, length (encode batch) = length batch) ->
  let texts := (valid_chunks chunks).1 in
  let metadata := (embed vector truncate encode chunks).1 in
  let all_embeddings := (embed vector truncate encode chunks).2 in
  length (concat all_embeddings) = length metadata /\
  Forall2 (fun t c => extract_text c = Some t) texts metadata /\
  sublist metadata chunks /\
  (forall c, c ∈ metadata <->
             c ∈ chunks /\ exists ch t, extract_text c = Some (ch :: t)).
Proof.
  intros Hencode texts metadata all_embeddings.
  destruct (valid_chunks_spec chunks) as (Htexts & Hsub & Hin).
  assert (Hmeta : metadata = (valid_chunks chunks).2).
  { unfold metadata, embed. by destruct (valid_chunks chunks). }
  assert (Hemb : all_embeddings = map encode (batches (truncate_texts truncate texts))).
  { unfold all_embeddings, embed, texts. by destruct (valid_chunks chunks). }
  rewrite Hmeta, Hemb. split; [|split; [|split]].
  - rewrite <- (Forall2_length _ _ _ Htexts). fold texts.
    transitivity (length (truncate_texts truncate texts));
      [|unfold truncate_texts; apply length_map].
    generalize (truncate_texts truncate texts). intros l.
    induction l as [|l Hne IH] using batches_ind; [done|].
    rewrite batches_unfold. destruct l as [|x l]; [done|].
    cbn [map concat]. rewrite length_app, Hencode, IH.
    rewrite <- length_app. by rewrite take_drop.
  - eapply Forall2_impl; [exact Htexts|]. by intros t c [Ht _].
  - done.
  - intros c. split.
    + intros Hc. split; [by eapply elem_of_sublist|].
      apply (Forall2_Forall_r _ (fun c => exists ch t, extract_text c = Some (ch :: t)))
        in Htexts.
      * by apply (proj1 (Forall_forall _ _) Htexts).
      * apply Forall_forall. intros [|ch t] _ c' [He Hne]; [done|]. by exists ch, t.
    + intros [Hc (ch & t & He)]. by eapply Hin.
Qed.

Lemma one_vector_per_record_witness :
  let chunks : list (gmap str json) :=
    [ {[ u "chunk_content" := JString (u "Luật X. Điều 1.") ]};
      {[ u "chunk_content" := JString (u "   ") ]};
      {[ u "text" := JString (u " Điều 2. ") ]} ] in
  let encode := map (fun text : str => length text) in
  (forall batch, length (encode batch) = length batch) /\
  length (concat (embed nat id encode chunks).2) = 2%nat.
Proof.
  intros chunks encode.
  assert (Hencode : forall batch, length (encode batch) = length batch).
  { intros batch. apply length_map. }
  split; [exact Hencode|].
  destruct (one_vector_per_record id encode chunks Hencode) as (Hlen & _).
  rewrite Hlen. by vm_compute.
Defined.

(** ** The search engine *)

Lemma getitem_negative {A} (l : list A) (idx : Z) :
  (- Z.of_nat (length l) <= idx < 0)%Z ->
  getitem l idx = l !! (length l - Z.to_nat (- idx))%nat /\
  is_Some (getitem l idx).
Proof.
  intros Hidx. unfold getitem.
  rewrite (proj2 (Z.leb_gt 0 idx)) by lia.
  rewrite (proj2 (Z.leb_le _ _)) by lia.
  replace (Z.to_nat (Z.of_nat (length l) + idx))
    with (length l - Z.to_nat (- idx))%nat by lia.
  split; [done|]. apply lookup_lt_is_Some. lia.
Qed.

(** X17.  [search] tests a returned index against the number of records
    from above only: a hit with a negative index that list indexing accepts
    is not dropped but reported, at the rank of its position, with the
    record counted from the end of [metadata] (the last record for -1),
    provided that no other hit makes the indexing raise. *)
Theorem search_negative_index {D M} (metadata : list M) (hits : list (D * Z))
    (i : nat) (dist : D) (idx : Z) :
  hits !! i = Some (dist, idx) ->
  (- Z.of_nat (length metadata) <= idx < 0)%Z ->
  Forall (fun hit => (- Z.of_nat (length metadata) <= hit.2)%Z) hits ->
  exists results m,
    search D M metadata hits = Some results /\
    metadata !! (length metadata - Z.to_nat (- idx))%nat = Some m /\
    SearchResult D M (i + 1) dist m ∈ results.
Proof.
  intros Hi Hidx Hall. unfold search.
  assert (Hgen : forall start i,
    hits !! i = Some (dist, idx) ->
    exists results m,
      collect_results D M metadata start hits = Some results /\
      metadata !! (length metadata - Z.to_nat (- idx))%nat = Some m /\
      SearchResult D M (start + i + 1) dist m ∈ results);
    [|exact (Hgen O i Hi)].
  clear i Hi.
  induction Hall as [|[dist' idx'] hits Hhit Htail IH]; intros start i Hi; [done|].
  cbn [collect_results]. cbn [snd] in Hhit.
  assert (Hget : (idx' <? Z.of_nat (length metadata))%Z = true ->
                 is_Some (getitem metadata idx')).
  { intros Hlt%Z.ltb_lt. destruct (Z.le_gt_cases 0 idx').
    - unfold getitem. rewrite (proj2 (Z.leb_le 0 idx')) by lia.
      apply lookup_lt_is_Some. lia.
    - apply getitem_negative. lia. }
  destruct i as [|i].
  - injection Hi as -> ->.
    destruct (getitem_negative metadata idx Hidx) as [Hneg [m Hm]].
    rewrite (proj2 (Z.ltb_lt _ _)) by lia. rewrite Hm. cbn [mbind option_bind].
    assert (Hrest : exists rest, collect_results D M metadata (S start) hits = Some rest).
    { clear -Htail. revert Htail. generalize (S start).
      induction hits as [|[d x] hits IHhits]; intros n Hall; [by eexists|].
      apply Forall_cons in Hall as [Hx Hall]. cbn [snd] in Hx.
      cbn [collect_results]. destruct (IHhits (S n) Hall) as [rest ->].
      destruct (x <? Z.of_nat (length metadata))%Z eqn:Hlt; [|by eexists].
      assert (is_Some (getitem metadata x)) as [m ->]; [|by eexists].
      apply Z.ltb_lt in Hlt. destruct (Z.le_gt_cases 0 x).
      - unfold getitem. rewrite (proj2 (Z.leb_le 0 x)) by lia.
        apply lookup_lt_is_Some. lia.
      - apply getitem_negative. lia. }
    destruct Hrest as [rest ->]. cbn [mbind option_bind].
    exists (SearchResult D M (start + 1) dist m :: rest), m.
    split; [done|]. split; [by rewrite <- Hneg|].
    replace (start + 0 + 1)%nat with (start + 1)%nat by lia. left.
  - destruct (IH (S start) i Hi) as (results & m & Hres & Hm & Hin).
    rewrite Hres.
    replace (S start + i + 1)%nat with (start + S i + 1)%nat in Hin by lia.
    destruct (idx' <? Z.of_nat (length metadata))%Z eqn:Hlt.
    + destruct (Hget eq_refl) as [m' ->]. cbn [mbind option_bind].
      eexists _, m. split; [done|]. split; [done|]. by right.
    + exists results, m. by repeat split.
Qed.

Lemma search_negative_index_witness :
  let metadata := [u "Điều 1."; u "Điều 2."; u "Điều 3."] in
  let hits := [(7%Z, 1%Z); (5%Z, (-1)%Z)] in
  Forall (fun hit => (- Z.of_nat (length metadata) <= hit.2)%Z) hits /\
  exists results m,
    search Z str metadata hits = Some results /\
    metadata !! 2%nat = Some m /\
    SearchResult Z str 2 5%Z m ∈ results.
Proof.
  intros metadata hits.
  assert (Hall : Forall (fun hit => (- Z.of_nat (length metadata) <= hit.2)%Z) hits).
  { repeat constructor; cbn; lia. }
  split; [exact Hall|].
  apply (search_negative_index metadata hits 1 5%Z (-1)%Z); [reflexivity|cbn; lia|exact Hall].
Defined.

(** ** Classification and title *)

(** X18.  The roman numerals of one letter are taken for letters: a line
    that starts with V, X, L, C, D or M and a delimiter is classified at
    level 10, with the upper-case letters, and not at level 11, and a line
    that starts with i, v or x and a delimiter at level 13, not at level 14,
    while IV, VI and IX go to level 11 and iv, vi and ix to level 14; of the
    upper-case numerals only I, II and III are kept from the letters. *)
Theorem single_letter_numerals :
  (forall c d rest, c ∈ u "VXLCDM" -> d ∈ u ".)" ->
     classify (c :: d :: rest) = Some 10%Z) /\
  (forall c d rest, c ∈ u "ivx" -> d ∈ u ".)" ->
     classify (c :: d :: rest) = Some 13%Z) /\
  (forall numeral d rest, numeral ∈ map u ["IV"; "VI"; "IX"] -> d ∈ u ".)" ->
     classify (numeral ++ d :: rest) = Some 11%Z) /\
  (forall numeral d rest, numeral ∈ map u ["iv"; "vi"; "ix"] -> d ∈ u ".)" ->
     classify (numeral ++ d :: rest) = Some 14%Z).
Proof.
  split; [|split; [|split]].
  - intros c d rest Hc Hd.
    change (u ".)") with [46%N; 41%N] in Hd.
    change (u "VXLCDM") with [86%N; 88%N; 76%N; 67%N; 68%N; 77%N] in Hc.
    repeat (apply elem_of_cons in Hc as [->|Hc]); [..|by apply elem_of_nil in Hc];
      (apply elem_of_cons in Hd as [->|Hd];
       [|apply list_elem_of_singleton in Hd as ->]); by vm_compute.
  - intros c d rest Hc Hd.
    change (u ".)") with [46%N; 41%N] in Hd.
    change (u "ivx") with [105%N; 118%N; 120%N] in Hc.
    repeat (apply elem_of_cons in Hc as [->|Hc]); [..|by apply elem_of_nil in Hc];
      (apply elem_of_cons in Hd as [->|Hd];
       [|apply list_elem_of_singleton in Hd as ->]); by vm_compute.
  - intros numeral d rest Hn Hd.
    change (u ".)") with [46%N; 41%N] in Hd.
    change (map u ["IV"; "VI"; "IX"])
      with [[73%N; 86%N]; [86%N; 73%N]; [73%N; 88%N]] in Hn.
    repeat (apply elem_of_cons in Hn as [->|Hn]); [..|by apply elem_of_nil in Hn];
      (apply elem_of_cons in Hd as [->|Hd];
       [|apply list_elem_of_singleton in Hd as ->]); by vm_compute.
  - intros numeral d rest Hn Hd.
    change (u ".)") with [46%N; 41%N] in Hd.
    change (map u ["iv"; "vi"; "ix"])
      with [[105%N; 118%N]; [118%N; 105%N]; [105%N; 120%N]] in Hn.
    repeat (apply elem_of_cons in Hn as [->|Hn]); [..|by apply elem_of_nil in Hn];
      (apply elem_of_cons in Hd as [->|Hd];
       [|apply list_elem_of_singleton in Hd as ->]); by vm_compute.
Qed.

(** X19.  The title of the tree comes from the first twenty lines only: it
    is the first of them that holds a keyword of [doc_keywords], in any case
    of the letters, followed after a space by the next line of the document
    when there is one, whatever that line is (the twenty-first line, for a
    keyword in the twentieth); when none of the twenty holds a keyword the
    tree gets the title "Không xác định". *)
Theorem title_from_first_twenty lines :
  exists tree,
    parse_legal_document_to_dict lines = Some tree /\
    ((exists i line,
        (i < 20)%nat /\ lines !! i = Some line /\ has_keyword line = true /\
        (forall j l, (j < i)%nat -> lines !! j = Some l -> has_keyword l = false) /\
        ten_van_ban tree = match lines !! S i with
                           | Some next => line ++ u " " ++ next
                           | None => line
                           end) \/
     ((forall i line, (i < 20)%nat -> lines !! i = Some line ->
                      has_keyword line = false) /\
      ten_van_ban tree = unknown_title)).
Proof.
  pose proof (find_title_from_spec lines (take 20 lines) 0) as Hspec.
  unfold parse_legal_document_to_dict. fold (find_title lines) in Hspec.
  destruct (reify_build (match appendix_start_index lines with
                         | Some k => take k lines | None => lines end))
    as (r & -> & _).
  cbn [mbind option_bind]. eexists. split; [reflexivity|].
  cbn [ten_van_ban]. destruct (find_title lines) as [title|].
  - left. destruct Hspec as (k & line & Hk & Hkw & Hbefore & Htitle).
    apply lookup_take_Some in Hk as [Hk Hlt].
    exists k, line. repeat split; try done.
    + intros j l Hj Hl. apply (Hbefore j l Hj). apply lookup_take_Some.
      split; [done|lia].
    + assert (Hne : line <> []) by (intros ->; by rewrite has_keyword_nil in Hkw).
      rewrite Htitle. cbn [Nat.add].
      destruct (lines !! S k); by destruct line.
  - right. split; [|done].
    intros i line Hi Hline. rewrite Forall_forall in Hspec. apply Hspec.
    apply list_elem_of_lookup. exists i. apply lookup_take_Some. by split.
Qed.
